(** * The picture-resource decoder of images_sdl.cpp and the plugin manager
      of Plugins.cpp

    A shallow embedding of [unpack_bits], the three depth-specific
    decompressors, [uncompress_picture], [picture_to_surface] and the two
    functions that put a picture on the screen, with the properties the
    specification states about them and further ones the code shows.

    Memory is byte addressed: the resource and the pixel buffer are
    [list byte], pointers are offsets of type [Z] into them.  A dereference
    outside an object is undefined behaviour in C++; the embedding stops there
    and reports the offset. *)

From Stdlib Require Import ZArith Lia Bool.
From Stdlib Require Import Init.Byte Strings.Byte.
From stdpp Require Import base tactics option list strings sorting.

Local Open Scope Z_scope.

(** ** Outcomes of a computation *)

(** The two [fprintf (stderr, ...); exit (1)] diagnostics of the source, and
    the failure of the byte reader. *)
Inductive error : Type :=
  | TruncatedInput
  | UnimplementedOpcode (opcode : Z)
  | UnimplementedPacking (pack_type : Z).

(** Undefined behaviour: an access outside the object a pointer points into. *)
Inductive fault : Type :=
  | SrcOverrun (off : Z)      (* read of the source outside its bounds *)
  | DstOverrun (off : Z)      (* store outside the destination *)
  | NullPalette               (* store through a NULL palette *)
  | PaletteOverrun (i : Z)    (* store outside the palette's colors *)
  | BadCount (n : Z).         (* negative count given to a copying loop *)

(** What a computation comes to: it returns, the process ends in a fatal
    error, an access leaves its object, or a loop of the embedding has used
    up the iterations it was given (shown below never to happen). *)
Inductive outcome (A : Type) : Type :=
  | Ok (a : A)
  | Fatal (e : error)
  | Undefined (f : fault)
  | OutOfFuel.

Arguments Ok {A} a.
Arguments Fatal {A} e.
Arguments Undefined {A} f.
Arguments OutOfFuel {A}.

#[global] Instance outcome_ret : MRet outcome := fun _ a => Ok a.
#[global] Instance outcome_bind : MBind outcome := fun _ _ k m =>
  match m with
  | Ok a => k a
  | Fatal e => Fatal e
  | Undefined f => Undefined f
  | OutOfFuel => OutOfFuel
  end.

(** ** Bytes and integers *)

Definition Z_of_byte (b : byte) : Z := Z.of_N (Byte.to_N b).

Definition byte_of_Z (z : Z) : byte :=
  match Byte.of_N (Z.to_N (z mod 256)) with
  | Some b => b
  | None => x00
  end.

Definition bytes_of (l : list Z) : list byte := map byte_of_Z l.

(** [(int8) b] *)
Definition int8 (b : Z) : Z := if 128 <=? b then b - 256 else b.

(** Truncation to [uint16]. *)
Definition uint16 (z : Z) : Z := Z.land z 65535.

(** ** Memory *)

Definition len (m : list byte) : Z := Z.of_nat (length m).

(** [src[i]] on the resource. *)
Definition peek (buf : list byte) (i : Z) : outcome Z :=
  if (0 <=? i) && (i <? len buf) then
    match buf !! Z.to_nat i with
    | Some b => Ok (Z_of_byte b)
    | None => Undefined (SrcOverrun i)
    end
  else Undefined (SrcOverrun i).

(** [dst[i] = b] on a destination object. *)
Definition poke (mem : list byte) (i : Z) (b : Z) : outcome (list byte) :=
  if (0 <=? i) && (i <? len mem) then Ok (<[Z.to_nat i := byte_of_Z b]> mem)
  else Undefined (DstOverrun i).

(** The element type [T] of the [unpack_bits] template: [uint8] or [uint16]. *)
Inductive elt : Type := U8 | U16.

Definition sizeof (T : elt) : Z := match T with U8 => 1 | U16 => 2 end.

(** The bytes of one [T] in the memory of the host. *)
Definition elt_bytes (little_endian : bool) (T : elt) (v : Z) : list Z :=
  match T with
  | U8 => [v mod 256]
  | U16 =>
      if little_endian then [v mod 256; v / 256 mod 256]
      else [v / 256 mod 256; v mod 256]
  end.

Fixpoint poke_bytes (mem : list byte) (i : Z) (bs : list Z) : outcome (list byte) :=
  match bs with
  | [] => Ok mem
  | b :: bs' => mem' ← poke mem i b; poke_bytes mem' (i + 1) bs'
  end.

(** ** [unpack_bits] *)

(** The variables of [unpack_bits]: the two pointers, the remaining count and
    the object [dst] points into. *)
Record ub_state : Type := UB {
  src : Z;
  src_count : Z;
  dst : Z;
  mem : list byte
}.

Section UnpackBits.

(** [LITTLE_ENDIAN] of the host. *)
Variable little_endian : bool.
Variable T : elt.
(** The resource [src] points into. *)
Variable buf : list byte.

(** The [if (sizeof(T) == 1) ... else ...] block: read one [T], advance
    [src], decrement [src_count]. *)
Definition read_T (st : ub_state) : outcome (Z * ub_state) :=
  match T with
  | U8 =>
      b ← peek buf (src st);
      Ok (b, UB (src st + 1) (src_count st - 1) (dst st) (mem st))
  | U16 =>
      b0 ← peek buf (src st);
      b1 ← peek buf (src st + 1);
      Ok (uint16 (Z.lor (Z.shiftl b0 8) b1),
          UB (src st + 2) (src_count st - 2) (dst st) (mem st))
  end.

(** [*dst++ = data] *)
Definition write_T (st : ub_state) (data : Z) : outcome ub_state :=
  mem' ← poke_bytes (mem st) (dst st) (elt_bytes little_endian T data);
  Ok (UB (src st) (src_count st) (dst st + sizeof T) mem').

(** [for (int i=0; i<size; i++) *dst++ = data;] *)
Fixpoint fill_run (size : nat) (data : Z) (st : ub_state) : outcome ub_state :=
  match size with
  | O => Ok st
  | S n => st' ← write_T st data; fill_run n data st'
  end.

(** The loop of the uncompressed run. *)
Fixpoint copy_run (size : nat) (st : ub_state) : outcome ub_state :=
  match size with
  | O => Ok st
  | S n =>
      '(data, st1) ← read_T st;
      st2 ← write_T st1 data;
      copy_run n st2
  end.

(** One iteration of [while (src_count > 0)]. *)
Definition unpack_step (st : ub_state) : outcome ub_state :=
  b ← peek buf (src st);
  let c := int8 b in
  let st1 := UB (src st + 1) (src_count st - 1) (dst st) (mem st) in
  if c <? 0 then
    let size := - c + 1 in
    '(data, st2) ← read_T st1;
    fill_run (Z.to_nat size) data st2
  else
    let size := c + 1 in
    copy_run (Z.to_nat size) st1.

Fixpoint unpack_loop (fuel : nat) (st : ub_state) : outcome ub_state :=
  if 0 <? src_count st then
    match fuel with
    | O => OutOfFuel
    | S f => st' ← unpack_step st; unpack_loop f st'
    end
  else Ok st.

(** The source count read in front of the packed line. *)
Definition read_count (s : Z) (row_bytes : Z) : outcome (Z * Z) :=
  if 250 <? row_bytes then
    b0 ← peek buf s;
    b1 ← peek buf (s + 1);
    Ok (Z.lor (Z.shiftl b0 8) b1, s + 2)
  else
    b ← peek buf s;
    Ok (b, s + 1).

(** [unpack_bits (src, row_bytes, dst)]: the returned [src], and the
    destination object with its pointer. *)
Definition unpack_bits (s : Z) (row_bytes : Z) (d : Z) (m : list byte)
  : outcome ub_state :=
  '(count, s') ← read_count s row_bytes;
  unpack_loop (Z.to_nat count) (UB s' count d m).

End UnpackBits.

(** ** The host: what the source takes from outside *)

(** [byte_swapping.h]: the field sizes of [byte_swap_memory]. *)
Inductive bs_field : Type := _2byte | _4byte.

(** [SDL_Color] and the part of [SDL_Surface] the decoder touches;
    [masks = None] stands for mask arguments that were never initialised,
    [palette = None] for [format->palette == NULL]. *)
Record SDL_Color : Type := RGB { col_r : Z; col_g : Z; col_b : Z }.

Record SDL_Surface : Type := Surface {
  surf_w : Z;
  surf_h : Z;
  BitsPerPixel : Z;
  masks : option (Z * Z * Z);
  pitch : Z;
  pixels : list byte;
  palette : option (list SDL_Color)
}.

(** The compile-time byte order, the allocators ([None] or [false] is [NULL]:
    [SDL_RWFromMem] opens the stream on the resource) and
    [byte_swap_memory] of byte_swapping.h, which is not part of the sources
    at hand and is taken as given: memory, pointer, field size, field count. *)
Record Host : Type := {
  LITTLE_ENDIAN : bool;
  malloc : Z -> option (list byte);
  SDL_RWFromMem : list byte -> bool;
  SDL_CreateRGBSurface :
    Z -> Z -> Z -> option (Z * Z * Z) -> option SDL_Surface;
  byte_swap_memory : list byte -> Z -> bs_field -> Z -> outcome (list byte)
}.

(** ** The decompressors *)

Section Uncompress.

Variable host : Host.
(** The resource; [src] pointers are offsets into it. *)
Variable buf : list byte.

Fixpoint rle_rows (T : elt) (height : nat) (s : Z) (row_bytes : Z)
    (d : Z) (dst_pitch : Z) (pix : list byte) : outcome (list byte) :=
  match height with
  | O => Ok pix
  | S n =>
      st ← unpack_bits (LITTLE_ENDIAN host) T buf s row_bytes d pix;
      rle_rows T n (src st) row_bytes (d + dst_pitch) dst_pitch (mem st)
  end.

(** 8-bit picture, one scan line at a time. *)
Definition uncompress_rle8 (s row_bytes : Z) (pix : list byte)
    (d dst_pitch height : Z) : outcome (list byte) :=
  rle_rows U8 (Z.to_nat height) s row_bytes d dst_pitch pix.

(** 16-bit picture, one scan line at a time, 16-bit chunks. *)
Definition uncompress_rle16 (s row_bytes : Z) (pix : list byte)
    (d dst_pitch height : Z) : outcome (list byte) :=
  rle_rows U16 (Z.to_nat height) s row_bytes d dst_pitch pix.

(** [while (count--) { *dst = *src++; dst += 4; }] *)
Fixpoint component_loop (count : nat) (tmp : list byte) (s : Z)
    (pix : list byte) (d : Z) : outcome (list byte) :=
  match count with
  | O => Ok pix
  | S n =>
      b ← peek tmp s;
      pix' ← poke pix d b;
      component_loop n tmp (s + 1) pix' (d + 4)
  end.

Definition copy_component_into_surface (tmp : list byte) (s : Z)
    (pix : list byte) (d : Z) (count component : Z) : outcome (list byte) :=
  let d := if LITTLE_ENDIAN host then d + (2 - component)
           else d + (component + 1) in
  if count <? 0 then Undefined (BadCount count)
  else component_loop (Z.to_nat count) tmp s pix d.

Fixpoint rle32_rows (height : nat) (s : Z) (row_bytes : Z) (tmp : list byte)
    (width : Z) (d : Z) (dst_pitch : Z) (pix : list byte)
    : outcome (list byte) :=
  match height with
  | O => Ok pix
  | S n =>
      st ← unpack_bits (LITTLE_ENDIAN host) U8 buf s row_bytes 0 tmp;
      let tmp := mem st in
      pix ← copy_component_into_surface tmp 0 pix d width 0;
      pix ← copy_component_into_surface tmp width pix d width 1;
      pix ← copy_component_into_surface tmp (width * 2) pix d width 2;
      rle32_rows n (src st) row_bytes tmp width (d + dst_pitch) dst_pitch pix
  end.

(** 32-bit picture, one scan line, one component at a time. *)
Definition uncompress_rle32 (s row_bytes : Z) (pix : list byte)
    (d dst_pitch height : Z) : outcome (list byte) :=
  match malloc host row_bytes with
  | None => Ok pix
  | Some tmp =>
      let width := Z.quot row_bytes 4 in
      rle32_rows (Z.to_nat height) s row_bytes tmp width d dst_pitch pix
  end.

Fixpoint memcpy_loop (n : nat) (pix : list byte) (d : Z) (s : Z)
    : outcome (list byte) :=
  match n with
  | O => Ok pix
  | S k =>
      b ← peek buf s;
      pix' ← poke pix d b;
      memcpy_loop k pix' (d + 1) (s + 1)
  end.

(** [memcpy (dst, src, n)] from the resource. *)
Definition memcpy (pix : list byte) (d : Z) (s : Z) (n : Z)
    : outcome (list byte) :=
  if n <? 0 then Undefined (BadCount n)
  else memcpy_loop (Z.to_nat n) pix d s.

Definition uncompress_picture (s row_bytes : Z) (pix : list byte)
    (d dst_pitch depth height pack_type : Z) : outcome (list byte) :=
  if row_bytes <? 8 then
    (* Uncompressed data *)
    memcpy pix d s (row_bytes * height)
  else
    (* Compressed data *)
    if depth =? 8 then
      uncompress_rle8 s row_bytes pix d dst_pitch height
    else
      let pack_type :=
        if pack_type =? 0 then
          if depth =? 16 then 3
          else if depth =? 32 then 4
          else pack_type
        else pack_type in
      if pack_type =? 1 then
        (* No packing *)
        pix ← memcpy pix d s (row_bytes * height);
        if depth =? 16 then
          byte_swap_memory host pix d _2byte (Z.quot (dst_pitch * height) 2)
        else if depth =? 32 then
          byte_swap_memory host pix d _4byte (Z.quot (dst_pitch * height) 4)
        else Ok pix
      else if pack_type =? 3 then
        (* Run-length encoding by 16-bit chunks *)
        uncompress_rle16 s row_bytes pix d dst_pitch height
      else if pack_type =? 4 then
        (* Run-length encoding one component at a time *)
        uncompress_rle32 s row_bytes pix d dst_pitch height
      else Fatal (UnimplementedPacking pack_type).

End Uncompress.

(** ** The byte reader *)

(** Modelled from the spec: the byte reader of section 4.1.  The source reads
    the resource through SDL's [SDL_RWops] ([SDL_ReadBE16], [SDL_RWseek],
    [SDL_RWtell]), which is not part of the sources at hand.  A cursor is an
    offset into the resource; values are big-endian; a read or a seek that
    leaves the buffer is the fatal [TruncatedInput]. *)
Definition SDL_ReadBE16 (buf : list byte) (p : Z) : outcome (Z * Z) :=
  if (0 <=? p) && (p + 2 <=? len buf) then
    match buf !! Z.to_nat p, buf !! Z.to_nat (p + 1) with
    | Some b0, Some b1 => Ok (Z_of_byte b0 * 256 + Z_of_byte b1, p + 2)
    | _, _ => Fatal TruncatedInput
    end
  else Fatal TruncatedInput.

(** Modelled from the spec: the relative seek of the byte reader of section
    4.1, [SDL_RWseek (p, n, SEEK_CUR)] in the source. *)
Definition SDL_RWseek (buf : list byte) (p : Z) (n : Z) : outcome Z :=
  if (0 <=? p + n) && (p + n <=? len buf) then Ok (p + n)
  else Fatal TruncatedInput.

(** ** [picture_to_surface] *)

(** The switch on [pixel_size] that sets [Rmask], [Gmask] and [Bmask]; it has
    no default, so for another depth the three variables stay as they were
    declared: uninitialised. *)
Definition channel_masks (pixel_size : Z) : option (Z * Z * Z) :=
  if pixel_size =? 8 then Some (0xff, 0xff, 0xff)
  else if pixel_size =? 16 then Some (0x7c00, 0x03e0, 0x001f)
  else if pixel_size =? 32 then Some (0x00ff0000, 0x0000ff00, 0x000000ff)
  else None.

(** The fields of the PixMap the decoder keeps. *)
Record pixmap : Type := PixMap {
  pm_row_bytes : Z;
  pm_height : Z;
  pm_width : Z;
  pm_pack_type : Z;
  pm_pixel_size : Z
}.

(** [pal->colors[value] = c], one channel at a time in the source. *)
Definition set_color (pal : option (list SDL_Color)) (value : Z)
    (upd : SDL_Color -> SDL_Color) : outcome (option (list SDL_Color)) :=
  match pal with
  | None => Undefined NullPalette
  | Some cs =>
      match cs !! Z.to_nat value with
      | Some c => Ok (Some (<[Z.to_nat value := upd c]> cs))
      | None => Undefined (PaletteOverrun value)
      end
  end.

(** The local variables of the opcode loop. *)
Record pict_state : Type := Pict {
  cursor : Z;
  surface : option SDL_Surface;
  done : bool
}.

Section Picture.

Variable host : Host.
Variable buf : list byte.

#[local] Abbreviation ReadBE16 := (SDL_ReadBE16 buf).
#[local] Abbreviation RWseek := (SDL_RWseek buf).

(** 1. PixMap *)
Definition read_pixmap (opcode : Z) (p : Z) : outcome (pixmap * Z) :=
  p ← (if opcode =? 0x009a then RWseek p 4 else Ok p);
  '(v, p) ← ReadBE16 p;
  let row_bytes := Z.land v 0x3fff in
  '(top_, p) ← ReadBE16 p;
  '(left_, p) ← ReadBE16 p;
  '(v, p) ← ReadBE16 p;
  let height := (v - top_) mod 65536 in
  '(v, p) ← ReadBE16 p;
  let width := (v - left_) mod 65536 in
  p ← RWseek p 2;
  '(pack_type, p) ← ReadBE16 p;
  p ← RWseek p 14;
  '(pixel_size, p) ← ReadBE16 p;
  p ← RWseek p 16;
  Ok (PixMap row_bytes height width pack_type pixel_size, p).

(** The body of [for (int i=0; i<num_colors; i++)]. *)
Fixpoint read_colors (num_colors : nat) (p : Z)
    (pal : option (list SDL_Color)) : outcome (option (list SDL_Color) * Z) :=
  match num_colors with
  | O => Ok (pal, p)
  | S n =>
      '(v, p) ← ReadBE16 p;
      let value := Z.land v 0xff in
      '(v, p) ← ReadBE16 p;
      pal ← set_color pal value
              (fun c => RGB (Z.shiftr v 8) (col_g c) (col_b c));
      '(v, p) ← ReadBE16 p;
      pal ← set_color pal value
              (fun c => RGB (col_r c) (Z.shiftr v 8) (col_b c));
      '(v, p) ← ReadBE16 p;
      pal ← set_color pal value
              (fun c => RGB (col_r c) (col_g c) (Z.shiftr v 8));
      read_colors n p pal
  end.

(** 2. ColorTable *)
Definition read_color_table (opcode : Z) (p : Z)
    (pal : option (list SDL_Color)) : outcome (option (list SDL_Color) * Z) :=
  if opcode =? 0x0098 then
    p ← RWseek p 6;
    '(v, p) ← ReadBE16 p;
    let num_colors := v + 1 in
    read_colors (Z.to_nat num_colors) p pal
  else Ok (pal, p).

(** The case of the two packed CopyBits opcodes. *)
Definition copy_bits (opcode : Z) (p : Z) : outcome pict_state :=
  '(pm, p) ← read_pixmap opcode p;
  match SDL_CreateRGBSurface host (pm_width pm) (pm_height pm)
          (pm_pixel_size pm) (channel_masks (pm_pixel_size pm)) with
  | None => Ok (Pict p None true)
  | Some s =>
      '(pal, p) ← read_color_table opcode p (palette s);
      p ← RWseek p 18;
      pix ← uncompress_picture host buf p (pm_row_bytes pm) (pixels s) 0
              (pitch s) (pm_pixel_size pm) (pm_height pm) (pm_pack_type pm);
      Ok (Pict p
            (Some (Surface (surf_w s) (surf_h s) (BitsPerPixel s) (masks s)
                     (pitch s) pix pal))
            true)
  end.

(** One iteration of [while (!done)]: read an opcode and switch on it. *)
Definition opcode_step (st : pict_state) : outcome pict_state :=
  '(opcode, p) ← ReadBE16 (cursor st);
  if (opcode =? 0x0000) || (opcode =? 0x0011) || (opcode =? 0x001e)
     || (opcode =? 0x02ff) then
    Ok (Pict p (surface st) (done st))
  else if opcode =? 0x00a0 then
    p ← RWseek p 2;
    Ok (Pict p (surface st) (done st))
  else if opcode =? 0x00a1 then
    p ← RWseek p 2;
    '(size, p) ← ReadBE16 p;
    p ← RWseek p size;
    Ok (Pict p (surface st) (done st))
  else if opcode =? 0x0c00 then
    p ← RWseek p 24;
    Ok (Pict p (surface st) (done st))
  else if opcode =? 0x00ff then
    Ok (Pict p (surface st) true)
  else if opcode =? 0x0001 then
    '(size, p) ← ReadBE16 p;
    p ← RWseek p (size - 2);
    Ok (Pict p (surface st) (done st))
  else if (opcode =? 0x0098) || (opcode =? 0x009a) then
    copy_bits opcode p
  else Fatal (UnimplementedOpcode opcode).

Fixpoint opcode_loop (fuel : nat) (st : pict_state) : outcome pict_state :=
  if done st then Ok st
  else
    match fuel with
    | O => OutOfFuel
    | S f => st' ← opcode_step st; opcode_loop f st'
    end.

End Picture.

(** [picture_to_surface (rsrc)]; [rsrc = None] is a resource that is not
    loaded, the result [None] is [NULL]. *)
Definition picture_to_surface (host : Host) (rsrc : option (list byte))
    : outcome (option SDL_Surface) :=
  match rsrc with
  | None => Ok None
  | Some buf =>
      if SDL_RWFromMem host buf then
        p ← SDL_RWseek buf 0 10;
        st ← opcode_loop host buf (S (length buf)) (Pict p None false);
        Ok (surface st)
      else Ok None
  end.

(** ** Concrete hosts, to run the decoder *)

(** Modelled from the spec: the raster of section 3, which the source
    obtains from SDL's [SDL_CreateRGBSurface] (not part of the sources at
    hand): a pixel buffer of height times stride zero bytes, the stride being
    the row rounded up to four bytes, and a palette of 256 black entries for
    the 8-bit format only. *)
Definition create_surface (w h depth : Z) (m : option (Z * Z * Z))
    : option SDL_Surface :=
  let stride := (w * ((depth + 7) / 8) + 3) / 4 * 4 in
  Some (Surface w h depth m stride
          (replicate (Z.to_nat (h * stride)) x00)
          (if depth =? 8 then Some (replicate 256 (RGB 0 0 0)) else None)).

Fixpoint swap_fields (count : nat) (width : nat) (m : list byte) (d : nat)
    : outcome (list byte) :=
  match count with
  | O => Ok m
  | S n =>
      if (d + width <=? length m)%nat then
        swap_fields n width
          (take d m ++ rev (take width (drop d m)) ++ drop (d + width) m)
          (d + width)
      else Undefined (DstOverrun (Z.of_nat (length m)))
  end.

(** Modelled from the spec: [byte_swap_memory] of byte_swapping.h, section
    4.3: every field of the given size has its bytes reversed in place. *)
Definition swap_memory (m : list byte) (d : Z) (f : bs_field) (count : Z)
    : outcome (list byte) :=
  if (d <? 0) || (count <? 0) then Undefined (BadCount count)
  else swap_fields (Z.to_nat count)
         (match f with _2byte => 2 | _4byte => 4 end) m (Z.to_nat d).

(** A little-endian host on which every allocation succeeds. *)
Definition host_le : Host := {|
  LITTLE_ENDIAN := true;
  malloc := fun n => Some (replicate (Z.to_nat n) x00);
  SDL_RWFromMem := fun _ => true;
  SDL_CreateRGBSurface := create_surface;
  byte_swap_memory := swap_memory
|}.

(** The same host when [malloc] returns [NULL]. *)
Definition host_nomem : Host := {|
  LITTLE_ENDIAN := true;
  malloc := fun _ => None;
  SDL_RWFromMem := fun _ => true;
  SDL_CreateRGBSurface := create_surface;
  byte_swap_memory := swap_memory
|}.

(** ** A PackBits encoder for scan lines *)

(** The packets of a packed line: a literal run, or a repeat run of [n]
    copies of one element. *)
Inductive packet : Type :=
  | Literal (vs : list Z)
  | Repeat (n : nat) (v : Z).

Definition expand (pk : packet) : list Z :=
  match pk with
  | Literal vs => vs
  | Repeat n v => replicate n v
  end.

(** One element in the byte order of the file: big-endian. *)
Definition be_bytes (T : elt) (v : Z) : list Z :=
  match T with
  | U8 => [v]
  | U16 => [v / 256; v mod 256]
  end.

(** The flag/count byte followed by the data of the run. *)
Definition packet_bytes (T : elt) (pk : packet) : list Z :=
  match pk with
  | Literal vs => (Z.of_nat (length vs) - 1) :: flat_map (be_bytes T) vs
  | Repeat n v => (257 - Z.of_nat n) :: be_bytes T v
  end.

(** Put one element in front of a packed line: three equal elements start a
    repeat run, a repeat run grows up to 128 elements, a literal run grows up
    to 128 elements. *)
Definition cons_elt (v : Z) (ps : list packet) : list packet :=
  match ps with
  | [] => [Literal [v]]
  | Repeat n u :: ps' =>
      if (v =? u) && (n <? 128)%nat then Repeat (S n) u :: ps'
      else Literal [v] :: ps
  | Literal (a :: b :: vs) :: ps' =>
      if (v =? a) && (v =? b) then
        Repeat 3 v :: match vs with [] => ps' | _ => Literal vs :: ps' end
      else if (length vs + 2 <? 128)%nat then Literal (v :: a :: b :: vs) :: ps'
      else Literal [v] :: ps
  | Literal vs :: ps' => Literal (v :: vs) :: ps'
  end.

Definition pack_elts (line : list Z) : list packet := foldr cons_elt [] line.

(** Modelled from the spec: the reference PackBits encoder of section 8 with
    the line-level length prefix of section 4.2, a 16-bit big-endian count
    when [row_bytes > 250] and one byte otherwise.  [frame_line] puts the
    prefix in front of any packets, [pack_line] in front of the packets of
    [pack_elts]. *)
Definition frame_line (T : elt) (row_bytes : Z) (ps : list packet)
    : list byte :=
  let body := flat_map (packet_bytes T) ps in
  let n := Z.of_nat (length body) in
  bytes_of ((if 250 <? row_bytes then [n / 256; n mod 256] else [n]) ++ body).

Definition pack_line (T : elt) (row_bytes : Z) (line : list Z) : list byte :=
  frame_line T row_bytes (pack_elts line).

(** The values an element of type [T] can hold. *)
Definition in_range (T : elt) (v : Z) : Prop := 0 <= v < 256 ^ sizeof T.

(** The packets a PackBits encoder may write: a literal run of 1 to 128
    elements, a repeat run of 2 to 128. *)
Definition packet_ok (T : elt) (pk : packet) : Prop :=
  match pk with
  | Literal vs => (1 <= length vs <= 128)%nat /\ Forall (in_range T) vs
  | Repeat n v => (2 <= n <= 128)%nat /\ in_range T v
  end.

(** The bytes a packet takes in the file, and the elements it stands for. *)
Definition packet_len (T : elt) (pk : packet) : Z :=
  match pk with
  | Literal vs => 1 + sizeof T * Z.of_nat (length vs)
  | Repeat _ _ => 1 + sizeof T
  end.

Fixpoint packed_len (T : elt) (ps : list packet) : Z :=
  match ps with
  | [] => 0
  | pk :: ps' => packet_len T pk + packed_len T ps'
  end.

Fixpoint units (ps : list packet) : Z :=
  match ps with
  | [] => 0
  | pk :: ps' => Z.of_nat (length (expand pk)) + units ps'
  end.

(** A packed line that takes no more bytes than its elements and one byte
    for every 128 of them; the encoder keeps this for the packets after a
    leading literal run, and for the whole line when a repeat run leads. *)
Definition no_excess (T : elt) (ps : list packet) : Prop :=
  packed_len T ps <= sizeof T * units ps + units ps / 128.

Definition pack_inv (T : elt) (ps : list packet) : Prop :=
  match ps with
  | [] => True
  | Literal _ :: ps' => no_excess T ps'
  | Repeat _ _ :: _ => no_excess T ps
  end.

(** What a store of [bs] at offset [i] leaves in memory. *)
Definition splice (m : list byte) (i : Z) (bs : list byte) : list byte :=
  take (Z.to_nat i) m ++ bs ++ drop (Z.to_nat i + length bs) m.

(** The elements [vs] as they lie in the memory of the host. *)
Definition host_bytes (little_endian : bool) (T : elt) (vs : list Z)
    : list byte :=
  bytes_of (flat_map (elt_bytes little_endian T) vs).

(** The element of the source at offset [i], assembled high byte first. *)
Definition elt_at (T : elt) (buf : list byte) (i : Z) : option Z :=
  match T with
  | U8 => b ← buf !! Z.to_nat i; Some (Z_of_byte b)
  | U16 =>
      b0 ← buf !! Z.to_nat i;
      b1 ← buf !! Z.to_nat (i + 1);
      Some (Z_of_byte b0 * 256 + Z_of_byte b1)
  end.

(** The element of type [T] that the host reads at offset [i] of a
    destination, and the [n] elements from there on. *)
Definition host_elt_at (little_endian : bool) (T : elt) (m : list byte)
    (i : Z) : option Z :=
  match T with
  | U8 => b ← m !! Z.to_nat i; Some (Z_of_byte b)
  | U16 =>
      b0 ← m !! Z.to_nat i;
      b1 ← m !! Z.to_nat (i + 1);
      Some (if little_endian then Z_of_byte b1 * 256 + Z_of_byte b0
            else Z_of_byte b0 * 256 + Z_of_byte b1)
  end.

Fixpoint host_elts_at (little_endian : bool) (T : elt) (m : list byte)
    (i : Z) (n : nat) : option (list Z) :=
  match n with
  | O => Some []
  | S k =>
      v ← host_elt_at little_endian T m i;
      vs ← host_elts_at little_endian T m (i + sizeof T) k;
      Some (v :: vs)
  end.

(** The [n] elements of the source from offset [i] on. *)
Fixpoint elts_at (T : elt) (buf : list byte) (i : Z) (n : nat)
    : option (list Z) :=
  match n with
  | O => Some []
  | S k =>
      v ← elt_at T buf i;
      vs ← elts_at T buf (i + sizeof T) k;
      Some (v :: vs)
  end.

(** An outcome that is an access past the end of the source, or outside the
    destination. *)
Definition overrun {A} (buf : list byte) (o : outcome A) : Prop :=
  o = Undefined (SrcOverrun (len buf))
  \/ exists off, o = Undefined (DstOverrun off).

(** ** The inline color table, as the specification words it *)

(** One entry of the color table at offset [i]: a palette index and three
    16-bit channels, of which the high byte is kept. *)
Definition color_entry_at (buf : list byte) (i : Z) : option (Z * SDL_Color) :=
  index ← elt_at U16 buf i;
  r ← elt_at U16 buf (i + 2);
  g ← elt_at U16 buf (i + 4);
  b ← elt_at U16 buf (i + 6);
  Some (index, RGB (Z.shiftr r 8) (Z.shiftr g 8) (Z.shiftr b 8)).

Fixpoint color_entries_at (buf : list byte) (i : Z) (n : nat)
    : option (list (Z * SDL_Color)) :=
  match n with
  | O => Some []
  | S k =>
      e ← color_entry_at buf i;
      es ← color_entries_at buf (i + 8) k;
      Some (e :: es)
  end.

(** The palette slot of an entry: the low byte of its index field. *)
Definition slot (e : Z * SDL_Color) : nat := Z.to_nat (Z.land (fst e) 0xff).

Definition store_entry (cs : list SDL_Color) (e : Z * SDL_Color)
    : list SDL_Color :=
  <[slot e := snd e]> cs.

(** The color of the last entry for slot [i], if there is one. *)
Definition last_color (i : nat) (es : list (Z * SDL_Color))
    : option SDL_Color :=
  foldl (fun acc e => if Nat.eqb (slot e) i then Some (snd e) else acc) None es.

(** ** The dispatch of [uncompress_picture], as the specification words it *)

(** The ways to decompress the pixel data (section 4.3). *)
Inductive path : Type :=
  | CopyVerbatim (n : Z)
  | RunLength8
  | CopySwapped (n : Z) (field : option bs_field)
  | RunLength16
  | RunLength32
  | UnsupportedPacking (pack_type : Z).

(** The dispatch policy on [(rowBytes, depth, packType, height)]. *)
Definition dispatch (row_bytes depth pack_type height : Z) : path :=
  if row_bytes <? 8 then CopyVerbatim (row_bytes * height)
  else if depth =? 8 then RunLength8
  else
    let pack_type :=
      match pack_type, depth with
      | 0, 16 => 3
      | 0, 32 => 4
      | _, _ => pack_type
      end in
    match pack_type with
    | 1 =>
        CopySwapped (row_bytes * height)
          (match depth with
           | 16 => Some _2byte
           | 32 => Some _4byte
           | _ => None
           end)
    | 3 => RunLength16
    | 4 => RunLength32
    | _ => UnsupportedPacking pack_type
    end.

(** What each way does, with the decompressors of the source. *)
Definition run_path (host : Host) (buf : list byte) (way : path)
    (s row_bytes : Z) (pix : list byte) (d dst_pitch height : Z)
    : outcome (list byte) :=
  match way with
  | CopyVerbatim n => memcpy buf pix d s n
  | RunLength8 => uncompress_rle8 host buf s row_bytes pix d dst_pitch height
  | CopySwapped n field =>
      pix ← memcpy buf pix d s n;
      match field with
      | Some _2byte =>
          byte_swap_memory host pix d _2byte (Z.quot (dst_pitch * height) 2)
      | Some _4byte =>
          byte_swap_memory host pix d _4byte (Z.quot (dst_pitch * height) 4)
      | None => Ok pix
      end
  | RunLength16 => uncompress_rle16 host buf s row_bytes pix d dst_pitch height
  | RunLength32 => uncompress_rle32 host buf s row_bytes pix d dst_pitch height
  | UnsupportedPacking pack_type => Fatal (UnimplementedPacking pack_type)
  end.

(** ** Picture resources, to run the decoder on *)

(** The fields of a PixMap as the decoder walks them, without the base
    address: row bytes, bounds, version, pack type, 14 bytes, pixel size,
    16 bytes. *)
Definition pixmap_bytes (row_bytes top left_ bottom right_ pack_type
    pixel_size : Z) : list Z :=
  flat_map (be_bytes U16) [row_bytes; top; left_; bottom; right_]
  ++ [0; 0] ++ be_bytes U16 pack_type ++ replicate 14 0
  ++ be_bytes U16 pixel_size ++ replicate 16 0.

(** An 8-bit picture of one row of eight pixels, opcode 0x0098, with a color
    table of one entry; the packed line declares nine bytes and the
    resource ends after three of them. *)
Definition pict_truncated : list byte :=
  bytes_of (replicate 10 0 ++ [0x00; 0x98]
            ++ pixmap_bytes 8 0 0 1 8 0 8
            ++ replicate 6 0 ++ [0; 0] ++ [0; 0; 0xff; 0xff; 0; 0; 0; 0]
            ++ replicate 18 0
            ++ [9; 7; 1; 2]).

(** A picture of pixel depth 24, opcode 0x009a: one row of two pixels in six
    row bytes, stored unpacked. *)
Definition pict_depth24 : list byte :=
  bytes_of (replicate 10 0 ++ [0x00; 0x9a] ++ replicate 4 0
            ++ pixmap_bytes 6 0 0 1 2 0 24
            ++ replicate 18 0
            ++ [1; 2; 3; 4; 5; 6]).

(** A 32-bit picture, opcode 0x009a, one row of two pixels packed one
    component at a time: red 0x11, green 0x22, blue 0x33. *)
Definition pict_planar : list byte :=
  bytes_of (replicate 10 0 ++ [0x00; 0x9a] ++ replicate 4 0
            ++ pixmap_bytes 8 0 0 1 2 4 32
            ++ replicate 18 0
            ++ [7; 5; 0x11; 0x11; 0x22; 0x22; 0x33; 0x33]).

(** Version opcodes, an 8-bit picture of two rows of two pixels stored
    unpacked with a color table of two entries, the end-of-picture opcode,
    and an opcode the decoder does not know after it. *)
Definition pict_indexed : list byte :=
  bytes_of (replicate 10 0 ++ [0x00; 0x11; 0x02; 0xff] ++ [0x00; 0x98]
            ++ pixmap_bytes 0x8002 0 0 2 2 0 8
            ++ replicate 6 0 ++ [0; 1]
            ++ [0; 0; 0xff; 0xff; 0xff; 0xff; 0xff; 0xff]
            ++ [0; 1; 0x12; 0x34; 0x56; 0x78; 0x9a; 0xbc]
            ++ replicate 18 0
            ++ [0; 1; 1; 0]
            ++ [0x00; 0xff; 0xde; 0xad]).

(** The end-of-picture opcode with an unknown opcode after it. *)
Definition pict_empty : list byte :=
  bytes_of (replicate 10 0 ++ [0x00; 0xff; 0xde; 0xad]).

(** ** What a decompressor leaves in its destination *)

(** From [m] with the pointer at [d] to [m'] with the pointer at [d']: the
    bytes from [d] up to [d'] were stored, inside the object, and nothing
    else. *)
Definition wrote (m : list byte) (d : Z) (m' : list byte) (d' : Z) : Prop :=
  exists bs, d' = d + len bs /\ m' = splice m d bs
             /\ (bs = [] \/ (0 <= d /\ d' <= len m)).

(** The scan lines [lines] stored one below the other, [dst_pitch] bytes
    apart. *)
Fixpoint rows_stored (little_endian : bool) (T : elt) (lines : list (list Z))
    (d dst_pitch : Z) (pix : list byte) : list byte :=
  match lines with
  | [] => pix
  | line :: lines' =>
      rows_stored little_endian T lines' (d + dst_pitch) dst_pitch
        (splice pix d (host_bytes little_endian T line))
  end.

(** The rows [lines] stored from [d] on, [dst_pitch] apart, lie inside a
    pixel buffer of [n] bytes. *)
Fixpoint rows_fit (T : elt) (lines : list (list Z)) (d dst_pitch n : Z)
    : Prop :=
  match lines with
  | [] => True
  | line :: lines' =>
      0 <= d /\ d + sizeof T * Z.of_nat (length line) <= n
      /\ rows_fit T lines' (d + dst_pitch) dst_pitch n
  end.

(** The byte of a pixel that holds a component on this host. *)
Definition component_offset (host : Host) (component : Z) : Z :=
  if LITTLE_ENDIAN host then 2 - component else component + 1.

(** The byte that holds component [c] of pixel [x] of row [y]. *)
Definition component_at (host : Host) (d dst_pitch : Z) (y x : nat) (c : Z)
    : Z :=
  d + Z.of_nat y * dst_pitch + 4 * Z.of_nat x + component_offset host c.

(** The rows of a 32-bit picture of [width] pixels lie inside a pixel buffer
    of [n] bytes. *)
Fixpoint planar_fit (width : Z) (rows : nat) (d dst_pitch n : Z) : Prop :=
  match rows with
  | O => True
  | S k =>
      0 <= d /\ d + 4 * width <= n
      /\ planar_fit width k (d + dst_pitch) dst_pitch n
  end.

(** ** Pictures on the screen *)

(** [SDL_Rect]: [x] and [y] are [Sint16], [w] and [h] are [Uint16]. *)
Record SDL_Rect : Type := Rect {
  rect_x : Z;
  rect_y : Z;
  rect_w : Z;
  rect_h : Z
}.

(** Conversion to [Sint16] and to [uint32]. *)
Definition sint16 (z : Z) : Z := (z + 32768) mod 65536 - 32768.

Definition uint32 (z : Z) : Z := z mod 4294967296.

(** What [SDL_PollEvent] leaves in [event.type]. *)
Inductive event_type : Type :=
  | SDL_NOEVENT
  | SDL_MOUSEBUTTONDOWN
  | SDL_KEYDOWN
  | other_event.

(** The calls a drawing function makes on surfaces, in the order it makes
    them. *)
Inductive video_call : Type :=
  | SetClipping (s : SDL_Surface) (top_ left_ bottom_ right_ : Z)
  | BlitSurface (s : SDL_Surface) (srcrect : option SDL_Rect)
      (dstrect : SDL_Rect)
  | UpdateRects (r : SDL_Rect)
  | FreeSurface (s : SDL_Surface).

(** What the drawing functions take from outside this file: the size of
    [SDL_GetVideoSurface ()], the clipping rectangle of images.cpp (top,
    left, bottom, right), the picture resources of the scenario, and the
    destination rectangle as [SDL_BlitSurface] leaves it after clipping. *)
Record Screen : Type := {
  video_w : Z;
  video_h : Z;
  draw_clip_rect_active : bool;
  draw_clip_rect : Z * Z * Z * Z;
  get_picture_resource_from_scenario : Z -> option (list byte);
  blit_rect : SDL_Surface -> option SDL_Rect -> SDL_Rect -> SDL_Rect
}.

(** [draw_picture (rsrc)]: the picture centered on the screen.  Widths and
    heights of surfaces are non-negative [int]s, so their differences do not
    overflow. *)
Definition draw_picture (host : Host) (scr : Screen)
    (rsrc : option (list byte)) : outcome (list video_call) :=
  s ← picture_to_surface host rsrc;
  match s with
  | None => Ok []
  | Some s =>
      let dest_rect :=
        Rect (sint16 (Z.quot (video_w scr - surf_w s) 2))
             (sint16 (Z.quot (video_h scr - surf_h s) 2))
             (uint16 (surf_w s)) (uint16 (surf_h s)) in
      let dest_rect :=
        if rect_x dest_rect <? 0
        then Rect 0 (rect_y dest_rect) (rect_w dest_rect) (rect_h dest_rect)
        else dest_rect in
      let dest_rect :=
        if rect_y dest_rect <? 0
        then Rect (rect_x dest_rect) 0 (rect_w dest_rect) (rect_h dest_rect)
        else dest_rect in
      let '(top_, left_, bottom_, right_) := draw_clip_rect scr in
      Ok ((if draw_clip_rect_active scr
           then [SetClipping s top_ left_ bottom_ right_] else [])
          ++ [BlitSurface s None dest_rect]
          ++ (if draw_clip_rect_active scr
              then [SetClipping s 0 0 0 0] else [])
          ++ [UpdateRects (blit_rect scr s None dest_rect); FreeSurface s])
  end.

(** How a scroll came to its end: the function returned, it divided by zero,
    or it is still scrolling after the last clock reading supplied. *)
Inductive scroll_end : Type :=
  | Returned
  | DivisionByZero
  | Scrolling.

Section Scroll.

(** The clock rate, a constant defined outside this file. *)
Variable MACHINE_TICKS_PER_SECOND : Z.

Variable scr : Screen.

Definition SCROLLING_SPEED : Z := Z.quot MACHINE_TICKS_PER_SECOND 20.

Definition screen_width : Z := 640.

Definition screen_height : Z := 480.

(** The offset of one pass of the scroll loop and whether it is the last:
    [delta] and [done] before the blit.  [now] is what [SDL_GetTicks ()]
    returned; the arithmetic is that of [uint32]. *)
Definition scroll_delta (picture_width picture_height : Z)
    (text_block : bool) (start_tick now : Z) : option (Z * bool) :=
  let scroll_horizontal := screen_width <? picture_width in
  let scroll_vertical := screen_height <? picture_height in
  let divisor :=
    uint32 (if text_block then 2 * SCROLLING_SPEED else SCROLLING_SPEED) in
  if divisor =? 0 then None
  else
    let delta := uint32 (now - start_tick) / divisor in
    let '(delta, done_) :=
      if scroll_horizontal
         && (uint32 (picture_width - screen_width) <? delta)
      then (uint32 (picture_width - screen_width), true)
      else (delta, false) in
    let '(delta, done_) :=
      if scroll_vertical
         && (uint32 (picture_height - screen_height) <? delta)
      then (uint32 (picture_height - screen_height), true)
      else (delta, done_) in
    Some (delta, done_).

(** The [do ... while (!done && !aborted)] loop, one clock reading and one
    polled event for each pass. *)
Fixpoint scroll_loop (s : SDL_Surface) (text_block : bool) (start_tick : Z)
    (src_rect dst_rect : SDL_Rect) (frames : list (Z * event_type))
    : list video_call * scroll_end :=
  match frames with
  | [] => ([], Scrolling)
  | (now, ev) :: frames =>
      match scroll_delta (surf_w s) (surf_h s) text_block start_tick now with
      | None => ([], DivisionByZero)
      | Some (delta, done_) =>
          let src_rect :=
            Rect (sint16 (if screen_width <? surf_w s then delta else 0))
                 (sint16 (if screen_height <? surf_h s then delta else 0))
                 (rect_w src_rect) (rect_h src_rect) in
          let dst_rect' := blit_rect scr s (Some src_rect) dst_rect in
          let aborted :=
            match ev with
            | SDL_MOUSEBUTTONDOWN | SDL_KEYDOWN => true
            | _ => false
            end in
          let '(calls, e) :=
            if done_ || aborted then ([], Returned)
            else scroll_loop s text_block start_tick src_rect dst_rect'
                   frames in
          (BlitSurface s (Some src_rect) dst_rect :: UpdateRects dst_rect'
             :: calls, e)
      end
  end.

(** [scroll_full_screen_pict_resource_from_scenario]: [start_tick] is the
    clock when the loop is entered, [frames] what the clock and the event
    queue give in each pass. *)
Definition scroll_full_screen_pict_resource_from_scenario (host : Host)
    (pict_resource_number : Z) (text_block : bool) (start_tick : Z)
    (frames : list (Z * event_type))
    : outcome (list video_call * scroll_end) :=
  s ← picture_to_surface host
        (get_picture_resource_from_scenario scr pict_resource_number);
  match s with
  | None => Ok ([], Returned)
  | Some s =>
      let picture_width := surf_w s in
      let picture_height := surf_h s in
      let scroll_horizontal := screen_width <? picture_width in
      let scroll_vertical := screen_height <? picture_height in
      if scroll_horizontal || scroll_vertical then
        let src_rect :=
          Rect 0 0
            (uint16 (if scroll_horizontal then screen_width
                     else picture_width))
            (uint16 (if scroll_vertical then screen_height
                     else picture_height)) in
        let dst_rect :=
          Rect (sint16 (Z.quot (video_w scr - screen_width) 2))
               (sint16 (Z.quot (video_h scr - screen_height) 2))
               (uint16 screen_width) (uint16 screen_height) in
        let '(calls, e) :=
          scroll_loop s text_block (uint32 start_tick) src_rect dst_rect
            frames in
        match e with
        | Returned => Ok (calls ++ [FreeSurface s], Returned)
        | _ => Ok (calls, e)
        end
      else Ok ([FreeSurface s], Returned)
  end.

End Scroll.

(** A screen of 800 by 600 without a clipping rectangle, on which a blit
    clips nothing; it has one picture, number 0. *)
Definition screen_800 (pict : list byte) : Screen := {|
  video_w := 800;
  video_h := 600;
  draw_clip_rect_active := false;
  draw_clip_rect := (0, 0, 0, 0);
  get_picture_resource_from_scenario :=
    fun n => if n =? 0 then Some pict else None;
  blit_rect := fun _ _ r => r
|}.

(** An 8-bit picture of one row of 642 pixels, opcode 0x009a, stored
    unpacked in four row bytes. *)
Definition pict_wide : list byte :=
  bytes_of (replicate 10 0 ++ [0x00; 0x9a] ++ replicate 4 0
            ++ pixmap_bytes 4 0 0 1 642 0 8
            ++ replicate 18 0
            ++ [1; 2; 3; 4]).

(** A picture 40000 pixels wide that has no rows. *)
Definition pict_very_wide : list byte :=
  bytes_of (replicate 10 0 ++ [0x00; 0x9a] ++ replicate 4 0
            ++ pixmap_bytes 4 0 0 0 40000 0 8
            ++ replicate 18 0).

(** A pass of the scroll loop in which a key or a mouse button went down, or
    in which the ticks since the start, divided by the ticks for one pixel,
    are more than the picture is wider or higher than 640 by 480. *)
Definition last_pass (MACHINE_TICKS_PER_SECOND : Z) (s : SDL_Surface)
    (text_block : bool) (start_tick : Z) (f : Z * event_type) : bool :=
  let pixels_scrolled :=
    uint32 (fst f - uint32 start_tick)
    / uint32 (if text_block
              then 2 * SCROLLING_SPEED MACHINE_TICKS_PER_SECOND
              else SCROLLING_SPEED MACHINE_TICKS_PER_SECOND) in
  match snd f with
  | SDL_MOUSEBUTTONDOWN | SDL_KEYDOWN => true
  | _ =>
      ((640 <? surf_w s) && (surf_w s - 640 <? pixels_scrolled))
      || ((480 <? surf_h s) && (surf_h s - 480 <? pixels_scrolled))
  end.

(** ** Picture resources as a writer lays them out *)

(** An entry of a color table: index, red, green and blue, 16 bits each;
    its bytes, what the decoder keeps of it, and its fields in range. *)
Definition color_bytes (c : Z * Z * Z * Z) : list Z :=
  let '(i, r, g, b) := c in
  be_bytes U16 i ++ be_bytes U16 r ++ be_bytes U16 g ++ be_bytes U16 b.

Definition color_entry (c : Z * Z * Z * Z) : Z * SDL_Color :=
  let '(i, r, g, b) := c in
  (i, RGB (Z.shiftr r 8) (Z.shiftr g 8) (Z.shiftr b 8)).

Definition color_ok (c : Z * Z * Z * Z) : Prop :=
  let '(i, r, g, b) := c in
  in_range U16 i /\ in_range U16 r /\ in_range U16 g /\ in_range U16 b.

(** An 8-bit picture: ten bytes of size and frame, opcode 0x0098, the
    PixMap, the color table, 18 bytes of rectangles and mode, and the scan
    lines packed one after the other. *)
Definition indexed_picture (row_bytes width height : Z)
    (colors : list (Z * Z * Z * Z)) (lines : list (list Z)) : list byte :=
  bytes_of (replicate 10 0 ++ [0x00; 0x98]
            ++ pixmap_bytes row_bytes 0 0 height width 0 8
            ++ replicate 6 0 ++ be_bytes U16 (Z.of_nat (length colors) - 1)
            ++ flat_map color_bytes colors
            ++ replicate 18 0)
  ++ concat (map (pack_line U8 row_bytes) lines).

(** A 16-bit or 32-bit picture: opcode 0x009a with the base address, the
    PixMap, 18 bytes of rectangles and mode, and the pixel data. *)
Definition direct_picture (row_bytes width height pack_type pixel_size : Z)
    (data : list byte) : list byte :=
  bytes_of (replicate 10 0 ++ [0x00; 0x9a] ++ replicate 4 0
            ++ pixmap_bytes row_bytes 0 0 height width pack_type pixel_size
            ++ replicate 18 0)
  ++ data.

(** ** The same bytes at another offset *)

(** The state of [unpack_bits] and of the opcode loop with the source
    pointer [k] bytes further on. *)
Definition moved_ub (k : Z) (st : ub_state) : ub_state :=
  UB (src st + k) (src_count st) (dst st) (mem st).

Definition moved_pict (k : Z) (st : pict_state) : pict_state :=
  Pict (cursor st + k) (surface st) (done st).

(** The records the opcode loop skips: the four plain opcodes, a short
    comment, a long comment with its data, the header opcode with its 24
    bytes, and a clipping region with the data that its size counts beyond
    the size field. *)
Inductive marker : list byte -> Prop :=
  | marker_plain (opcode : Z) :
      opcode = 0x0000 \/ opcode = 0x0011 \/ opcode = 0x001e
      \/ opcode = 0x02ff ->
      marker (bytes_of (be_bytes U16 opcode))
  | marker_short_comment (kind : Z) :
      marker (bytes_of ([0x00; 0xa0] ++ be_bytes U16 kind))
  | marker_long_comment (kind size : Z) (data : list byte) :
      0 <= size < 65536 -> len data = size ->
      marker (bytes_of ([0x00; 0xa1] ++ be_bytes U16 kind
                        ++ be_bytes U16 size) ++ data)
  | marker_header (data : list byte) :
      len data = 24 ->
      marker (bytes_of [0x0c; 0x00] ++ data)
  | marker_clip (size : Z) (data : list byte) :
      2 <= size < 65536 -> len data = size - 2 ->
      marker (bytes_of ([0x00; 0x01] ++ be_bytes U16 size) ++ data).

(** * The plugin manager of Plugins.cpp *)

(** [struct Plugin]; a directory is taken by its path. *)
Record Plugin : Type := {
  directory : string;
  name : string;
  description : string;
  version : string;
  mmls : list string;
  hud_lua : string;
  solo_lua : string;
  required_version : string;
  enabled : bool
}.

(** Assignments to one member. *)
Definition set_name (v : string) (p : Plugin) : Plugin :=
  {| directory := directory p; name := v; description := description p;
     version := version p; mmls := mmls p; hud_lua := hud_lua p;
     solo_lua := solo_lua p; required_version := required_version p;
     enabled := enabled p |}.

Definition set_description (v : string) (p : Plugin) : Plugin :=
  {| directory := directory p; name := name p; description := v;
     version := version p; mmls := mmls p; hud_lua := hud_lua p;
     solo_lua := solo_lua p; required_version := required_version p;
     enabled := enabled p |}.

Definition set_version (v : string) (p : Plugin) : Plugin :=
  {| directory := directory p; name := name p; description := description p;
     version := v; mmls := mmls p; hud_lua := hud_lua p;
     solo_lua := solo_lua p; required_version := required_version p;
     enabled := enabled p |}.

Definition set_mmls (v : list string) (p : Plugin) : Plugin :=
  {| directory := directory p; name := name p; description := description p;
     version := version p; mmls := v; hud_lua := hud_lua p;
     solo_lua := solo_lua p; required_version := required_version p;
     enabled := enabled p |}.

Definition set_hud_lua (v : string) (p : Plugin) : Plugin :=
  {| directory := directory p; name := name p; description := description p;
     version := version p; mmls := mmls p; hud_lua := v;
     solo_lua := solo_lua p; required_version := required_version p;
     enabled := enabled p |}.

Definition set_solo_lua (v : string) (p : Plugin) : Plugin :=
  {| directory := directory p; name := name p; description := description p;
     version := version p; mmls := mmls p; hud_lua := hud_lua p;
     solo_lua := v; required_version := required_version p;
     enabled := enabled p |}.

Definition set_required_version (v : string) (p : Plugin) : Plugin :=
  {| directory := directory p; name := name p; description := description p;
     version := version p; mmls := mmls p; hud_lua := hud_lua p;
     solo_lua := solo_lua p; required_version := v;
     enabled := enabled p |}.

Definition set_enabled (v : bool) (p : Plugin) : Plugin :=
  {| directory := directory p; name := name p; description := description p;
     version := version p; mmls := mmls p; hud_lua := hud_lua p;
     solo_lua := solo_lua p; required_version := required_version p;
     enabled := v |}.

(** [s.size () != 0] *)
Definition has_size (s : string) : bool :=
  negb (String.length s =? 0)%nat.

Section Plugins.

(** The version of the program, a string constant of alephversion.h, and
    [StringsEqual], the comparison of tags of the XML parser; neither is
    part of the sources at hand. *)
Variable A1_DATE_VERSION : string.
Variable StringsEqual : string -> string -> bool.

(** [Plugin::compatible]: strings compare as [std::string] does, byte by
    byte. *)
Definition compatible (p : Plugin) : bool :=
  (String.length (required_version p) =? 0)%nat
  || negb (String.ltb A1_DATE_VERSION (required_version p)).

(** [Plugins::disable (path)] on [m_plugins]. *)
Fixpoint disable (path : string) (m_plugins : list Plugin) : list Plugin :=
  match m_plugins with
  | [] => []
  | p :: rest =>
      if String.eqb (directory p) path then set_enabled false p :: rest
      else p :: disable path rest
  end.

(** [Plugins::find_hud_lua] and [Plugins::find_solo_lua]: the plugins from
    the last to the first; [None] is the null pointer. *)
Definition find_hud_lua (m_plugins : list Plugin) : option Plugin :=
  List.find (fun p => enabled p && has_size (hud_lua p) && compatible p)
    (rev m_plugins).

Definition find_solo_lua (m_plugins : list Plugin) : option Plugin :=
  List.find (fun p => enabled p && has_size (solo_lua p) && compatible p)
    (rev m_plugins).

(** [load_mmls (plugin, loader)]: the files the loader is given to parse,
    each with the directory that is the search path while it is parsed. *)
Definition load_mmls (plugin : Plugin) : list (string * string) :=
  map (fun file => (directory plugin, file)) (mmls plugin).

(** [Plugins::load_mml]; [use_hud_lua] is the preference of that name. *)
Definition load_mml (use_hud_lua : bool) (m_plugins : list Plugin)
    : list (string * string) :=
  flat_map
    (fun p =>
       if enabled p && negb (has_size (hud_lua p))
          && negb (has_size (solo_lua p)) && compatible p
       then load_mmls p else [])
    m_plugins
  ++ (if negb use_hud_lua then
        match find_hud_lua m_plugins with
        | Some hud_lua_plugin => load_mmls hud_lua_plugin
        | None => []
        end
      else []).

(** [Plugins::load_solo_mml] *)
Definition load_solo_mml (use_solo_lua : bool) (m_plugins : list Plugin)
    : list (string * string) :=
  if negb use_solo_lua then
    match find_solo_lua m_plugins with
    | Some solo_lua_plugin => load_mmls solo_lua_plugin
    | None => []
    end
  else [].

(** The handlers of the two element parsers on the static [Data]; [None]
    is an unrecognised tag, for which the handler returns [false]. *)
Definition XML_PluginMMLParser_HandleAttribute (Tag Value : string)
    (Data : Plugin) : option Plugin :=
  if StringsEqual Tag "file" then Some (set_mmls (mmls Data ++ [Value]) Data)
  else None.

Definition XML_PluginParser_Start (current_plugin_directory : string)
    : Plugin :=
  {| directory := current_plugin_directory; name := ""; description := "";
     version := ""; mmls := []; hud_lua := ""; solo_lua := "";
     required_version := ""; enabled := true |}.

Definition XML_PluginParser_HandleAttribute (Tag Value : string)
    (Data : Plugin) : option Plugin :=
  if StringsEqual Tag "name" then Some (set_name Value Data)
  else if StringsEqual Tag "version" then Some (set_version Value Data)
  else if StringsEqual Tag "description" then
    Some (set_description Value Data)
  else if StringsEqual Tag "minimum_version" then
    Some (set_required_version Value Data)
  else if StringsEqual Tag "hud_lua" then Some (set_hud_lua Value Data)
  else if StringsEqual Tag "solo_lua" then Some (set_solo_lua Value Data)
  else None.

Definition XML_PluginParser_AttributesDone (Data : Plugin) : bool :=
  negb (String.eqb (name Data) "").

(** [XML_PluginParser::End]: [std::sort] on the files, then
    [Plugins::add]; the new [Data] and the new [m_plugins]. *)
Definition XML_PluginParser_End (Data : Plugin) (m_plugins : list Plugin)
    : Plugin * list Plugin :=
  let Data := set_mmls (merge_sort String.le (mmls Data)) Data in
  (Data, m_plugins ++ [Data]).

End Plugins.

(** The values of [Data] while the element of a plugin in the directory
    [dir] is parsed: what [Start] makes of it, and what the attributes of
    the element and of its mml elements make of that, one handler call after
    the other. *)
Inductive parsing (StringsEqual : string -> string -> bool) (dir : string)
    : Plugin -> Prop :=
  | parsing_Start : parsing StringsEqual dir (XML_PluginParser_Start dir)
  | parsing_attribute (Tag Value : string) (Data Data' : Plugin) :
      parsing StringsEqual dir Data ->
      XML_PluginParser_HandleAttribute StringsEqual Tag Value Data
      = Some Data' ->
      parsing StringsEqual dir Data'
  | parsing_mml (Tag Value : string) (Data Data' : Plugin) :
      parsing StringsEqual dir Data ->
      XML_PluginMMLParser_HandleAttribute StringsEqual Tag Value Data
      = Some Data' ->
      parsing StringsEqual dir Data'.

(** Two plugins in directories of their own, each with one file. *)
Definition plugin_a : Plugin :=
  {| directory := "Plugins/a"; name := "a"; description := "";
     version := "1"; mmls := ["a.mml"]; hud_lua := ""; solo_lua := "";
     required_version := ""; enabled := true |}.

Definition plugin_b : Plugin :=
  {| directory := "Plugins/b"; name := "b"; description := "";
     version := "1"; mmls := ["b.mml"]; hud_lua := ""; solo_lua := "";
     required_version := "20091001"; enabled := true |}.

(** ** Pixel data that is cut short *)

(** The packed scan line that starts at offset [s] is cut short: its count
    prefix cannot be read, or declares more bytes than the resource has
    after it. *)
Definition line_truncated (buf : list byte) (s row_bytes : Z) : Prop :=
  match read_count buf s row_bytes with
  | Ok (count, s') => len buf < s' + count
  | _ => True
  end.

(** [line_start le T buf row_bytes k s sk]: of the packed scan lines stored
    from offset [s] on, the first [k] unpack, each from where the source
    pointer of the one before it stopped, and the line after them starts at
    [sk]. *)
Inductive line_start (le : bool) (T : elt) (buf : list byte)
    (row_bytes : Z) : nat -> Z -> Z -> Prop :=
  | first_line (s : Z) : line_start le T buf row_bytes 0 s s
  | next_line (k : nat) (s d : Z) (m : list byte) (st : ub_state) (sk : Z) :
      unpack_bits le T buf s row_bytes d m = Ok st ->
      line_start le T buf row_bytes k (src st) sk ->
      line_start le T buf row_bytes (S k) s sk.

(** The pixel data at offset [s] is cut short: on the paths that copy, the
    resource has fewer bytes left than are copied; on the run-length paths,
    one of the [height] scan lines is cut short (the planar path reads only
    when its line buffer was allocated); the path of the diagnostic reads
    nothing. *)
Definition pixel_data_truncated (host : Host) (buf : list byte)
    (s row_bytes depth height pack_type : Z) : Prop :=
  let cut T :=
    exists k sk,
      (k < Z.to_nat height)%nat
      /\ line_start (LITTLE_ENDIAN host) T buf row_bytes k s sk
      /\ line_truncated buf sk row_bytes in
  match dispatch row_bytes depth pack_type height with
  | CopyVerbatim n | CopySwapped n _ => len buf < s + n
  | RunLength8 => cut U8
  | RunLength16 => cut U16
  | RunLength32 => malloc host row_bytes <> None /\ cut U8
  | UnsupportedPacking _ => False
  end.

(** [reaches host buf st st']: the opcode loop started in [st] comes to
    [st'] with [done] still unset, every iteration on the way having
    returned. *)
Inductive reaches (host : Host) (buf : list byte)
    : pict_state -> pict_state -> Prop :=
  | reaches_here (st : pict_state) :
      done st = false -> reaches host buf st st
  | reaches_step (st st1 st2 : pict_state) :
      done st = false -> opcode_step host buf st = Ok st1 ->
      reaches host buf st1 st2 -> reaches host buf st st2.

(** * Properties *)

(** ** Bytes *)

Lemma Z_of_byte_range (b : byte) : 0 <= Z_of_byte b < 256.
Proof.
  unfold Z_of_byte. pose proof (Byte.to_N_bounded b) as Hb. lia.
Qed.

Lemma Z_of_byte_of_Z (z : Z) : Z_of_byte (byte_of_Z z) = z mod 256.
Proof.
  unfold byte_of_Z, Z_of_byte.
  pose proof (Z.mod_pos_bound z 256 ltac:(lia)) as Hz.
  destruct (Byte.of_N (Z.to_N (z mod 256))) as [b|] eqn:E.
  - apply Byte.to_of_N in E. rewrite E. lia.
  - apply Byte.of_N_None_iff in E. lia.
Qed.

Lemma int8_range (b : byte) : -128 <= int8 (Z_of_byte b) < 128.
Proof.
  pose proof (Z_of_byte_range b). unfold int8.
  destruct (128 <=? Z_of_byte b) eqn:E; lia.
Qed.

Lemma land_high_low (b0 b1 : Z) :
  0 <= b1 < 256 -> Z.land (b0 * 256) b1 = 0.
Proof.
  intros H1. apply Z.bits_inj'. intros n Hn.
  rewrite Z.land_spec, Z.bits_0.
  destruct (Z.ltb_spec n 8).
  - replace (b0 * 256) with (b0 * 2 ^ 8) by lia.
    rewrite Z.mul_pow2_bits_low by lia. reflexivity.
  - replace (Z.testbit b1 n) with false; [apply andb_false_r|].
    symmetry. apply Z.bits_above_log2; [lia|].
    destruct (Z.eq_dec b1 0) as [->|]; [simpl; lia|].
    apply Z.log2_lt_pow2; [lia|].
    apply Z.lt_le_trans with (2 ^ 8); [simpl; lia|].
    apply Z.pow_le_mono_r; lia.
Qed.

(** [(src[0] << 8) | src[1]] is the big-endian value of the two bytes. *)
Lemma be16_assemble (b0 b1 : Z) :
  0 <= b0 < 256 -> 0 <= b1 < 256 ->
  Z.lor (Z.shiftl b0 8) b1 = b0 * 256 + b1.
Proof.
  intros H0 H1.
  rewrite Z.shiftl_mul_pow2 by lia.
  change (2 ^ 8) with 256.
  pose proof (land_high_low b0 b1 H1) as Hland.
  rewrite <- Z.lxor_lor by exact Hland.
  symmetry. apply Z.add_nocarry_lxor, Hland.
Qed.

Lemma uint16_small (z : Z) : 0 <= z < 65536 -> uint16 z = z.
Proof.
  intros Hz. unfold uint16. change 65535 with (Z.ones 16).
  rewrite Z.land_ones by lia. apply Z.mod_small. simpl. lia.
Qed.

(** ** Memory *)

Lemma len_app (a b : list byte) : len (a ++ b) = len a + len b.
Proof. unfold len. rewrite length_app. lia. Qed.

Lemma peek_lookup (buf : list byte) (i : Z) (b : byte) :
  0 <= i -> buf !! Z.to_nat i = Some b -> peek buf i = Ok (Z_of_byte b).
Proof.
  intros Hi Hb. unfold peek.
  assert (i < len buf).
  { apply lookup_lt_Some in Hb. unfold len. lia. }
  replace (0 <=? i) with true by (symmetry; apply Z.leb_le; lia).
  replace (i <? len buf) with true by (symmetry; apply Z.ltb_lt; lia).
  simpl. rewrite Hb. reflexivity.
Qed.

Lemma peek_overrun (buf : list byte) (i : Z) :
  i < 0 \/ len buf <= i -> peek buf i = Undefined (SrcOverrun i).
Proof.
  intros Hi. unfold peek.
  destruct (Z.leb_spec 0 i), (Z.ltb_spec i (len buf)); simpl; try reflexivity.
  lia.
Qed.

(** A read either is inside the buffer or is reported at its offset. *)
Lemma peek_cases (buf : list byte) (i : Z) :
  (exists b, 0 <= i < len buf /\ buf !! Z.to_nat i = Some b
             /\ peek buf i = Ok (Z_of_byte b))
  \/ ((i < 0 \/ len buf <= i) /\ peek buf i = Undefined (SrcOverrun i)).
Proof.
  destruct (Z.ltb_spec i 0).
  { right. split; [lia|]. apply peek_overrun. lia. }
  destruct (Z.leb_spec (len buf) i).
  { right. split; [lia|]. apply peek_overrun. lia. }
  left. destruct (lookup_lt_is_Some_2 buf (Z.to_nat i)) as [b Hb].
  { unfold len in *. lia. }
  exists b. split; [lia|]. split; [exact Hb|]. apply peek_lookup; [lia|exact Hb].
Qed.

Lemma poke_inside (m : list byte) (i b : Z) :
  0 <= i < len m -> poke m i b = Ok (<[Z.to_nat i := byte_of_Z b]> m).
Proof.
  intros Hi. unfold poke.
  replace (0 <=? i) with true by (symmetry; apply Z.leb_le; lia).
  replace (i <? len m) with true by (symmetry; apply Z.ltb_lt; lia).
  reflexivity.
Qed.

Lemma splice_length (m : list byte) (i : Z) (bs : list byte) :
  0 <= i -> i + len bs <= len m -> len (splice m i bs) = len m.
Proof.
  unfold splice, len. intros Hi Hb.
  rewrite !length_app, length_take, length_drop. lia.
Qed.

Lemma splice_nil (m : list byte) (i : Z) : splice m i [] = m.
Proof.
  unfold splice. simpl. rewrite Nat.add_0_r. apply take_drop.
Qed.

Lemma splice_cons (m : list byte) (i : Z) (x : byte) (bs : list byte) :
  0 <= i < len m ->
  splice (<[Z.to_nat i := x]> m) (i + 1) bs = splice m i (x :: bs).
Proof.
  unfold splice, len. intros Hi.
  replace (Z.to_nat (i + 1)) with (S (Z.to_nat i)) by lia.
  rewrite (take_S_r _ _ x) by (apply list_lookup_insert_eq; lia).
  rewrite take_insert_ge by lia.
  rewrite drop_insert_lt by lia.
  rewrite <- app_assoc. simpl.
  rewrite Nat.add_succ_r. reflexivity.
Qed.

Lemma splice_app (m : list byte) (i : Z) (a b : list byte) :
  0 <= i -> i + len a <= len m ->
  splice (splice m i a) (i + len a) b = splice m i (a ++ b).
Proof.
  unfold splice, len. intros Hi Ha.
  replace (Z.to_nat (i + Z.of_nat (length a)))
    with (length (take (Z.to_nat i) m ++ a)).
  2: { rewrite length_app, length_take. lia. }
  rewrite (app_assoc (take _ m) a).
  rewrite take_app_length.
  rewrite drop_app_add.
  rewrite drop_drop.
  rewrite length_app, <- !app_assoc.
  rewrite Nat.add_assoc. reflexivity.
Qed.

Lemma poke_bytes_splice (bs : list Z) (m : list byte) (i : Z) :
  0 <= i -> i + Z.of_nat (length bs) <= len m ->
  poke_bytes m i bs = Ok (splice m i (bytes_of bs)).
Proof.
  revert m i. induction bs as [|b bs IH]; intros m i Hi Hb; simpl.
  - rewrite splice_nil. reflexivity.
  - simpl in Hb. rewrite poke_inside by lia. simpl.
    rewrite IH.
    + rewrite splice_cons by lia. reflexivity.
    + lia.
    + unfold len in *. rewrite length_insert. lia.
Qed.

(** A store either succeeds or is reported as an overrun of the destination. *)
Lemma poke_bytes_cases (bs : list Z) (m : list byte) (i : Z) :
  (exists m', poke_bytes m i bs = Ok m' /\ len m' = len m)
  \/ (exists off, poke_bytes m i bs = Undefined (DstOverrun off)).
Proof.
  revert m i. induction bs as [|b bs IH]; intros m i; simpl.
  - left. eauto.
  - unfold poke.
    destruct ((0 <=? i) && (i <? len m)); simpl; [|right; eauto].
    destruct (IH (<[Z.to_nat i := byte_of_Z b]> m) (i + 1))
      as [(m' & -> & Hl)|(off & ->)]; [left|right; eauto].
    exists m'. split; [reflexivity|].
    rewrite Hl. unfold len. rewrite length_insert. reflexivity.
Qed.

(** ** Elements and their bytes *)

Lemma sizeof_cases (T : elt) : sizeof T = 1 \/ sizeof T = 2.
Proof. destruct T; simpl; lia. Qed.

Lemma elt_bytes_length (le : bool) (T : elt) (v : Z) :
  Z.of_nat (length (elt_bytes le T v)) = sizeof T.
Proof. destruct T, le; reflexivity. Qed.

Lemma bytes_of_app (a b : list Z) : bytes_of (a ++ b) = bytes_of a ++ bytes_of b.
Proof. apply map_app. Qed.

Lemma bytes_of_length (a : list Z) : length (bytes_of a) = length a.
Proof. apply length_map. Qed.

Lemma host_bytes_nil (le : bool) (T : elt) : host_bytes le T [] = [].
Proof. reflexivity. Qed.

Lemma host_bytes_cons (le : bool) (T : elt) (v : Z) (vs : list Z) :
  host_bytes le T (v :: vs) = bytes_of (elt_bytes le T v) ++ host_bytes le T vs.
Proof. unfold host_bytes. simpl. apply bytes_of_app. Qed.

Lemma host_bytes_app (le : bool) (T : elt) (a b : list Z) :
  host_bytes le T (a ++ b) = host_bytes le T a ++ host_bytes le T b.
Proof.
  unfold host_bytes. rewrite flat_map_app. apply bytes_of_app.
Qed.

Lemma host_bytes_length (le : bool) (T : elt) (vs : list Z) :
  len (host_bytes le T vs) = sizeof T * Z.of_nat (length vs).
Proof.
  induction vs as [|v vs IH]; [unfold len; simpl; lia|].
  rewrite host_bytes_cons, len_app, IH. unfold len at 1.
  rewrite bytes_of_length, elt_bytes_length. simpl length. lia.
Qed.

(** ** The runs of [unpack_bits] *)

Section UnpackBitsFacts.

Variable le : bool.
Variable buf : list byte.

Lemma elt_at_range (T : elt) (i v : Z) :
  elt_at T buf i = Some v -> 0 <= v < 256 ^ sizeof T.
Proof.
  unfold elt_at. destruct T; simpl.
  - destruct (buf !! Z.to_nat i) as [b|]; simpl; [|discriminate].
    intros [= <-]. pose proof (Z_of_byte_range b). lia.
  - destruct (buf !! Z.to_nat i) as [b0|]; simpl; [|discriminate].
    destruct (buf !! Z.to_nat (i + 1)) as [b1|]; simpl; [|discriminate].
    intros [= <-].
    pose proof (Z_of_byte_range b0). pose proof (Z_of_byte_range b1). lia.
Qed.

Lemma read_T_elt (T : elt) (st : ub_state) (v : Z) :
  0 <= src st -> elt_at T buf (src st) = Some v ->
  read_T T buf st
  = Ok (v, UB (src st + sizeof T) (src_count st - sizeof T) (dst st) (mem st)).
Proof.
  unfold elt_at, read_T. intros Hs. destruct T; simpl.
  - destruct (buf !! Z.to_nat (src st)) as [b|] eqn:E; simpl; [|discriminate].
    intros [= <-]. rewrite (peek_lookup _ _ b) by assumption. reflexivity.
  - destruct (buf !! Z.to_nat (src st)) as [b0|] eqn:E0; simpl; [|discriminate].
    destruct (buf !! Z.to_nat (src st + 1)) as [b1|] eqn:E1; simpl;
      [|discriminate].
    intros [= <-].
    rewrite (peek_lookup buf (src st) b0) by assumption. simpl.
    rewrite (peek_lookup buf (src st + 1) b1) by (lia || assumption). simpl.
    pose proof (Z_of_byte_range b0). pose proof (Z_of_byte_range b1).
    rewrite be16_assemble by lia. rewrite uint16_small by lia. reflexivity.
Qed.

(** Reading one element either finds it inside the buffer or runs off the
    end of the buffer. *)
Lemma read_T_cases (T : elt) (st : ub_state) :
  0 <= src st <= len buf ->
  (exists v, elt_at T buf (src st) = Some v
             /\ src st + sizeof T <= len buf
             /\ read_T T buf st
                = Ok (v, UB (src st + sizeof T) (src_count st - sizeof T)
                           (dst st) (mem st)))
  \/ read_T T buf st = Undefined (SrcOverrun (len buf)).
Proof.
  intros Hs.
  destruct (peek_cases buf (src st)) as [(b0 & Hb0 & Hl0 & Hp0)|[Ho Hp]].
  2: { right. unfold read_T. replace (len buf) with (src st) by lia.
       destruct T; rewrite Hp; reflexivity. }
  destruct T.
  - left. exists (Z_of_byte b0).
    assert (E : elt_at U8 buf (src st) = Some (Z_of_byte b0)).
    { unfold elt_at. rewrite Hl0. reflexivity. }
    split; [exact E|]. split; [simpl; lia|].
    apply read_T_elt; [lia|exact E].
  - destruct (peek_cases buf (src st + 1)) as [(b1 & Hb1 & Hl1 & Hp1)|[Ho Hp]].
    + left. exists (Z_of_byte b0 * 256 + Z_of_byte b1).
      assert (E : elt_at U16 buf (src st)
                  = Some (Z_of_byte b0 * 256 + Z_of_byte b1)).
      { unfold elt_at. rewrite Hl0. simpl. rewrite Hl1. reflexivity. }
      split; [exact E|]. split; [simpl; lia|].
      apply read_T_elt; [lia|exact E].
    + right. unfold read_T. rewrite Hp0. simpl. rewrite Hp.
      simpl. do 2 f_equal. lia.
Qed.

Lemma write_T_room (T : elt) (st : ub_state) (v : Z) :
  0 <= dst st -> dst st + sizeof T <= len (mem st) ->
  write_T le T st v
  = Ok (UB (src st) (src_count st) (dst st + sizeof T)
          (splice (mem st) (dst st) (host_bytes le T [v]))).
Proof.
  intros Hd Hr. unfold write_T.
  rewrite poke_bytes_splice; [|lia|rewrite elt_bytes_length; lia].
  simpl. rewrite host_bytes_cons, host_bytes_nil, app_nil_r. reflexivity.
Qed.

Lemma write_T_cases (T : elt) (st : ub_state) (v : Z) :
  (exists m', write_T le T st v
              = Ok (UB (src st) (src_count st) (dst st + sizeof T) m')
              /\ len m' = len (mem st))
  \/ exists off, write_T le T st v = Undefined (DstOverrun off).
Proof.
  unfold write_T.
  destruct (poke_bytes_cases (elt_bytes le T v) (mem st) (dst st))
    as [(m' & -> & Hl)|(off & ->)]; [left|right]; simpl; eauto.
Qed.

Lemma fill_run_room (T : elt) (n : nat) (v : Z) (st : ub_state) :
  0 <= dst st -> dst st + sizeof T * Z.of_nat n <= len (mem st) ->
  fill_run le T n v st
  = Ok (UB (src st) (src_count st) (dst st + sizeof T * Z.of_nat n)
          (splice (mem st) (dst st) (host_bytes le T (replicate n v)))).
Proof.
  revert st. induction n as [|n IH]; intros st Hd Hr.
  - simpl. rewrite splice_nil, Z.mul_0_r, Z.add_0_r. destruct st; reflexivity.
  - pose proof (sizeof_cases T) as Hw.
    cbn [fill_run]. rewrite write_T_room by lia. simpl.
    rewrite IH; simpl.
    + assert (Hl : len (host_bytes le T [v]) = sizeof T)
        by (rewrite host_bytes_length; simpl; lia).
      f_equal. f_equal; [lia|].
      rewrite <- Hl.
      rewrite splice_app by lia.
      rewrite <- host_bytes_app. reflexivity.
    + lia.
    + rewrite splice_length; [lia|lia|].
      rewrite host_bytes_length. simpl. lia.
Qed.

Lemma fill_run_cases (T : elt) (n : nat) (v : Z) (st : ub_state) :
  (exists m', fill_run le T n v st
              = Ok (UB (src st) (src_count st)
                      (dst st + sizeof T * Z.of_nat n) m')
              /\ len m' = len (mem st))
  \/ exists off, fill_run le T n v st = Undefined (DstOverrun off).
Proof.
  revert st. induction n as [|n IH]; intros st.
  - left. exists (mem st). simpl. rewrite Z.mul_0_r, Z.add_0_r.
    destruct st; auto.
  - cbn [fill_run].
    destruct (write_T_cases T st v) as [(m1 & -> & Hl1)|(off & ->)];
      [|right; simpl; eauto].
    simpl.
    destruct (IH (UB (src st) (src_count st) (dst st + sizeof T) m1))
      as [(m2 & -> & Hl2)|(off & ->)]; [left|right; eauto].
    simpl in *. exists m2. split; [|congruence].
    do 2 f_equal. lia.
Qed.

Lemma copy_run_room (T : elt) (n : nat) (st : ub_state) (vs : list Z) :
  0 <= src st -> elts_at T buf (src st) n = Some vs ->
  0 <= dst st -> dst st + sizeof T * Z.of_nat n <= len (mem st) ->
  copy_run le T buf n st
  = Ok (UB (src st + sizeof T * Z.of_nat n)
          (src_count st - sizeof T * Z.of_nat n)
          (dst st + sizeof T * Z.of_nat n)
          (splice (mem st) (dst st) (host_bytes le T vs))).
Proof.
  revert st vs. induction n as [|n IH]; intros st vs Hs He Hd Hr.
  - simpl in He. injection He as <-. simpl.
    rewrite splice_nil, Z.mul_0_r, !Z.add_0_r, Z.sub_0_r.
    destruct st; reflexivity.
  - pose proof (sizeof_cases T) as Hw.
    simpl in He.
    destruct (elt_at T buf (src st)) as [v|] eqn:Ev; [|discriminate].
    simpl in He.
    destruct (elts_at T buf (src st + sizeof T) n) as [vs'|] eqn:Evs;
      [|discriminate].
    simpl in He. injection He as <-.
    cbn [copy_run]. rewrite (read_T_elt T st v) by assumption. simpl.
    rewrite write_T_room by (simpl; lia). simpl.
    assert (Hl : len (host_bytes le T [v]) = sizeof T)
      by (rewrite host_bytes_length; simpl; lia).
    rewrite (IH _ vs'); simpl; try lia; try assumption.
    + f_equal. f_equal; [lia|lia|lia|].
      rewrite <- Hl. rewrite splice_app by lia.
      rewrite <- host_bytes_app. reflexivity.
    + rewrite splice_length; lia.
Qed.

Lemma copy_run_cases (T : elt) (n : nat) (st : ub_state) :
  0 <= src st <= len buf ->
  (exists vs m', elts_at T buf (src st) n = Some vs
                 /\ src st + sizeof T * Z.of_nat n <= len buf
                 /\ copy_run le T buf n st
                    = Ok (UB (src st + sizeof T * Z.of_nat n)
                            (src_count st - sizeof T * Z.of_nat n)
                            (dst st + sizeof T * Z.of_nat n) m')
                 /\ len m' = len (mem st))
  \/ overrun buf (copy_run le T buf n st).
Proof.
  revert st. induction n as [|n IH]; intros st Hs.
  - left. exists [], (mem st). simpl.
    rewrite Z.mul_0_r, !Z.add_0_r, Z.sub_0_r.
    destruct st; simpl in *; repeat split; auto; lia.
  - pose proof (sizeof_cases T) as Hw.
    cbn [copy_run].
    destruct (read_T_cases T st Hs) as [(v & Ev & Hb & ->)| ->];
      [|right; left; reflexivity].
    simpl.
    destruct (write_T_cases T
                (UB (src st + sizeof T) (src_count st - sizeof T)
                   (dst st) (mem st)) v)
      as [(m1 & -> & Hl1)|(off & ->)]; [|right; right; simpl; eauto].
    simpl in *.
    destruct (IH (UB (src st + sizeof T) (src_count st - sizeof T)
                    (dst st + sizeof T) m1))
      as [(vs & m2 & Evs & Hb2 & -> & Hl2)|Ho]; [simpl; lia| |right; exact Ho].
    simpl in *. left. exists (v :: vs), m2.
    rewrite Ev. simpl. rewrite Evs. simpl.
    split; [reflexivity|]. split; [lia|]. split; [|congruence].
    do 2 f_equal; lia.
Qed.

(** One iteration of the loop: the control byte and the data of its run
    are taken off [src_count] as they are taken from [src]. *)
Lemma unpack_step_cases (T : elt) (st : ub_state) :
  0 <= src st <= len buf ->
  (exists st', unpack_step le T buf st = Ok st'
               /\ src st' + src_count st' = src st + src_count st
               /\ src_count st' <= src_count st - 1 - sizeof T
               /\ 0 <= src st' <= len buf
               /\ len (mem st') = len (mem st))
  \/ overrun buf (unpack_step le T buf st).
Proof.
  intros Hs. pose proof (sizeof_cases T) as Hw. unfold unpack_step.
  destruct (peek_cases buf (src st)) as [(b & Hb & Hl & ->)|[Ho ->]].
  2: { right. left. simpl. do 2 f_equal. lia. }
  simpl. pose proof (int8_range b) as Hc.
  set (c := int8 (Z_of_byte b)) in *.
  set (st1 := UB (src st + 1) (src_count st - 1) (dst st) (mem st)).
  destruct (Z.ltb_spec c 0) as [Hneg|Hpos].
  - destruct (read_T_cases T st1) as [(v & Ev & Hb1 & ->)| ->];
      [simpl; lia| |right; left; reflexivity].
    simpl.
    destruct (fill_run_cases T (Z.to_nat (- c + 1)) v
                (UB (src st + 1 + sizeof T) (src_count st - 1 - sizeof T)
                   (dst st) (mem st)))
      as [(m' & -> & Hl')|(off & ->)]; [left|right; right; eauto].
    simpl in *. eexists. split; [reflexivity|]. simpl. lia.
  - destruct (copy_run_cases T (Z.to_nat (c + 1)) st1)
      as [(vs & m' & Evs & Hb1 & -> & Hl')|Ho]; [simpl; lia| |right; exact Ho].
    left. simpl in *. eexists. split; [reflexivity|]. simpl. nia.
Qed.

(** The loop of [unpack_bits] ends within [src_count] iterations, with
    nothing left to read, unless an access leaves its object. *)
Lemma unpack_loop_cases (T : elt) (fuel : nat) (st : ub_state) :
  0 <= src st <= len buf ->
  (Z.to_nat (src_count st) <= fuel)%nat ->
  (exists st', unpack_loop le T buf fuel st = Ok st'
               /\ src_count st' <= 0
               /\ src st' + src_count st' = src st + src_count st
               /\ 0 <= src st' <= len buf
               /\ len (mem st') = len (mem st))
  \/ overrun buf (unpack_loop le T buf fuel st).
Proof.
  revert st. induction fuel as [|fuel IH]; intros st Hs Hf.
  - left. exists st. simpl.
    destruct (Z.ltb_spec 0 (src_count st)); [lia|]. auto with lia.
  - cbn [unpack_loop].
    destruct (Z.ltb_spec 0 (src_count st)) as [Hpos|Hle].
    2: { left. exists st. auto with lia. }
    pose proof (sizeof_cases T) as Hw.
    destruct (unpack_step_cases T st Hs)
      as [(st1 & -> & Hsum & Hdec & Hs1 & Hl1)|[-> | (off & ->)]];
      [|right; left; reflexivity|right; right; eauto].
    simpl.
    destruct (IH st1 Hs1) as [(st2 & -> & ? & ? & ? & ?)|Ho];
      [lia| |right; exact Ho].
    left. exists st2. repeat split; lia || congruence.
Qed.

Lemma unpack_step_repeat (T : elt) (st : ub_state) (b : byte) (v : Z) :
  0 <= src st ->
  buf !! Z.to_nat (src st) = Some b ->
  int8 (Z_of_byte b) < 0 ->
  elt_at T buf (src st + 1) = Some v ->
  0 <= dst st ->
  dst st + sizeof T * (- int8 (Z_of_byte b) + 1) <= len (mem st) ->
  unpack_step le T buf st
  = Ok (UB (src st + (1 + sizeof T)) (src_count st - (1 + sizeof T))
          (dst st + sizeof T * (- int8 (Z_of_byte b) + 1))
          (splice (mem st) (dst st)
             (host_bytes le T
                (replicate (Z.to_nat (- int8 (Z_of_byte b) + 1)) v)))).
Proof.
  intros Hs Hb Hc Hv Hd Hr. unfold unpack_step.
  rewrite (peek_lookup buf (src st) b) by assumption. simpl.
  replace (int8 (Z_of_byte b) <? 0) with true
    by (symmetry; apply Z.ltb_lt; assumption).
  rewrite (read_T_elt T _ v) by (simpl; lia || assumption). simpl.
  rewrite fill_run_room by (simpl; lia). simpl.
  f_equal. f_equal; lia.
Qed.

Lemma unpack_step_literal (T : elt) (st : ub_state) (b : byte)
    (vs : list Z) :
  0 <= src st ->
  buf !! Z.to_nat (src st) = Some b ->
  0 <= int8 (Z_of_byte b) ->
  elts_at T buf (src st + 1) (Z.to_nat (int8 (Z_of_byte b) + 1)) = Some vs ->
  0 <= dst st ->
  dst st + sizeof T * (int8 (Z_of_byte b) + 1) <= len (mem st) ->
  unpack_step le T buf st
  = Ok (UB (src st + (1 + sizeof T * (int8 (Z_of_byte b) + 1)))
          (src_count st - (1 + sizeof T * (int8 (Z_of_byte b) + 1)))
          (dst st + sizeof T * (int8 (Z_of_byte b) + 1))
          (splice (mem st) (dst st) (host_bytes le T vs))).
Proof.
  intros Hs Hb Hc Hv Hd Hr. unfold unpack_step.
  rewrite (peek_lookup buf (src st) b) by assumption. simpl.
  replace (int8 (Z_of_byte b) <? 0) with false
    by (symmetry; apply Z.ltb_ge; assumption).
  rewrite (copy_run_room T _ _ vs) by (simpl; lia || assumption). simpl.
  f_equal. f_equal; lia.
Qed.

Lemma elts_at_length (T : elt) (i : Z) (n : nat) (vs : list Z) :
  elts_at T buf i n = Some vs -> length vs = n.
Proof.
  revert i vs. induction n as [|n IH]; intros i vs; simpl.
  - intros [= <-]. reflexivity.
  - destruct (elt_at T buf i); simpl; [|discriminate].
    destruct (elts_at T buf (i + sizeof T) n) eqn:E; simpl; [|discriminate].
    intros [= <-]. simpl. f_equal. eapply IH, E.
Qed.

Lemma unpack_step_decreases (T : elt) (st st' : ub_state) :
  unpack_step le T buf st = Ok st' ->
  src_count st' <= src_count st - 1 - sizeof T.
Proof.
  intros Hstep.
  destruct (peek_cases buf (src st)) as [(b & Hb & _)|[_ Hp]].
  - destruct (unpack_step_cases T st) as [(st1 & E & _ & Hd & _)|[E|(off & E)]];
      [lia| |congruence|congruence].
    congruence.
  - unfold unpack_step in Hstep. rewrite Hp in Hstep. discriminate.
Qed.

Lemma unpack_loop_fuel (T : elt) (fuel : nat) (st : ub_state) :
  (Z.to_nat (src_count st) <= fuel)%nat ->
  unpack_loop le T buf fuel st <> OutOfFuel.
Proof.
  revert st. induction fuel as [|fuel IH]; intros st Hf; cbn [unpack_loop].
  - destruct (Z.ltb_spec 0 (src_count st)); [lia|discriminate].
  - destruct (Z.ltb_spec 0 (src_count st)); [|discriminate].
    destruct (unpack_step le T buf st) as [st'| | |] eqn:E; simpl;
      try discriminate.
    + pose proof (unpack_step_decreases T st st' E).
      pose proof (sizeof_cases T). apply IH. lia.
    + pose proof (peek_cases buf (src st)) as Hp.
      destruct (unpack_step_cases T st) as [(? & ? & _)|[?|(? & ?)]];
        try congruence.
      destruct Hp as [(b & Hb & _)|[_ Hp]]; [lia|].
      unfold unpack_step in E. rewrite Hp in E. discriminate.
Qed.

Lemma unpack_loop_exit (T : elt) (fuel : nat) (st st' : ub_state) :
  unpack_loop le T buf fuel st = Ok st' -> src_count st' <= 0.
Proof.
  revert st. induction fuel as [|fuel IH]; intros st; cbn [unpack_loop].
  - destruct (Z.ltb_spec 0 (src_count st)); [discriminate|].
    intros [= <-]. assumption.
  - destruct (Z.ltb_spec 0 (src_count st)).
    + destruct (unpack_step le T buf st) as [st1| | |]; simpl;
        try discriminate.
      apply IH.
    + intros [= <-]. assumption.
Qed.

End UnpackBitsFacts.

(** ** The scan-line unpacker: runs, termination, truncated input *)

Lemma read_count_inside (buf : list byte) (s row_bytes count s' : Z) :
  0 <= s -> read_count buf s row_bytes = Ok (count, s') ->
  0 <= s' <= len buf /\ 0 <= count.
Proof.
  intros Hs. unfold read_count.
  destruct (250 <? row_bytes).
  - destruct (peek_cases buf s) as [(b0 & H0 & _ & ->)|[_ ->]];
      [|discriminate].
    simpl.
    destruct (peek_cases buf (s + 1)) as [(b1 & H1 & _ & ->)|[_ ->]];
      [|discriminate].
    simpl. intros [= <- <-].
    pose proof (Z_of_byte_range b0). pose proof (Z_of_byte_range b1).
    rewrite be16_assemble by lia. lia.
  - destruct (peek_cases buf s) as [(b0 & H0 & _ & ->)|[_ ->]];
      [|discriminate].
    simpl. intros [= <- <-]. pose proof (Z_of_byte_range b0). lia.
Qed.

Lemma read_count_cases (buf : list byte) (s row_bytes : Z) :
  (exists count s', read_count buf s row_bytes = Ok (count, s'))
  \/ exists off, read_count buf s row_bytes = Undefined (SrcOverrun off).
Proof.
  unfold read_count. destruct (250 <? row_bytes).
  - destruct (peek_cases buf s) as [(b0 & _ & _ & ->)|[_ ->]];
      [|right; simpl; eauto].
    destruct (peek_cases buf (s + 1)) as [(b1 & _ & _ & ->)|[_ ->]];
      [left|right]; simpl; eauto.
  - destruct (peek_cases buf s) as [(b0 & _ & _ & ->)|[_ ->]];
      [left|right]; simpl; eauto.
Qed.

(** C5: a repeat run.  When the flag/count byte [c] read by one iteration of
    the unpacker is negative, the iteration stores exactly [-c + 1] copies of
    the one element that follows it (one byte, or two bytes assembled high
    byte first), advances the source by [1 + sizeof T] bytes and takes the
    same [1 + sizeof T] off the remaining count. *)
Theorem repeat_run (le : bool) (T : elt) (buf : list byte) (st : ub_state)
    (b : byte) (v : Z) :
  0 <= src st ->
  buf !! Z.to_nat (src st) = Some b ->
  int8 (Z_of_byte b) < 0 ->
  elt_at T buf (src st + 1) = Some v ->
  0 <= dst st ->
  dst st + sizeof T * (- int8 (Z_of_byte b) + 1) <= len (mem st) ->
  unpack_step le T buf st
  = Ok (UB (src st + (1 + sizeof T)) (src_count st - (1 + sizeof T))
          (dst st + sizeof T * (- int8 (Z_of_byte b) + 1))
          (splice (mem st) (dst st)
             (host_bytes le T
                (replicate (Z.to_nat (- int8 (Z_of_byte b) + 1)) v)))).
Proof. apply unpack_step_repeat. Qed.

Lemma repeat_run_witness :
  unpack_step false U16 (bytes_of [254; 1; 44]) (UB 0 3 0 (replicate 7 x00))
  = Ok (UB 3 0 6 (bytes_of [1; 44; 1; 44; 1; 44; 0])).
Proof.
  exact (repeat_run false U16 (bytes_of [254; 1; 44])
           (UB 0 3 0 (replicate 7 x00)) xfe 300
           ltac:(simpl; lia) eq_refl ltac:(vm_compute; reflexivity) eq_refl
           ltac:(simpl; lia) ltac:(vm_compute; discriminate)).
Defined.

(** C6: a literal run.  When the flag/count byte [c] is not negative, the
    iteration stores the [c + 1] elements that follow it, each read from the
    source in order (two bytes assembled high byte first for 16-bit
    elements), advances the source by [1 + (c + 1) * sizeof T] bytes and
    takes the same number off the remaining count. *)
Theorem literal_run (le : bool) (T : elt) (buf : list byte) (st : ub_state)
    (b : byte) (vs : list Z) :
  0 <= src st ->
  buf !! Z.to_nat (src st) = Some b ->
  0 <= int8 (Z_of_byte b) ->
  elts_at T buf (src st + 1) (Z.to_nat (int8 (Z_of_byte b) + 1)) = Some vs ->
  0 <= dst st ->
  dst st + sizeof T * (int8 (Z_of_byte b) + 1) <= len (mem st) ->
  Z.of_nat (length vs) = int8 (Z_of_byte b) + 1
  /\ unpack_step le T buf st
     = Ok (UB (src st + (1 + (int8 (Z_of_byte b) + 1) * sizeof T))
             (src_count st - (1 + (int8 (Z_of_byte b) + 1) * sizeof T))
             (dst st + sizeof T * (int8 (Z_of_byte b) + 1))
             (splice (mem st) (dst st) (host_bytes le T vs))).
Proof.
  intros Hs Hb Hc Hv Hd Hr. split.
  - apply elts_at_length in Hv. lia.
  - rewrite (unpack_step_literal le buf T st b vs) by assumption.
    f_equal. f_equal; lia.
Qed.

Lemma literal_run_witness :
  unpack_step true U16 (bytes_of [1; 1; 44; 0; 9]) (UB 0 5 0 (replicate 5 x00))
  = Ok (UB 5 0 4 (bytes_of [44; 1; 9; 0; 0])).
Proof.
  exact (proj2 (literal_run true U16 (bytes_of [1; 1; 44; 0; 9])
                  (UB 0 5 0 (replicate 5 x00)) x01 [300; 9]
                  ltac:(simpl; lia) eq_refl ltac:(vm_compute; discriminate)
                  eq_refl ltac:(simpl; lia) ltac:(vm_compute; discriminate))).
Defined.

(** C10: termination of the unpacker.  An iteration that returns has read
    its flag/count byte and so leaves a strictly smaller remaining count; the
    loop therefore needs no more iterations than the count it starts with,
    and [unpack_bits], which gives it that many, never runs out of them; the
    loop returns only with a remaining count that is no longer positive,
    zero or negative. *)
Theorem unpack_bits_terminates (le : bool) (T : elt) (buf : list byte) :
  (forall st st', unpack_step le T buf st = Ok st' ->
                  src_count st' < src_count st)
  /\ (forall st, unpack_loop le T buf (Z.to_nat (src_count st)) st <> OutOfFuel)
  /\ (forall fuel st st', unpack_loop le T buf fuel st = Ok st' ->
                          src_count st' <= 0)
  /\ (forall s row_bytes d m,
        unpack_bits le T buf s row_bytes d m <> OutOfFuel).
Proof.
  repeat split.
  - intros st st' E. apply unpack_step_decreases in E.
    pose proof (sizeof_cases T). lia.
  - intros st. apply unpack_loop_fuel. lia.
  - intros fuel st st'. apply unpack_loop_exit.
  - intros s row_bytes d m. unfold unpack_bits.
    destruct (read_count_cases buf s row_bytes) as [(count & s' & ->)|(off & ->)];
      simpl; [|discriminate].
    apply unpack_loop_fuel. simpl. lia.
Qed.

(** A literal run of three bytes under a declared count of two: the loop
    stops with the remaining count at [-2]. *)
Lemma unpack_bits_terminates_witness :
  exists st',
    unpack_loop true U8 (bytes_of [2; 7; 1; 8]) 2 (UB 0 2 0 (replicate 4 x00))
    = Ok st'
    /\ src_count st' = -2 /\ src_count st' <= 0.
Proof.
  eexists. split; [vm_compute; reflexivity|]. split; [reflexivity|].
  eapply (proj1 (proj2 (proj2
            (unpack_bits_terminates true U8 (bytes_of [2; 7; 1; 8]))))
            2%nat (UB 0 2 0 (replicate 4 x00))).
  vm_compute. reflexivity.
Defined.

(** ** The dispatch of [uncompress_picture] *)

Lemma match_depth {A} (depth : Z) (a b c : A) :
  match depth with 16 => a | 32 => b | _ => c end
  = if depth =? 16 then a else if depth =? 32 then b else c.
Proof.
  destruct depth as [|p|p]; try reflexivity.
  do 6 (try reflexivity; destruct p as [p|p|]); reflexivity.
Qed.

Lemma match_pack_type {A} (pack_type : Z) (a b c d : A) :
  match pack_type with 1 => a | 3 => b | 4 => c | _ => d end
  = if pack_type =? 1 then a
    else if pack_type =? 3 then b
    else if pack_type =? 4 then c
    else d.
Proof.
  destruct pack_type as [|p|p]; try reflexivity.
  do 4 (try reflexivity; destruct p as [p|p|]); reflexivity.
Qed.

Lemma default_pack_type (pack_type depth : Z) :
  match pack_type, depth with
  | 0, 16 => 3
  | 0, 32 => 4
  | _, _ => pack_type
  end
  = if pack_type =? 0 then
      if depth =? 16 then 3 else if depth =? 32 then 4 else pack_type
    else pack_type.
Proof.
  destruct pack_type as [|p|p]; try reflexivity.
  simpl. apply (match_depth depth 3 4 0).
Qed.

(** C4: the dispatch of the umbrella routine.  For every input
    [uncompress_picture] does what the policy of section 4.3 selects from
    [(rowBytes, depth, packType, height)]: a verbatim copy of
    [rowBytes * height] bytes below 8 row bytes; the 8-bit run-length path
    at depth 8 whatever the pack type; otherwise, with pack type 0 taken as
    3 at depth 16 and 4 at depth 32, the verbatim copy followed by the swap
    of the 2-byte or 4-byte fields of the pixel buffer for pack type 1, the
    16-bit path for 3, the 32-bit planar path for 4, and the fatal
    diagnostic for any other pack type. *)
Theorem uncompress_picture_dispatch (host : Host) (buf : list byte)
    (s row_bytes : Z) (pix : list byte)
    (d dst_pitch depth height pack_type : Z) :
  uncompress_picture host buf s row_bytes pix d dst_pitch depth height pack_type
  = run_path host buf (dispatch row_bytes depth pack_type height)
      s row_bytes pix d dst_pitch height.
Proof.
  unfold uncompress_picture, dispatch.
  destruct (row_bytes <? 8); [reflexivity|].
  destruct (depth =? 8); [reflexivity|].
  rewrite default_pack_type.
  set (pt := if pack_type =? 0 then _ else pack_type).
  rewrite match_pack_type.
  destruct (pt =? 1).
  { cbn [run_path]. rewrite match_depth.
    destruct (depth =? 16); [reflexivity|].
    destruct (depth =? 32); reflexivity. }
  destruct (pt =? 3); [reflexivity|].
  destruct (pt =? 4); reflexivity.
Qed.

(** ** The byte reader and the color table *)

Lemma ReadBE16_elt (buf : list byte) (p v : Z) :
  0 <= p -> elt_at U16 buf p = Some v -> SDL_ReadBE16 buf p = Ok (v, p + 2).
Proof.
  intros Hp. unfold elt_at, SDL_ReadBE16.
  destruct (buf !! Z.to_nat p) as [b0|] eqn:E0; simpl; [|discriminate].
  destruct (buf !! Z.to_nat (p + 1)) as [b1|] eqn:E1; simpl; [|discriminate].
  intros [= <-]. apply lookup_lt_Some in E1.
  replace (0 <=? p) with true by (symmetry; apply Z.leb_le; lia).
  replace (p + 2 <=? len buf) with true
    by (symmetry; apply Z.leb_le; unfold len; lia).
  reflexivity.
Qed.

Lemma elt_at_U16_inside (buf : list byte) (p v : Z) :
  0 <= p -> elt_at U16 buf p = Some v -> p + 2 <= len buf /\ 0 <= v < 65536.
Proof.
  intros Hp E. split; [|apply (elt_at_range buf U16 p v E)].
  unfold elt_at in E.
  destruct (buf !! Z.to_nat p); simpl in E; [|discriminate].
  destruct (buf !! Z.to_nat (p + 1)) eqn:E1; simpl in E; [|discriminate].
  apply lookup_lt_Some in E1. unfold len. lia.
Qed.

Lemma RWseek_inside (buf : list byte) (p n : Z) :
  0 <= p + n <= len buf -> SDL_RWseek buf p n = Ok (p + n).
Proof.
  intros H. unfold SDL_RWseek.
  replace (0 <=? p + n) with true by (symmetry; apply Z.leb_le; lia).
  replace (p + n <=? len buf) with true by (symmetry; apply Z.leb_le; lia).
  reflexivity.
Qed.

Lemma set_color_inside (cs : list SDL_Color) (i : Z) (c : SDL_Color)
    (upd : SDL_Color -> SDL_Color) :
  cs !! Z.to_nat i = Some c ->
  set_color (Some cs) i upd = Ok (Some (<[Z.to_nat i := upd c]> cs)).
Proof. intros E. unfold set_color. rewrite E. reflexivity. Qed.

Lemma slot_lt (e : Z * SDL_Color) : (slot e < 256)%nat.
Proof.
  unfold slot. change 255 with (Z.ones 8).
  destruct (Z.leb_spec 0 (fst e)).
  - rewrite Z.land_ones by lia.
    pose proof (Z.mod_pos_bound (fst e) (2 ^ 8) ltac:(lia)).
    change (2 ^ 8) with 256 in *. lia.
  - rewrite Z.land_ones by lia.
    pose proof (Z.mod_pos_bound (fst e) (2 ^ 8) ltac:(lia)).
    change (2 ^ 8) with 256 in *. lia.
Qed.

Lemma store_entry_length (cs : list SDL_Color) (e : Z * SDL_Color) :
  length (store_entry cs e) = length cs.
Proof. apply length_insert. Qed.

Lemma store_entries_length (es : list (Z * SDL_Color)) (cs : list SDL_Color) :
  length (foldl store_entry cs es) = length cs.
Proof.
  revert cs. induction es as [|e es IH]; intros cs; simpl; [reflexivity|].
  rewrite IH. apply store_entry_length.
Qed.

Lemma read_colors_entries (buf : list byte) (n : nat) (p : Z)
    (cs : list SDL_Color) (es : list (Z * SDL_Color)) :
  0 <= p -> color_entries_at buf p n = Some es -> length cs = 256%nat ->
  read_colors buf n p (Some cs)
  = Ok (Some (foldl store_entry cs es), p + 8 * Z.of_nat n).
Proof.
  revert p cs es. induction n as [|n IH]; intros p cs es Hp He Hl.
  - simpl in He. injection He as <-. simpl. do 3 f_equal. lia.
  - cbn [color_entries_at] in He.
    destruct (color_entry_at buf p) as [[index c]|] eqn:Ee; simpl in He;
      [|discriminate].
    destruct (color_entries_at buf (p + 8) n) as [es'|] eqn:Ees; simpl in He;
      [|discriminate].
    injection He as <-.
    unfold color_entry_at in Ee.
    destruct (elt_at U16 buf p) as [i'|] eqn:E0; cbn [mbind option_bind] in Ee;
      [|discriminate].
    destruct (elt_at U16 buf (p + 2)) as [r|] eqn:E1;
      cbn [mbind option_bind] in Ee;
      [|discriminate].
    destruct (elt_at U16 buf (p + 4)) as [g|] eqn:E2;
      cbn [mbind option_bind] in Ee;
      [|discriminate].
    destruct (elt_at U16 buf (p + 6)) as [b|] eqn:E3;
      cbn [mbind option_bind] in Ee;
      [|discriminate].
    injection Ee as <- <-.
    cbn [read_colors].
    rewrite (ReadBE16_elt buf p i') by assumption. cbn [mbind outcome_bind].
    rewrite (ReadBE16_elt buf (p + 2) r) by (lia || assumption). cbn [mbind outcome_bind].
    pose proof (slot_lt (i', RGB 0 0 0)) as Hslot. unfold slot in Hslot.
    simpl in Hslot.
    destruct (lookup_lt_is_Some_2 cs (Z.to_nat (Z.land i' 255))) as [c0 Hc0];
      [lia|].
    rewrite (set_color_inside cs _ c0) by assumption. cbn [mbind outcome_bind].
    replace (p + 2 + 2) with (p + 4) by lia.
    rewrite (ReadBE16_elt buf (p + 4) g) by (lia || assumption). cbn [mbind outcome_bind].
    erewrite set_color_inside
      by (apply list_lookup_insert_eq; lia).
    cbn [mbind outcome_bind].
    replace (p + 4 + 2) with (p + 6) by lia.
    rewrite (ReadBE16_elt buf (p + 6) b) by (lia || assumption). cbn [mbind outcome_bind].
    erewrite set_color_inside
      by (apply list_lookup_insert_eq; rewrite length_insert; lia).
    cbn [mbind outcome_bind]. rewrite !list_insert_insert_eq.
    replace (p + 6 + 2) with (p + 8) by lia.
    rewrite (IH (p + 8) _ es'); [| lia | assumption | rewrite length_insert; lia].
    simpl. do 2 f_equal. lia.
Qed.

Lemma last_color_snoc (i : nat) (es : list (Z * SDL_Color))
    (e : Z * SDL_Color) :
  last_color i (es ++ [e])
  = if Nat.eqb (slot e) i then Some (snd e) else last_color i es.
Proof. unfold last_color. rewrite foldl_app. reflexivity. Qed.

(** The palette after the entries: a slot holds the color of the last entry
    that names it, and what it held before when none does. *)
Lemma lookup_store_entries (es : list (Z * SDL_Color)) (cs : list SDL_Color)
    (i : nat) (c0 : SDL_Color) :
  cs !! i = Some c0 ->
  foldl store_entry cs es !! i = Some (default c0 (last_color i es)).
Proof.
  intros Hc. induction es as [|e es IH] using rev_ind; [exact Hc|].
  rewrite foldl_app, last_color_snoc. simpl. unfold store_entry at 1.
  destruct (Nat.eqb_spec (slot e) i) as [->|Hne].
  - simpl. apply list_lookup_insert_eq.
    rewrite store_entries_length. eapply lookup_lt_Some, Hc.
  - rewrite list_lookup_insert_ne by assumption. exact IH.
Qed.

Lemma color_entries_at_length (buf : list byte) (i : Z) (n : nat)
    (es : list (Z * SDL_Color)) :
  color_entries_at buf i n = Some es -> length es = n.
Proof.
  revert i es. induction n as [|n IH]; intros i es; simpl.
  - intros [= <-]. reflexivity.
  - destruct (color_entry_at buf i); simpl; [|discriminate].
    destruct (color_entries_at buf (i + 8) n) eqn:E; simpl; [|discriminate].
    intros [= <-]. simpl. f_equal. eapply IH, E.
Qed.

(** C7: the inline color table.  For the opcode without a base address
    (0x0098) the interpreter skips six bytes, reads the count field [N] and
    then [N + 1] entries of a palette index and three 16-bit channels; each
    entry stores the high bytes of its channels at the slot its index names
    (the low byte of the index field, the index itself for 0..255).  So the
    palette ends as the entries stored one after the other: a slot holds the
    color of the last entry naming it, and keeps what it held when no entry
    names it.  The opcode with a base address (0x009a) reads no color table:
    cursor and palette stay as they are. *)
Theorem read_color_table_entries (buf : list byte) (p N : Z)
    (cs : list SDL_Color) (es : list (Z * SDL_Color)) :
  0 <= p ->
  elt_at U16 buf (p + 6) = Some N ->
  color_entries_at buf (p + 8) (Z.to_nat (N + 1)) = Some es ->
  length cs = 256%nat ->
  Z.of_nat (length es) = N + 1
  /\ read_color_table buf 0x0098 p (Some cs)
     = Ok (Some (foldl store_entry cs es), p + 8 + 8 * (N + 1))
  /\ (forall i c0, cs !! i = Some c0 ->
        foldl store_entry cs es !! i = Some (default c0 (last_color i es)))
  /\ (forall e, 0 <= fst e < 256 -> slot e = Z.to_nat (fst e))
  /\ (forall pal q, read_color_table buf 0x009a q pal = Ok (pal, q)).
Proof.
  intros Hp HN Hes Hcs.
  destruct (elt_at_U16_inside buf (p + 6) N ltac:(lia) HN) as [Hin HNr].
  split; [|split; [|split; [|split]]].
  - apply color_entries_at_length in Hes. lia.
  - unfold read_color_table. simpl (_ =? _).
    rewrite RWseek_inside by lia. cbn [mbind outcome_bind].
    rewrite (ReadBE16_elt buf (p + 6) N) by (lia || assumption).
    cbn [mbind outcome_bind].
    replace (p + 6 + 2) with (p + 8) by lia.
    rewrite (read_colors_entries buf _ (p + 8) cs es) by (lia || assumption).
    do 3 f_equal. lia.
  - intros i c0. apply lookup_store_entries.
  - intros e He. unfold slot. change 255 with (Z.ones 8).
    rewrite Z.land_ones by lia. change (2 ^ 8) with 256.
    rewrite Z.mod_small by lia. reflexivity.
  - intros pal q. reflexivity.
Qed.

(** Two entries for slot 5 and none for the others: the second color stays,
    the cursor stands after the 24 bytes of the table. *)
Lemma read_color_table_entries_witness :
  let buf := bytes_of [0; 0; 0; 0; 0; 0; 0; 1;
                       0; 5; 0x12; 0x34; 0x56; 0x78; 0x9a; 0xbc;
                       0; 5; 0xff; 0xff; 0x80; 0x00; 0x01; 0x02] in
  let black := replicate 256 (RGB 0 0 0) in
  read_color_table buf 0x0098 0 (Some black)
  = Ok (Some (foldl store_entry black
                [(5, RGB 0x12 0x56 0x9a); (5, RGB 0xff 0x80 0x01)]), 24).
Proof.
  intros buf black.
  exact (proj1 (proj2
           (read_color_table_entries buf 0 1 black
              [(5, RGB 0x12 0x56 0x9a); (5, RGB 0xff 0x80 0x01)]
              ltac:(lia) eq_refl eq_refl eq_refl))).
Defined.

(** ** Sequencing *)

Lemma bind_Ok {A B} (m : outcome A) (k : A -> outcome B) (b : B) :
  m ≫= k = Ok b -> exists a, m = Ok a /\ k a = Ok b.
Proof. destruct m; simpl; try discriminate. eauto. Qed.

Lemma bind_fuel {A B} (m : outcome A) (k : A -> outcome B) :
  m <> OutOfFuel -> (forall a, m = Ok a -> k a <> OutOfFuel) ->
  m ≫= k <> OutOfFuel.
Proof. destruct m; simpl; try discriminate; auto. Qed.

Lemma peek_fuel (buf : list byte) (i : Z) : peek buf i <> OutOfFuel.
Proof.
  destruct (peek_cases buf i) as [(b & _ & _ & ->)|[_ ->]]; discriminate.
Qed.

Lemma poke_fuel (m : list byte) (i b : Z) : poke m i b <> OutOfFuel.
Proof. unfold poke. destruct (_ && _); discriminate. Qed.

Lemma ReadBE16_Ok (buf : list byte) (c v p : Z) :
  SDL_ReadBE16 buf c = Ok (v, p) ->
  0 <= c /\ p = c + 2 /\ p <= len buf /\ elt_at U16 buf c = Some v.
Proof.
  unfold SDL_ReadBE16, elt_at.
  destruct (Z.leb_spec 0 c); simpl; [|discriminate].
  destruct (Z.leb_spec (c + 2) (len buf)); simpl; [|discriminate].
  destruct (buf !! Z.to_nat c); simpl; [|discriminate].
  destruct (buf !! Z.to_nat (c + 1)); simpl; [|discriminate].
  intros [= <- <-]. auto with lia.
Qed.

Lemma ReadBE16_fuel (buf : list byte) (c : Z) : SDL_ReadBE16 buf c <> OutOfFuel.
Proof.
  unfold SDL_ReadBE16. destruct (_ && _); [|discriminate].
  destruct (buf !! Z.to_nat c); [|discriminate].
  destruct (buf !! Z.to_nat (c + 1)); discriminate.
Qed.

Lemma RWseek_Ok (buf : list byte) (p n q : Z) :
  SDL_RWseek buf p n = Ok q -> q = p + n /\ 0 <= q <= len buf.
Proof.
  unfold SDL_RWseek.
  destruct (Z.leb_spec 0 (p + n)); simpl; [|discriminate].
  destruct (Z.leb_spec (p + n) (len buf)); simpl; [|discriminate].
  intros [= <-]. lia.
Qed.

Lemma RWseek_fuel (buf : list byte) (p n : Z) : SDL_RWseek buf p n <> OutOfFuel.
Proof. unfold SDL_RWseek. destruct (_ && _); discriminate. Qed.

(** Take apart a sequence of operations that returned. *)
Ltac bind_inv H :=
  repeat match type of H with
         | _ ≫= _ = Ok _ =>
             let a := fresh "a" in
             let E := fresh "E" in
             apply bind_Ok in H as (a & E & H);
             try match type of a with (_ * _)%type => destruct a end;
             cbv beta iota in H
         end.

(** ** The opcode loop *)

Section PictureFacts.

Variable host : Host.
Variable buf : list byte.

(** The case of the image opcodes always ends the loop. *)
Lemma copy_bits_done (opcode p : Z) (st' : pict_state) :
  copy_bits host buf opcode p = Ok st' -> done st' = true.
Proof.
  unfold copy_bits. intros H. bind_inv H.
  destruct (SDL_CreateRGBSurface _ _ _ _ _).
  - bind_inv H. injection H as <-. reflexivity.
  - injection H as <-. reflexivity.
Qed.

(** An iteration that returns either ends the loop, or keeps the surface
    and moves the cursor forward by two bytes or more. *)
Lemma opcode_step_cases (st st' : pict_state) :
  opcode_step host buf st = Ok st' ->
  done st' = true
  \/ (done st' = done st /\ surface st' = surface st
      /\ 0 <= cursor st /\ cursor st + 2 <= cursor st' <= len buf).
Proof.
  unfold opcode_step. intros H.
  apply bind_Ok in H as ([opcode p] & E & H). cbv beta iota in H.
  apply ReadBE16_Ok in E as (Hc & -> & Hp & Ev).
  pose proof (elt_at_range buf U16 _ _ Ev) as Hv. simpl in Hv.
  destruct (_ || _).
  { injection H as <-. right. simpl. auto with lia. }
  destruct (opcode =? 160).
  { bind_inv H. injection H as <-. apply RWseek_Ok in E.
    right. simpl. auto with lia. }
  destruct (opcode =? 161).
  { bind_inv H. injection H as <-.
    apply RWseek_Ok in E. apply ReadBE16_Ok in E0 as (? & -> & ? & Es).
    pose proof (elt_at_range buf U16 _ _ Es) as Hs. simpl in Hs.
    apply RWseek_Ok in E1. right. simpl. auto with lia. }
  destruct (opcode =? 3072).
  { bind_inv H. injection H as <-. apply RWseek_Ok in E.
    right. simpl. auto with lia. }
  destruct (opcode =? 255).
  { injection H as <-. left. reflexivity. }
  destruct (opcode =? 1).
  { bind_inv H. injection H as <-.
    apply ReadBE16_Ok in E as (? & -> & ? & Es).
    pose proof (elt_at_range buf U16 _ _ Es) as Hs. simpl in Hs.
    apply RWseek_Ok in E0. right. simpl. auto with lia. }
  destruct (_ || _); [|discriminate].
  left. eapply copy_bits_done, H.
Qed.

(** Once [done] is set the loop reads nothing more. *)
Lemma opcode_loop_done (fuel : nat) (st : pict_state) :
  done st = true -> opcode_loop host buf fuel st = Ok st.
Proof. intros H. destruct fuel; simpl; rewrite H; reflexivity. Qed.

End PictureFacts.

(** ** Nothing but the host's [byte_swap_memory] can run out of fuel *)

Section Fuel.

Variable host : Host.
Variable buf : list byte.
Hypothesis swap_fuel :
  forall m d f n, byte_swap_memory host m d f n <> OutOfFuel.

Lemma memcpy_fuel (pix : list byte) (d s n : Z) :
  memcpy buf pix d s n <> OutOfFuel.
Proof.
  unfold memcpy. destruct (n <? 0); [discriminate|].
  generalize (Z.to_nat n) as k. intros k. revert pix d s.
  induction k as [|k IH]; intros pix d s; simpl; [discriminate|].
  apply bind_fuel; [apply peek_fuel|]. intros b _.
  apply bind_fuel; [apply poke_fuel|]. intros pix' _. apply IH.
Qed.

Lemma unpack_bits_fuel (T : elt) (s row_bytes d : Z) (m : list byte) :
  unpack_bits (LITTLE_ENDIAN host) T buf s row_bytes d m <> OutOfFuel.
Proof.
  unfold unpack_bits.
  destruct (read_count_cases buf s row_bytes) as [(count & s' & ->)|(off & ->)];
    simpl; [|discriminate].
  apply unpack_loop_fuel. simpl. lia.
Qed.

Lemma rle_rows_fuel (T : elt) (height : nat) (s row_bytes d dst_pitch : Z)
    (pix : list byte) :
  rle_rows host buf T height s row_bytes d dst_pitch pix <> OutOfFuel.
Proof.
  revert s d pix. induction height as [|n IH]; intros s d pix; simpl;
    [discriminate|].
  apply bind_fuel; [apply unpack_bits_fuel|]. intros st _. apply IH.
Qed.

Lemma copy_component_fuel (tmp : list byte) (s : Z) (pix : list byte)
    (d count component : Z) :
  copy_component_into_surface host tmp s pix d count component <> OutOfFuel.
Proof.
  unfold copy_component_into_surface.
  destruct (count <? 0); [discriminate|].
  generalize (if LITTLE_ENDIAN host then d + (2 - component)
              else d + (component + 1)) as d'.
  generalize (Z.to_nat count) as k. intros k. revert pix s.
  induction k as [|k IH]; intros pix s d'; simpl; [discriminate|].
  apply bind_fuel; [apply peek_fuel|]. intros b _.
  apply bind_fuel; [apply poke_fuel|]. intros pix' _. apply IH.
Qed.

Lemma rle32_rows_fuel (height : nat) (s row_bytes : Z) (tmp : list byte)
    (width d dst_pitch : Z) (pix : list byte) :
  rle32_rows host buf height s row_bytes tmp width d dst_pitch pix
  <> OutOfFuel.
Proof.
  revert s tmp d pix. induction height as [|n IH]; intros s tmp d pix;
    simpl; [discriminate|].
  apply bind_fuel; [apply unpack_bits_fuel|]. intros st _.
  apply bind_fuel; [apply copy_component_fuel|]. intros pix1 _.
  apply bind_fuel; [apply copy_component_fuel|]. intros pix2 _.
  apply bind_fuel; [apply copy_component_fuel|]. intros pix3 _.
  apply IH.
Qed.

Lemma uncompress_picture_fuel (s row_bytes : Z) (pix : list byte)
    (d dst_pitch depth height pack_type : Z) :
  uncompress_picture host buf s row_bytes pix d dst_pitch depth height
    pack_type <> OutOfFuel.
Proof.
  unfold uncompress_picture.
  destruct (row_bytes <? 8); [apply memcpy_fuel|].
  destruct (depth =? 8); [apply rle_rows_fuel|].
  match goal with |- context [?pt =? 1] => destruct (pt =? 1) end.
  { apply bind_fuel; [apply memcpy_fuel|]. intros pix' _.
    destruct (depth =? 16); [apply swap_fuel|].
    destruct (depth =? 32); [apply swap_fuel|discriminate]. }
  match goal with |- context [?pt =? 3] => destruct (pt =? 3) end.
  { apply rle_rows_fuel. }
  match goal with |- context [?pt =? 4] => destruct (pt =? 4) end;
    [|discriminate].
  unfold uncompress_rle32. destruct (malloc host row_bytes);
    [apply rle32_rows_fuel|discriminate].
Qed.

Lemma set_color_fuel (pal : option (list SDL_Color)) (value : Z)
    (upd : SDL_Color -> SDL_Color) :
  set_color pal value upd <> OutOfFuel.
Proof.
  unfold set_color. destruct pal as [cs|]; [|discriminate].
  destruct (cs !! Z.to_nat value); discriminate.
Qed.

Lemma read_colors_fuel (n : nat) (p : Z) (pal : option (list SDL_Color)) :
  read_colors buf n p pal <> OutOfFuel.
Proof.
  revert p pal. induction n as [|n IH]; intros p pal; simpl; [discriminate|].
  repeat first
    [ apply IH
    | apply bind_fuel;
      [first [apply ReadBE16_fuel | apply set_color_fuel]|];
      first [intros [? ?] _ | intros ? _] ].
Qed.

Lemma copy_bits_fuel (opcode p : Z) :
  copy_bits host buf opcode p <> OutOfFuel.
Proof.
  unfold copy_bits.
  apply bind_fuel.
  { unfold read_pixmap.
    apply bind_fuel;
      [destruct (opcode =? 154); [apply RWseek_fuel|discriminate]|].
    intros ? _.
    repeat first
      [ discriminate
      | apply bind_fuel;
        [first [apply ReadBE16_fuel | apply RWseek_fuel]|];
        first [intros [? ?] _ | intros ? _] ]. }
  intros [pm p1] _.
  destruct (SDL_CreateRGBSurface _ _ _ _ _) as [s|]; [|discriminate].
  apply bind_fuel.
  { unfold read_color_table. destruct (opcode =? 152); [|discriminate].
    apply bind_fuel; [apply RWseek_fuel|]. intros ? _.
    apply bind_fuel; [apply ReadBE16_fuel|]. intros [? ?] _.
    apply read_colors_fuel. }
  intros [pal p2] _.
  apply bind_fuel; [apply RWseek_fuel|]. intros p3 _.
  apply bind_fuel; [apply uncompress_picture_fuel|]. intros pix _.
  discriminate.
Qed.

Lemma opcode_step_fuel (st : pict_state) :
  opcode_step host buf st <> OutOfFuel.
Proof.
  unfold opcode_step.
  apply bind_fuel; [apply ReadBE16_fuel|]. intros [opcode p] _.
  repeat match goal with
         | |- (if ?c then _ else _) <> _ => destruct c
         end;
    try discriminate; try apply copy_bits_fuel;
    repeat first
      [ discriminate
      | apply bind_fuel;
        [first [apply ReadBE16_fuel | apply RWseek_fuel]|];
        first [intros [? ?] _ | intros ? _] ].
Qed.

(** The cursor moves forward in every iteration, so the loop is over
    before it has run as often as the resource has bytes. *)
Lemma opcode_loop_fuel (fuel : nat) (st : pict_state) :
  (Z.to_nat (len buf - cursor st) < fuel)%nat ->
  opcode_loop host buf fuel st <> OutOfFuel.
Proof.
  revert st. induction fuel as [|fuel IH]; intros st Hf; [lia|].
  cbn [opcode_loop]. destruct (done st) eqn:Hd; [discriminate|].
  apply bind_fuel; [apply opcode_step_fuel|]. intros st' E.
  destruct (opcode_step_cases host buf st st' E) as [Hd'|(_ & _ & ? & ?)].
  - rewrite opcode_loop_done by assumption. discriminate.
  - apply IH. lia.
Qed.

End Fuel.

(** With enough fuel for both loops, [picture_to_surface] returns, ends in
    a diagnostic or leaves an object: it never runs out of iterations. *)
Lemma picture_to_surface_fuel (host : Host) (rsrc : option (list byte)) :
  (forall m d f n, byte_swap_memory host m d f n <> OutOfFuel) ->
  picture_to_surface host rsrc <> OutOfFuel.
Proof.
  intros Hswap. unfold picture_to_surface.
  destruct rsrc as [buf|]; [|discriminate].
  destruct (SDL_RWFromMem host buf); [|discriminate].
  apply bind_fuel; [apply RWseek_fuel|]. intros p E.
  apply RWseek_Ok in E.
  apply bind_fuel; [|discriminate].
  apply opcode_loop_fuel; [exact Hswap|]. cbn [cursor]. unfold len in *. lia.
Qed.

(** ** One image per decode *)

Lemma opcode_loop_ends_done (host : Host) (buf : list byte) (fuel : nat)
    (st st' : pict_state) :
  opcode_loop host buf fuel st = Ok st' -> done st' = true.
Proof.
  revert st. induction fuel as [|fuel IH]; intros st; cbn [opcode_loop].
  - destruct (done st) eqn:Hd; [|discriminate]. intros [= <-]. exact Hd.
  - destruct (done st) eqn:Hd.
    + intros [= <-]. exact Hd.
    + intros H. apply bind_Ok in H as (st1 & _ & H). eapply IH, H.
Qed.

(** C8: one image per decode.  The iteration that reads an image opcode
    (0x0098, 0x009a) or the end-of-picture opcode sets [done]; an iteration
    that does not set it leaves the surface as it was, so the surface comes
    from the last iteration alone; with [done] set the loop returns at once
    and reads no further opcode; a fatal error of an iteration is the
    outcome of the loop; and the loop returns only with [done] set. *)
Theorem one_image_per_decode (host : Host) (buf : list byte) :
  (forall st st' opcode p,
     SDL_ReadBE16 buf (cursor st) = Ok (opcode, p) ->
     opcode = 0x0098 \/ opcode = 0x009a \/ opcode = 0x00ff ->
     opcode_step host buf st = Ok st' -> done st' = true)
  /\ (forall st st',
        opcode_step host buf st = Ok st' -> done st' = false ->
        surface st' = surface st)
  /\ (forall fuel st, done st = true -> opcode_loop host buf fuel st = Ok st)
  /\ (forall fuel st e,
        done st = false -> opcode_step host buf st = Fatal e ->
        opcode_loop host buf (S fuel) st = Fatal e)
  /\ (forall fuel st st',
        opcode_loop host buf fuel st = Ok st' -> done st' = true).
Proof.
  split; [|split; [|split; [|split]]].
  - intros st st' opcode p E Hop. unfold opcode_step. rewrite E.
    cbn [mbind outcome_bind]. cbv beta iota.
    destruct Hop as [->|[->| ->]]; cbn [Z.eqb Pos.eqb orb].
    + apply copy_bits_done.
    + apply copy_bits_done.
    + intros [= <-]. reflexivity.
  - intros st st' E Hd.
    destruct (opcode_step_cases host buf st st' E) as [Hd'|(_ & Hs & _)];
      [congruence|exact Hs].
  - intros fuel st. apply opcode_loop_done.
  - intros fuel st e Hd E. cbn [opcode_loop]. rewrite Hd, E. reflexivity.
  - intros fuel st st'. apply opcode_loop_ends_done.
Qed.

(** The iteration at the image opcode of [pict_indexed] ends the loop, which
    then leaves the two opcodes after the pixel data unread. *)
Lemma one_image_per_decode_witness :
  exists st',
    opcode_step host_le pict_indexed (Pict 14 None false) = Ok st'
    /\ done st' = true
    /\ opcode_loop host_le pict_indexed 9 st' = Ok st'
    /\ cursor st' + 4 <= len pict_indexed.
Proof.
  eexists. split; [vm_compute; reflexivity|].
  pose proof (one_image_per_decode host_le pict_indexed)
    as (Himage & _ & Hdone & _).
  assert (Hd : done
                 match opcode_step host_le pict_indexed (Pict 14 None false)
                 with Ok st' => st' | _ => Pict 0 None false end = true).
  { apply (Himage (Pict 14 None false) _ 0x0098 16).
    - vm_compute. reflexivity.
    - left. reflexivity.
    - vm_compute. reflexivity. }
  split; [exact Hd|]. split; [apply Hdone; exact Hd|].
  vm_compute. discriminate.
Defined.

(** ** Missing checks *)

(** C1, as it is stated, fails: the packed line of [pict_truncated] declares
    nine bytes where three are left, and the decode ends in a read at the
    first offset past the end of the resource, not in [TruncatedInput]. *)
Lemma truncated_picture_overruns :
  picture_to_surface host_le (Some pict_truncated)
  = Undefined (SrcOverrun (len pict_truncated))
  /\ picture_to_surface host_le (Some pict_truncated) <> Fatal TruncatedInput.
Proof. split; [vm_compute; reflexivity|vm_compute; discriminate]. Qed.

(** ** The pixel data is read unchecked *)

Lemma overrun_bind {A B} (buf : list byte) (m : outcome A)
    (k : A -> outcome B) :
  overrun buf m -> overrun buf (m ≫= k).
Proof.
  intros [->|(off & ->)]; [left|right; exists off]; reflexivity.
Qed.

Lemma read_count_edge (buf : list byte) (s row_bytes : Z) :
  0 <= s <= len buf ->
  (exists count s',
     read_count buf s row_bytes = Ok (count, s')
     /\ s <= s' <= len buf /\ 0 <= count)
  \/ read_count buf s row_bytes = Undefined (SrcOverrun (len buf)).
Proof.
  intros Hs. unfold read_count. destruct (250 <? row_bytes).
  - destruct (peek_cases buf s) as [(b0 & H0 & _ & ->)|[Ho ->]].
    2: { right. simpl. do 2 f_equal. lia. }
    cbn [mbind outcome_bind].
    destruct (peek_cases buf (s + 1)) as [(b1 & H1 & _ & ->)|[Ho ->]].
    2: { right. simpl. do 2 f_equal. lia. }
    left. cbn [mbind outcome_bind]. do 2 eexists. split; [reflexivity|].
    pose proof (Z_of_byte_range b0). pose proof (Z_of_byte_range b1).
    rewrite be16_assemble by lia. lia.
  - destruct (peek_cases buf s) as [(b0 & H0 & _ & ->)|[Ho ->]].
    2: { right. simpl. do 2 f_equal. lia. }
    left. cbn [mbind outcome_bind]. do 2 eexists. split; [reflexivity|].
    pose proof (Z_of_byte_range b0). lia.
Qed.

Lemma unpack_bits_in_or_out (le : bool) (T : elt) (buf : list byte)
    (s row_bytes d : Z) (m : list byte) :
  0 <= s <= len buf ->
  (exists st',
     unpack_bits le T buf s row_bytes d m = Ok st'
     /\ s <= src st' <= len buf
     /\ ~ line_truncated buf s row_bytes)
  \/ (overrun buf (unpack_bits le T buf s row_bytes d m)).
Proof.
  intros Hs. unfold unpack_bits, line_truncated.
  destruct (read_count_edge buf s row_bytes Hs)
    as [(count & s' & -> & Hs' & Hc)| ->]; [|right; left; reflexivity].
  cbn [mbind outcome_bind].
  destruct (unpack_loop_cases le buf T (Z.to_nat count) (UB s' count d m))
    as [(st1 & E & Hle & Hsum & Hin & _)|Ho]; simpl in *; try lia.
  - left. exists st1. split; [exact E|]. split; lia.
  - right. exact Ho.
Qed.

Lemma unpack_bits_line_truncated (le : bool) (T : elt) (buf : list byte)
    (s row_bytes d : Z) (m : list byte) :
  0 <= s <= len buf -> line_truncated buf s row_bytes ->
  overrun buf (unpack_bits le T buf s row_bytes d m).
Proof.
  intros Hs Ht.
  destruct (unpack_bits_in_or_out le T buf s row_bytes d m Hs)
    as [(st' & _ & _ & Hn)|Ho]; [contradiction|exact Ho].
Qed.

Lemma memcpy_loop_in_or_out (buf : list byte) (n : nat) (pix : list byte)
    (d s : Z) :
  0 <= s <= len buf ->
  (exists pix',
     memcpy_loop buf n pix d s = Ok pix' /\ s + Z.of_nat n <= len buf)
  \/ overrun buf (memcpy_loop buf n pix d s).
Proof.
  revert pix d s. induction n as [|n IH]; intros pix d s Hs.
  - left. exists pix. split; [reflexivity|lia].
  - cbn [memcpy_loop].
    destruct (peek_cases buf s) as [(b & Hb & _ & ->)|[Ho ->]].
    2: { right. left. simpl. do 2 f_equal. lia. }
    cbn [mbind outcome_bind]. unfold poke.
    destruct ((0 <=? d) && (d <? len pix)); cbn [mbind outcome_bind].
    + destruct (IH (<[Z.to_nat d := byte_of_Z (Z_of_byte b)]> pix) (d + 1)
                  (s + 1) ltac:(lia)) as [(pix' & E & Hn)|Ho].
      * left. exists pix'. split; [exact E|lia].
      * right. exact Ho.
    + right. right. eexists. reflexivity.
Qed.

Lemma memcpy_in_or_out (buf : list byte) (pix : list byte) (d s n : Z) :
  0 <= s <= len buf -> 0 <= n ->
  (exists pix', memcpy buf pix d s n = Ok pix' /\ s + n <= len buf)
  \/ overrun buf (memcpy buf pix d s n).
Proof.
  intros Hs Hn. unfold memcpy.
  replace (n <? 0) with false by (symmetry; apply Z.ltb_ge; lia).
  destruct (memcpy_loop_in_or_out buf (Z.to_nat n) pix d s Hs)
    as [(pix' & E & Hl)|Ho]; [left|right; exact Ho].
  exists pix'. split; [exact E|lia].
Qed.

Lemma memcpy_truncated (buf : list byte) (pix : list byte) (d s n : Z) :
  0 <= s <= len buf -> 0 <= n -> len buf < s + n ->
  overrun buf (memcpy buf pix d s n).
Proof.
  intros Hs Hn Ht.
  destruct (memcpy_in_or_out buf pix d s n Hs Hn) as [(pix' & _ & Hl)|Ho];
    [lia|exact Ho].
Qed.

Section SameSource.

Variable le : bool.
Variable buf : list byte.

Lemma unpack_step_same_src (T : elt) (st1 st2 r1 r2 : ub_state) :
  src st1 = src st2 -> src_count st1 = src_count st2 ->
  unpack_step le T buf st1 = Ok r1 -> unpack_step le T buf st2 = Ok r2 ->
  src r1 = src r2 /\ src_count r1 = src_count r2.
Proof.
  intros Hs Hc. unfold unpack_step. rewrite <- Hs, <- Hc.
  destruct (peek_cases buf (src st1)) as [(b & Hin & _ & ->)|[_ ->]];
    [|discriminate].
  cbn [mbind outcome_bind].
  destruct (int8 (Z_of_byte b) <? 0).
  - set (a1 := UB _ _ (dst st1) _). set (a2 := UB _ _ (dst st2) _).
    destruct (read_T_cases buf T a1 ltac:(simpl; lia))
      as [(v & _ & _ & E1)| E1]; rewrite E1; [|discriminate].
    destruct (read_T_cases buf T a2 ltac:(simpl; lia))
      as [(v2 & _ & _ & E2)| E2]; rewrite E2; [|discriminate].
    cbn [mbind outcome_bind].
    match goal with
    | |- fill_run _ _ ?n ?w ?s = _ -> _ =>
        destruct (fill_run_cases le T n w s) as [(m' & -> & _)|(off & ->)];
          [|discriminate]
    end.
    intros [= <-].
    match goal with
    | |- fill_run _ _ ?n ?w ?s = _ -> _ =>
        destruct (fill_run_cases le T n w s) as [(m2 & -> & _)|(off & ->)];
          [|discriminate]
    end.
    intros [= <-]. simpl. auto.
  - set (a1 := UB _ _ (dst st1) _). set (a2 := UB _ _ (dst st2) _).
    match goal with
    | |- copy_run _ _ _ ?n _ = _ -> _ =>
        destruct (copy_run_cases le buf T n a1 ltac:(simpl; lia))
          as [(vs & m' & _ & _ & -> & _)|[E|(off & E)]];
          [|rewrite E; discriminate..];
        destruct (copy_run_cases le buf T n a2 ltac:(simpl; lia))
          as [(vs2 & m2 & _ & _ & -> & _)|[E|(off & E)]];
          [|rewrite E; discriminate..]
    end.
    intros [= <-] [= <-]. simpl. auto.
Qed.

Lemma unpack_loop_same_src (T : elt) (fuel : nat)
    (st1 st2 r1 r2 : ub_state) :
  0 <= src st1 <= len buf ->
  src st1 = src st2 -> src_count st1 = src_count st2 ->
  unpack_loop le T buf fuel st1 = Ok r1 ->
  unpack_loop le T buf fuel st2 = Ok r2 ->
  src r1 = src r2.
Proof.
  revert st1 st2. induction fuel as [|fuel IH]; intros st1 st2 Hin Hs Hc;
    cbn [unpack_loop]; rewrite <- Hc.
  - destruct (0 <? src_count st1); [discriminate|].
    intros [= <-] [= <-]. exact Hs.
  - destruct (0 <? src_count st1).
    2: { intros [= <-] [= <-]. exact Hs. }
    intros H1 H2.
    apply bind_Ok in H1 as (a1 & E1 & H1).
    apply bind_Ok in H2 as (a2 & E2 & H2).
    destruct (unpack_step_same_src T st1 st2 a1 a2 Hs Hc E1 E2) as [Hs' Hc'].
    destruct (unpack_step_cases le buf T st1 Hin)
      as [(a & Ea & _ & _ & Hin' & _)|[Eo|(off & Eo)]]; try congruence.
    replace a with a1 in Hin' by congruence.
    exact (IH a1 a2 Hin' Hs' Hc' H1 H2).
Qed.

(** Where a scan line ends in the resource does not depend on where its
    pixels go. *)
Lemma unpack_bits_same_src (T : elt) (s row_bytes d1 d2 : Z)
    (m1 m2 : list byte) (r1 r2 : ub_state) :
  0 <= s ->
  unpack_bits le T buf s row_bytes d1 m1 = Ok r1 ->
  unpack_bits le T buf s row_bytes d2 m2 = Ok r2 ->
  src r1 = src r2.
Proof.
  intros Hs. unfold unpack_bits.
  destruct (read_count buf s row_bytes) as [[count s']| | |] eqn:E;
    try discriminate.
  cbn [mbind outcome_bind].
  destruct (read_count_inside buf s row_bytes count s' Hs E) as [Hin _].
  apply unpack_loop_same_src; simpl; auto.
Qed.

End SameSource.

Section NoDiagnostic.

Variable host : Host.
Variable buf : list byte.

Lemma bind_no_fatal {A B} (m : outcome A) (k : A -> outcome B) :
  (forall e, m <> Fatal e) ->
  (forall a, m = Ok a -> forall e, k a <> Fatal e) ->
  forall e, m ≫= k <> Fatal e.
Proof.
  intros Hm Hk e. destruct m; simpl; try discriminate.
  - apply Hk. reflexivity.
  - intros _. exact (Hm e0 eq_refl).
Qed.

Lemma peek_no_fatal (b : list byte) (i : Z) (e : error) :
  peek b i <> Fatal e.
Proof.
  destruct (peek_cases b i) as [(x & _ & _ & ->)|[_ ->]]; discriminate.
Qed.

Lemma poke_no_fatal (m : list byte) (i b : Z) (e : error) :
  poke m i b <> Fatal e.
Proof. unfold poke. destruct (_ && _); discriminate. Qed.

Lemma poke_bytes_no_fatal (bs : list Z) (m : list byte) (i : Z) (e : error) :
  poke_bytes m i bs <> Fatal e.
Proof.
  revert m i e. induction bs as [|b bs IH]; intros m i; simpl;
    [discriminate|].
  apply bind_no_fatal; [apply poke_no_fatal|]. intros m' _. apply IH.
Qed.

Lemma read_T_no_fatal (T : elt) (st : ub_state) (e : error) :
  read_T T buf st <> Fatal e.
Proof.
  revert e. unfold read_T. destruct T.
  - apply bind_no_fatal; [apply peek_no_fatal|]. discriminate.
  - apply bind_no_fatal; [apply peek_no_fatal|]. intros b0 _.
    apply bind_no_fatal; [apply peek_no_fatal|]. discriminate.
Qed.

Lemma write_T_no_fatal (le : bool) (T : elt) (st : ub_state) (v : Z)
    (e : error) :
  write_T le T st v <> Fatal e.
Proof.
  revert e. unfold write_T.
  apply bind_no_fatal; [apply poke_bytes_no_fatal|]. discriminate.
Qed.

Lemma fill_run_no_fatal (le : bool) (T : elt) (n : nat) (v : Z)
    (st : ub_state) (e : error) :
  fill_run le T n v st <> Fatal e.
Proof.
  revert st e. induction n as [|n IH]; intros st; simpl; [discriminate|].
  apply bind_no_fatal; [apply write_T_no_fatal|]. intros st' _. apply IH.
Qed.

Lemma copy_run_no_fatal (le : bool) (T : elt) (n : nat) (st : ub_state)
    (e : error) :
  copy_run le T buf n st <> Fatal e.
Proof.
  revert st e. induction n as [|n IH]; intros st; simpl; [discriminate|].
  apply bind_no_fatal; [apply read_T_no_fatal|]. intros [v st1] _.
  apply bind_no_fatal; [apply write_T_no_fatal|]. intros st2 _. apply IH.
Qed.

Lemma unpack_step_no_fatal (le : bool) (T : elt) (st : ub_state)
    (e : error) :
  unpack_step le T buf st <> Fatal e.
Proof.
  revert e. unfold unpack_step.
  apply bind_no_fatal; [apply peek_no_fatal|]. intros b _.
  destruct (int8 b <? 0).
  - apply bind_no_fatal; [apply read_T_no_fatal|]. intros [v st1] _.
    apply fill_run_no_fatal.
  - apply copy_run_no_fatal.
Qed.

Lemma unpack_loop_no_fatal (le : bool) (T : elt) (fuel : nat)
    (st : ub_state) (e : error) :
  unpack_loop le T buf fuel st <> Fatal e.
Proof.
  revert st e. induction fuel as [|fuel IH]; intros st; cbn [unpack_loop];
    (destruct (0 <? src_count st); [|discriminate]); [discriminate|].
  apply bind_no_fatal; [apply unpack_step_no_fatal|]. intros st' _. apply IH.
Qed.

Lemma unpack_bits_no_fatal (le : bool) (T : elt) (s row_bytes d : Z)
    (m : list byte) (e : error) :
  unpack_bits le T buf s row_bytes d m <> Fatal e.
Proof.
  revert e. unfold unpack_bits. apply bind_no_fatal.
  - unfold read_count. destruct (250 <? row_bytes).
    + apply bind_no_fatal; [apply peek_no_fatal|]. intros b0 _.
      apply bind_no_fatal; [apply peek_no_fatal|]. discriminate.
    + apply bind_no_fatal; [apply peek_no_fatal|]. discriminate.
  - intros [count s'] _. apply unpack_loop_no_fatal.
Qed.

Lemma memcpy_no_fatal (pix : list byte) (d s n : Z) (e : error) :
  memcpy buf pix d s n <> Fatal e.
Proof.
  unfold memcpy. destruct (n <? 0); [discriminate|].
  generalize (Z.to_nat n) as k. intros k. revert pix d s e.
  induction k as [|k IH]; intros pix d s; simpl; [discriminate|].
  apply bind_no_fatal; [apply peek_no_fatal|]. intros b _.
  apply bind_no_fatal; [apply poke_no_fatal|]. intros pix' _. apply IH.
Qed.

Lemma rle_rows_no_fatal (T : elt) (height : nat) (s row_bytes d dst_pitch : Z)
    (pix : list byte) (e : error) :
  rle_rows host buf T height s row_bytes d dst_pitch pix <> Fatal e.
Proof.
  revert s d pix e. induction height as [|n IH]; intros s d pix; simpl;
    [discriminate|].
  apply bind_no_fatal; [apply unpack_bits_no_fatal|]. intros st _. apply IH.
Qed.

Lemma copy_component_no_fatal (tmp : list byte) (s : Z) (pix : list byte)
    (d count component : Z) (e : error) :
  copy_component_into_surface host tmp s pix d count component <> Fatal e.
Proof.
  unfold copy_component_into_surface.
  destruct (count <? 0); [discriminate|].
  generalize (if LITTLE_ENDIAN host then d + (2 - component)
              else d + (component + 1)) as d'.
  generalize (Z.to_nat count) as k. intros k. revert pix s e.
  induction k as [|k IH]; intros pix s e d'; simpl; [discriminate|].
  revert e.
  apply bind_no_fatal; [apply peek_no_fatal|]. intros b _.
  apply bind_no_fatal; [apply poke_no_fatal|]. intros pix' _ e. apply IH.
Qed.

Lemma rle32_rows_no_fatal (height : nat) (s row_bytes : Z) (tmp : list byte)
    (width d dst_pitch : Z) (pix : list byte) (e : error) :
  rle32_rows host buf height s row_bytes tmp width d dst_pitch pix
  <> Fatal e.
Proof.
  revert s tmp d pix e. induction height as [|n IH]; intros s tmp d pix;
    simpl; [discriminate|].
  apply bind_no_fatal; [apply unpack_bits_no_fatal|]. intros st _.
  apply bind_no_fatal; [apply copy_component_no_fatal|]. intros pix1 _.
  apply bind_no_fatal; [apply copy_component_no_fatal|]. intros pix2 _.
  apply bind_no_fatal; [apply copy_component_no_fatal|]. intros pix3 _.
  apply IH.
Qed.

(** The decompressors stop with a diagnostic for an unknown pack type
    only, unless the host's [byte_swap_memory] does. *)
Lemma uncompress_picture_fatal (s row_bytes : Z) (pix : list byte)
    (d dst_pitch depth height pack_type : Z) (e : error) :
  uncompress_picture host buf s row_bytes pix d dst_pitch depth height
    pack_type = Fatal e ->
  (exists pt, e = UnimplementedPacking pt)
  \/ exists m d' f n, byte_swap_memory host m d' f n = Fatal e.
Proof.
  unfold uncompress_picture.
  destruct (row_bytes <? 8); [intros H; destruct (memcpy_no_fatal _ _ _ _ _ H)|].
  destruct (depth =? 8);
    [intros H; destruct (rle_rows_no_fatal _ _ _ _ _ _ _ _ H)|].
  match goal with |- context [?pt =? 1] => destruct (pt =? 1) end.
  { destruct (memcpy buf pix d s (row_bytes * height)) as [pix'| | |] eqn:E;
      simpl; try discriminate.
    - destruct (depth =? 16); [right; eauto|].
      destruct (depth =? 32); [right; eauto|discriminate].
    - intros _. destruct (memcpy_no_fatal _ _ _ _ _ E). }
  match goal with |- context [?pt =? 3] => destruct (pt =? 3) end.
  { intros H; destruct (rle_rows_no_fatal _ _ _ _ _ _ _ _ H). }
  match goal with |- context [?pt =? 4] => destruct (pt =? 4) end.
  2: { intros [= <-]. left. eauto. }
  unfold uncompress_rle32. destruct (malloc host row_bytes);
    [|discriminate].
  intros H. destruct (rle32_rows_no_fatal _ _ _ _ _ _ _ _ _ H).
Qed.

End NoDiagnostic.

Section Truncated.

Variable host : Host.
Variable buf : list byte.

#[local] Abbreviation le := (LITTLE_ENDIAN host).

Lemma rle_rows_cut (T : elt) (row_bytes dst_pitch : Z) (k : nat) (s sk : Z) :
  line_start le T buf row_bytes k s sk ->
  line_truncated buf sk row_bytes ->
  forall (height : nat) (d : Z) (pix : list byte),
    0 <= s <= len buf -> (k < height)%nat ->
    overrun buf (rle_rows host buf T height s row_bytes d dst_pitch pix).
Proof.
  intros Hl Ht. induction Hl as [s|k s d0 m0 st0 sk E0 Hl IH];
    intros height d pix Hs Hk;
    (destruct height as [|n]; [lia|]); cbn [rle_rows].
  - apply overrun_bind, unpack_bits_line_truncated; assumption.
  - destruct (unpack_bits_in_or_out le T buf s row_bytes d pix Hs)
      as [(st & E & Hin & _)|Ho]; [|apply overrun_bind, Ho].
    rewrite E. cbn [mbind outcome_bind].
    assert (src st = src st0) as Hsrc
      by (eapply unpack_bits_same_src; [apply Hs|exact E|exact E0]).
    rewrite Hsrc. apply IH; [assumption|rewrite <- Hsrc; lia|lia].
Qed.

Lemma copy_component_cases (tmp : list byte) (s : Z) (pix : list byte)
    (d count component : Z) :
  (exists pix',
     copy_component_into_surface host tmp s pix d count component = Ok pix')
  \/ exists f,
       copy_component_into_surface host tmp s pix d count component
       = Undefined f.
Proof.
  pose proof (copy_component_fuel host tmp s pix d count component) as Hf.
  pose proof (copy_component_no_fatal host tmp s pix d count component) as He.
  destruct (copy_component_into_surface _ _ _ _ _ _ _) as [pix'|e|f|];
    [left; eauto|destruct (He e eq_refl)|right; eauto|destruct (Hf eq_refl)].
Qed.

Lemma rle32_rows_cut (row_bytes width dst_pitch : Z) (k : nat) (s sk : Z) :
  line_start le U8 buf row_bytes k s sk ->
  line_truncated buf sk row_bytes ->
  forall (height : nat) (tmp : list byte) (d : Z) (pix : list byte),
    0 <= s <= len buf -> (k < height)%nat ->
    exists f,
      rle32_rows host buf height s row_bytes tmp width d dst_pitch pix
      = Undefined f.
Proof.
  intros Hl Ht. induction Hl as [s|k s d0 m0 st0 sk E0 Hl IH];
    intros height tmp d pix Hs Hk;
    (destruct height as [|n]; [lia|]); cbn [rle32_rows].
  - destruct (unpack_bits_line_truncated le U8 buf s row_bytes 0 tmp Hs Ht)
      as [-> | (off & ->)]; simpl; eauto.
  - destruct (unpack_bits_in_or_out le U8 buf s row_bytes 0 tmp Hs)
      as [(st & E & Hin & _)|[-> | (off & ->)]]; [|simpl; eauto..].
    rewrite E. cbn [mbind outcome_bind].
    assert (src st = src st0) as Hsrc
      by (eapply unpack_bits_same_src; [apply Hs|exact E|exact E0]).
    destruct (copy_component_cases (mem st) 0 pix d width 0)
      as [(pix1 & ->)|(f & ->)]; [|simpl; eauto].
    cbn [mbind outcome_bind].
    destruct (copy_component_cases (mem st) width pix1 d width 1)
      as [(pix2 & ->)|(f & ->)]; [|simpl; eauto].
    cbn [mbind outcome_bind].
    destruct (copy_component_cases (mem st) (width * 2) pix2 d width 2)
      as [(pix3 & ->)|(f & ->)]; [|simpl; eauto].
    cbn [mbind outcome_bind].
    rewrite Hsrc. apply IH; [assumption|rewrite <- Hsrc; lia|lia].
Qed.

(** The dispatch of [uncompress_picture], path by path. *)
Lemma uncompress_picture_by_path (s row_bytes : Z) (pix : list byte)
    (d dst_pitch depth height pack_type : Z) :
  uncompress_picture host buf s row_bytes pix d dst_pitch depth height pack_type
  = run_path host buf (dispatch row_bytes depth pack_type height)
      s row_bytes pix d dst_pitch height.
Proof.
  unfold uncompress_picture, dispatch.
  destruct (row_bytes <? 8); [reflexivity|].
  destruct (depth =? 8); [reflexivity|].
  rewrite default_pack_type.
  set (pt := if pack_type =? 0 then _ else pack_type).
  rewrite match_pack_type.
  destruct (pt =? 1).
  { cbn [run_path]. rewrite match_depth.
    destruct (depth =? 16); [reflexivity|].
    destruct (depth =? 32); reflexivity. }
  destruct (pt =? 3); [reflexivity|].
  destruct (pt =? 4); reflexivity.
Qed.

Lemma overrun_undefined {A} (o : outcome A) :
  overrun buf o -> exists f, o = Undefined f.
Proof. intros [-> | (off & ->)]; eauto. Qed.

Lemma uncompress_picture_truncated (s row_bytes : Z) (pix : list byte)
    (d dst_pitch depth height pack_type : Z) :
  0 <= s <= len buf ->
  pixel_data_truncated host buf s row_bytes depth height pack_type ->
  exists f,
    uncompress_picture host buf s row_bytes pix d dst_pitch depth height
      pack_type = Undefined f.
Proof.
  intros Hs. unfold pixel_data_truncated.
  rewrite uncompress_picture_by_path.
  destruct (dispatch row_bytes depth pack_type height) as [n| |n fld| | |pt];
    cbn [run_path].
  - intros Hn. apply overrun_undefined, memcpy_truncated; lia.
  - intros (k & sk & Hk & Hl & Ht). apply overrun_undefined.
    eapply rle_rows_cut; eassumption.
  - intros Hn. apply overrun_undefined, overrun_bind, memcpy_truncated; lia.
  - intros (k & sk & Hk & Hl & Ht). apply overrun_undefined.
    eapply rle_rows_cut; eassumption.
  - intros (Hm & k & sk & Hk & Hl & Ht). unfold uncompress_rle32.
    destruct (malloc host row_bytes) as [tmp|]; [|congruence].
    eapply rle32_rows_cut; eassumption.
  - intros [].
Qed.

(** A fault of the iteration the loop has come to is the outcome of the
    loop. *)
Lemma opcode_loop_fault (st st' : pict_state) (f : fault) :
  reaches host buf st st' ->
  opcode_step host buf st' = Undefined f ->
  forall fuel : nat,
    (Z.to_nat (len buf - cursor st) < fuel)%nat ->
    opcode_loop host buf fuel st = Undefined f.
Proof.
  intros Hr Hf. induction Hr as [st Hd|st st1 st2 Hd E Hr IH];
    intros fuel Hfuel; (destruct fuel as [|fuel]; [lia|]);
    cbn [opcode_loop]; rewrite Hd.
  - rewrite Hf. reflexivity.
  - rewrite E. cbn [mbind outcome_bind].
    assert (done st1 = false) as Hd1 by (inversion Hr; assumption).
    destruct (opcode_step_cases host buf st st1 E) as [Hd'|(_ & _ & ? & ?)];
      [congruence|].
    apply IH; [exact Hf|lia].
Qed.

Lemma reaches_inside (st st' : pict_state) (opcode p : Z) :
  reaches host buf st st' ->
  SDL_ReadBE16 buf (cursor st') = Ok (opcode, p) ->
  0 <= cursor st /\ cursor st + 2 <= len buf.
Proof.
  intros Hr Hread. destruct Hr as [st Hd|st st1 st2 Hd E Hr].
  - apply ReadBE16_Ok in Hread. lia.
  - assert (done st1 = false) as Hd1 by (inversion Hr; assumption).
    destruct (opcode_step_cases host buf st st1 E) as [Hd'|(_ & _ & ? & ?)];
      [congruence|lia].
Qed.

Lemma decode_truncated (st : pict_state) (opcode p : Z) (pm : pixmap)
    (p1 : Z) (s0 : SDL_Surface) (pal : option (list SDL_Color)) (p2 p3 : Z) :
  SDL_RWFromMem host buf = true ->
  reaches host buf (Pict 10 None false) st ->
  SDL_ReadBE16 buf (cursor st) = Ok (opcode, p) ->
  opcode = 0x0098 \/ opcode = 0x009a ->
  read_pixmap buf opcode p = Ok (pm, p1) ->
  SDL_CreateRGBSurface host (pm_width pm) (pm_height pm) (pm_pixel_size pm)
    (channel_masks (pm_pixel_size pm)) = Some s0 ->
  read_color_table buf opcode p1 (palette s0) = Ok (pal, p2) ->
  SDL_RWseek buf p2 18 = Ok p3 ->
  pixel_data_truncated host buf p3 (pm_row_bytes pm) (pm_pixel_size pm)
    (pm_height pm) (pm_pack_type pm) ->
  exists f, picture_to_surface host (Some buf) = Undefined f.
Proof.
  intros Hopen Hr Hread Hop Hpm Hs0 Hct Hseek Ht.
  destruct (RWseek_Ok buf p2 18 p3 Hseek) as [_ Hp3].
  destruct (uncompress_picture_truncated p3 (pm_row_bytes pm) (pixels s0) 0
              (pitch s0) (pm_pixel_size pm) (pm_height pm) (pm_pack_type pm)
              Hp3 Ht) as [f Hf].
  exists f.
  assert (opcode_step host buf st = Undefined f) as Hstep.
  { unfold opcode_step. rewrite Hread. cbn [mbind outcome_bind].
    assert (copy_bits host buf opcode p = Undefined f) as ->.
    { unfold copy_bits. rewrite Hpm. cbn [mbind outcome_bind].
      rewrite Hs0, Hct. cbn [mbind outcome_bind].
      rewrite Hseek. cbn [mbind outcome_bind]. rewrite Hf. reflexivity. }
    destruct Hop as [-> | ->]; reflexivity. }
  destruct (reaches_inside _ _ _ _ Hr Hread) as [_ Hlen]. cbn [cursor] in Hlen.
  unfold picture_to_surface. rewrite Hopen.
  rewrite (RWseek_inside buf 0 10) by lia.
  cbn [mbind outcome_bind]. change (0 + 10) with 10.
  rewrite (opcode_loop_fault _ _ f Hr Hstep); [reflexivity|].
  cbn [cursor]. unfold len in *. lia.
Qed.

End Truncated.

(** C1, as the code has it: the pixel data is read through a bare pointer
    and no bound is checked.  With the source pointer inside the resource,
    one call of [unpack_bits] on a scan line that is cut short (count
    prefix missing, or declaring more bytes than are left) runs into a read
    at the first offset past the end of the resource, unless a store
    outside the destination comes first; a call that returns has read from
    the start of the line to the end its count declares or further, all
    inside the resource; it never ends in a diagnostic and never loops
    without end.  [memcpy] of more bytes than are left runs into the same
    read, returns only when all bytes were there, and ends in no
    diagnostic.  [uncompress_picture] on pixel data that is cut short, on
    whichever path, ends in undefined behaviour, and its only diagnostic
    is the one for an unknown pack type, unless [byte_swap_memory] of the
    host has one.  And when the opcode loop comes to an image opcode
    whose header is read in full and whose pixel data is cut short, the
    undefined behaviour is the outcome of [picture_to_surface]: no
    [TruncatedInput] stops the decode. *)
Theorem pixel_data_unchecked (host : Host) (buf : list byte) :
  (forall le T s row_bytes d m,
     0 <= s <= len buf ->
     (line_truncated buf s row_bytes ->
      overrun buf (unpack_bits le T buf s row_bytes d m))
     /\ (forall st',
           unpack_bits le T buf s row_bytes d m = Ok st' ->
           exists count s',
             read_count buf s row_bytes = Ok (count, s')
             /\ s < s' /\ 0 <= count /\ s' + count <= src st' <= len buf)
     /\ (forall e, unpack_bits le T buf s row_bytes d m <> Fatal e)
     /\ unpack_bits le T buf s row_bytes d m <> OutOfFuel)
  /\ (forall pix d s n,
        0 <= s <= len buf ->
        (len buf < s + n -> overrun buf (memcpy buf pix d s n))
        /\ (forall pix', memcpy buf pix d s n = Ok pix' -> s + n <= len buf)
        /\ (forall e, memcpy buf pix d s n <> Fatal e))
  /\ (forall s row_bytes pix d dst_pitch depth height pack_type,
        0 <= s <= len buf ->
        pixel_data_truncated host buf s row_bytes depth height pack_type ->
        exists f,
          uncompress_picture host buf s row_bytes pix d dst_pitch depth
            height pack_type = Undefined f)
  /\ (forall s row_bytes pix d dst_pitch depth height pack_type e,
        uncompress_picture host buf s row_bytes pix d dst_pitch depth
          height pack_type = Fatal e ->
        (exists pt, e = UnimplementedPacking pt)
        \/ exists m d' f n, byte_swap_memory host m d' f n = Fatal e)
  /\ (forall st opcode p pm p1 s0 pal p2 p3,
        SDL_RWFromMem host buf = true ->
        reaches host buf (Pict 10 None false) st ->
        SDL_ReadBE16 buf (cursor st) = Ok (opcode, p) ->
        opcode = 0x0098 \/ opcode = 0x009a ->
        read_pixmap buf opcode p = Ok (pm, p1) ->
        SDL_CreateRGBSurface host (pm_width pm) (pm_height pm)
          (pm_pixel_size pm) (channel_masks (pm_pixel_size pm)) = Some s0 ->
        read_color_table buf opcode p1 (palette s0) = Ok (pal, p2) ->
        SDL_RWseek buf p2 18 = Ok p3 ->
        pixel_data_truncated host buf p3 (pm_row_bytes pm) (pm_pixel_size pm)
          (pm_height pm) (pm_pack_type pm) ->
        exists f, picture_to_surface host (Some buf) = Undefined f).
Proof.
  split; [|split; [|split; [|split]]].
  - intros le T s row_bytes d m Hs. split; [|split; [|split]].
    + apply unpack_bits_line_truncated, Hs.
    + intros st' E. unfold unpack_bits in E.
      destruct (read_count_edge buf s row_bytes Hs)
        as [(count & s' & Hc & Hs' & Hcount)|Hc]; rewrite Hc in E;
        [|discriminate].
      cbn [mbind outcome_bind] in E.
      exists count, s'. split; [exact Hc|].
      destruct (unpack_loop_cases le buf T (Z.to_nat count)
                  (UB s' count d m))
        as [(st1 & E1 & Hle & Hsum & Hin & _)|[Ho|(off & Ho)]];
        simpl in *; try lia; try congruence.
      replace st1 with st' in * by congruence.
      assert (s < s').
      { unfold read_count in Hc. destruct (250 <? row_bytes).
        - bind_inv Hc. injection Hc as _ <-. lia.
        - bind_inv Hc. injection Hc as _ <-. lia. }
      lia.
    + apply unpack_bits_no_fatal.
    + unfold unpack_bits.
      destruct (read_count_cases buf s row_bytes)
        as [(count & s' & ->)|(off & ->)]; simpl; [|discriminate].
      apply unpack_loop_fuel. simpl. lia.
  - intros pix d s n Hs. split; [|split].
    + intros Hn. apply memcpy_truncated; lia.
    + intros pix' E. unfold memcpy in E.
      destruct (Z.ltb_spec n 0); [discriminate|].
      destruct (memcpy_in_or_out buf pix d s n Hs ltac:(lia))
        as [(pix'' & _ & Hl)|[Ho|(off & Ho)]]; [exact Hl|..];
        unfold memcpy in Ho;
        (destruct (Z.ltb_spec n 0); [lia|congruence]).
    + apply memcpy_no_fatal.
  - intros. apply uncompress_picture_truncated; assumption.
  - intros. eapply uncompress_picture_fatal; eassumption.
  - intros. eapply decode_truncated; eassumption.
Qed.

(** The packed line of [pict_truncated] declares nine bytes where three
    are left. *)
Lemma pixel_data_unchecked_witness :
  exists f, picture_to_surface host_le (Some pict_truncated) = Undefined f.
Proof.
  eapply (proj2 (proj2 (proj2 (proj2
            (pixel_data_unchecked host_le pict_truncated))))
            (Pict 10 None false) 0x0098 12).
  - reflexivity.
  - apply reaches_here. reflexivity.
  - vm_compute. reflexivity.
  - left. reflexivity.
  - vm_compute. reflexivity.
  - vm_compute. reflexivity.
  - vm_compute. reflexivity.
  - vm_compute. reflexivity.
  - exists 0%nat. eexists. split; [vm_compute; lia|].
    split; [apply first_line|]. vm_compute. reflexivity.
Defined.

(** C2: the masks requested for the depths 8, 16 and 32 are the ones
    stated; for another depth the switch sets none, and the decode goes on
    all the same: [pict_depth24] comes back as a surface of depth 24 with
    its pixels copied in. *)
Theorem depth_not_checked :
  channel_masks 8 = Some (0xff, 0xff, 0xff)
  /\ channel_masks 16 = Some (0x7c00, 0x03e0, 0x001f)
  /\ channel_masks 32 = Some (0x00ff0000, 0x0000ff00, 0x000000ff)
  /\ channel_masks 24 = None
  /\ picture_to_surface host_le (Some pict_depth24)
     = Ok (Some (Surface 2 1 24 None 8
                   (bytes_of [1; 2; 3; 4; 5; 6; 0; 0]) None)).
Proof. repeat split; vm_compute; reflexivity. Qed.

Lemma uncompress_rle32_no_memory (host : Host) (buf : list byte)
    (s row_bytes : Z) (pix : list byte) (d dst_pitch height : Z) :
  malloc host row_bytes = None ->
  uncompress_rle32 host buf s row_bytes pix d dst_pitch height = Ok pix.
Proof. intros E. unfold uncompress_rle32. rewrite E. reflexivity. Qed.

(** C3: when [malloc] fails in the planar decompressor the decode does not
    fail.  On the host without memory [pict_planar] comes back as a surface
    whose pixels are the zero bytes it was allocated with, where the host
    with memory stores blue, green and red of each pixel. *)
Theorem planar_malloc_failure_unreported :
  picture_to_surface host_nomem (Some pict_planar)
  = Ok (Some (Surface 2 1 32 (Some (0x00ff0000, 0x0000ff00, 0x000000ff)) 8
                (replicate 8 x00) None))
  /\ picture_to_surface host_le (Some pict_planar)
     = Ok (Some (Surface 2 1 32 (Some (0x00ff0000, 0x0000ff00, 0x000000ff)) 8
                   (bytes_of [0x33; 0x22; 0x11; 0; 0x33; 0x22; 0x11; 0])
                   None)).
Proof. split; vm_compute; reflexivity. Qed.

(** ** The encoder *)

Lemma expand_cons_elt (v : Z) (ps : list packet) :
  flat_map expand (cons_elt v ps) = v :: flat_map expand ps.
Proof.
  destruct ps as [|[vs|n u] ps]; [reflexivity| |].
  - destruct vs as [|a [|b vs]]; try reflexivity.
    unfold cons_elt.
    destruct (Z.eqb_spec v a) as [<-|]; cbn [andb].
    + destruct (Z.eqb_spec v b) as [<-|].
      * destruct vs; reflexivity.
      * destruct (_ <? _)%nat; reflexivity.
    + destruct (_ <? _)%nat; reflexivity.
  - unfold cons_elt.
    destruct (Z.eqb_spec v u) as [<-|]; cbn [andb]; [|reflexivity].
    destruct (_ <? _)%nat; reflexivity.
Qed.

Lemma expand_pack_elts (line : list Z) :
  flat_map expand (pack_elts line) = line.
Proof.
  induction line as [|v line IH]; [reflexivity|].
  unfold pack_elts in *. simpl. rewrite expand_cons_elt, IH. reflexivity.
Qed.

Lemma literal_one_ok (T : elt) (v : Z) :
  in_range T v -> packet_ok T (Literal [v]).
Proof.
  intros Hv. split; [simpl; lia|]. constructor; [exact Hv|constructor].
Qed.

Lemma cons_elt_ok (T : elt) (v : Z) (ps : list packet) :
  in_range T v -> Forall (packet_ok T) ps ->
  Forall (packet_ok T) (cons_elt v ps).
Proof.
  intros Hv Hps.
  destruct ps as [|[vs|n u] ps].
  - constructor; [apply literal_one_ok, Hv|constructor].
  - apply Forall_cons in Hps as [[Hl Hvs] Hps].
    destruct vs as [|a [|b vs]].
    + simpl in Hl. lia.
    + constructor; [|exact Hps].
      split; [simpl; lia|]. constructor; [exact Hv|exact Hvs].
    + unfold cons_elt.
      destruct ((v =? a) && (v =? b)).
      * constructor; [split; [lia|exact Hv]|].
        destruct vs as [|c vs]; [exact Hps|].
        constructor; [|exact Hps].
        apply Forall_cons in Hvs as [_ Hvs].
        apply Forall_cons in Hvs as [_ Hvs].
        split; [simpl in *; lia|exact Hvs].
      * destruct (Nat.ltb_spec (length vs + 2) 128).
        -- constructor; [|exact Hps].
           split; [simpl in *; lia|]. constructor; [exact Hv|exact Hvs].
        -- constructor; [apply literal_one_ok, Hv|].
           constructor; [split; [exact Hl|exact Hvs]|exact Hps].
  - apply Forall_cons in Hps as [[Hn Hu] Hps].
    unfold cons_elt.
    destruct (Z.eqb_spec v u) as [<-|]; cbn [andb].
    + destruct (Nat.ltb_spec n 128).
      * constructor; [split; [lia|exact Hv]|exact Hps].
      * constructor; [apply literal_one_ok, Hv|].
        constructor; [split; [exact Hn|exact Hu]|exact Hps].
    + constructor; [apply literal_one_ok, Hv|].
      constructor; [split; [exact Hn|exact Hu]|exact Hps].
Qed.

Lemma pack_elts_ok (T : elt) (line : list Z) :
  Forall (in_range T) line -> Forall (packet_ok T) (pack_elts line).
Proof.
  induction 1 as [|v line Hv Hline IH]; [constructor|].
  unfold pack_elts in *. simpl. apply cons_elt_ok; assumption.
Qed.

Lemma units_pack_elts (line : list Z) :
  units (pack_elts line) = Z.of_nat (length line).
Proof.
  rewrite <- (expand_pack_elts line) at 2.
  induction (pack_elts line) as [|pk ps IH]; [reflexivity|].
  simpl. rewrite length_app, IH. lia.
Qed.

Lemma units_nonneg (ps : list packet) : 0 <= units ps.
Proof. induction ps as [|pk ps IH]; simpl; lia. Qed.

Lemma cons_elt_inv (T : elt) (v : Z) (ps : list packet) :
  pack_inv T ps -> pack_inv T (cons_elt v ps).
Proof.
  pose proof (sizeof_cases T) as Hw.
  destruct ps as [|[vs|n u] ps]; intros Hinv.
  - cbv [cons_elt pack_inv no_excess packed_len units].
    Z.div_mod_to_equations; lia.
  - pose proof (units_nonneg ps) as Hu.
    destruct vs as [|a [|b vs]]; [exact Hinv|exact Hinv|].
    unfold cons_elt.
    destruct ((v =? a) && (v =? b)).
    + unfold pack_inv, no_excess in *.
      destruct vs as [|c vs]; cbn [packed_len packet_len units expand length] in *;
        rewrite ?length_replicate; Z.div_mod_to_equations; lia.
    + destruct (Nat.ltb_spec (length vs + 2) 128); [exact Hinv|].
      unfold pack_inv, no_excess in *.
      cbn [packed_len packet_len units expand length] in *.
      Z.div_mod_to_equations; lia.
  - pose proof (units_nonneg ps) as Hu.
    unfold cons_elt.
    destruct ((v =? u) && (n <? 128)%nat); [|exact Hinv].
    unfold pack_inv, no_excess in *.
    cbn [packed_len packet_len units expand] in *.
    rewrite !length_replicate in *. Z.div_mod_to_equations; lia.
Qed.

Lemma pack_elts_inv (T : elt) (line : list Z) : pack_inv T (pack_elts line).
Proof.
  induction line as [|v line IH]; [exact I|].
  unfold pack_elts in *. simpl. apply cons_elt_inv, IH.
Qed.

Lemma pack_inv_bound (T : elt) (ps : list packet) :
  pack_inv T ps ->
  packed_len T ps <= sizeof T * units ps + units ps / 128 + 1.
Proof.
  pose proof (sizeof_cases T) as Hw.
  destruct ps as [|[vs|n u] ps]; unfold pack_inv, no_excess; intros Hinv.
  - cbn [packed_len units]. Z.div_mod_to_equations; lia.
  - pose proof (units_nonneg ps) as Hu.
    cbn [packed_len packet_len units expand] in *.
    Z.div_mod_to_equations; lia.
  - lia.
Qed.

Lemma packet_bytes_length (T : elt) (pk : packet) :
  Z.of_nat (length (packet_bytes T pk)) = packet_len T pk.
Proof.
  destruct pk as [vs|n v]; simpl.
  - induction vs as [|v vs IH]; simpl; [lia|].
    rewrite length_app. destruct T; simpl in *; lia.
  - destruct T; simpl; lia.
Qed.

Lemma packed_bytes_length (T : elt) (ps : list packet) :
  Z.of_nat (length (flat_map (packet_bytes T) ps)) = packed_len T ps.
Proof.
  induction ps as [|pk ps IH]; [reflexivity|].
  simpl. rewrite length_app, Nat2Z.inj_add, IH, packet_bytes_length.
  reflexivity.
Qed.

(** The packed line of the encoder fits the count in front of it: one byte
    up to 250 row bytes, two bytes up to the 16383 a PixMap can declare. *)
Lemma pack_elts_length (T : elt) (row_bytes : Z) (line : list Z) :
  sizeof T * Z.of_nat (length line) <= row_bytes <= 16383 ->
  0 <= packed_len T (pack_elts line)
     < (if 250 <? row_bytes then 65536 else 256).
Proof.
  intros Hr. pose proof (sizeof_cases T) as Hw.
  pose proof (pack_inv_bound T _ (pack_elts_inv T line)) as Hb.
  rewrite units_pack_elts in Hb.
  split; [rewrite <- packed_bytes_length; lia|].
  destruct (Z.ltb_spec 250 row_bytes); Z.div_mod_to_equations; lia.
Qed.

(** ** Unpacking what the encoder packed *)

Lemma Z_of_byte_of_small (z : Z) : 0 <= z < 256 -> Z_of_byte (byte_of_Z z) = z.
Proof. intros Hz. rewrite Z_of_byte_of_Z. apply Z.mod_small, Hz. Qed.

Lemma lookup_bytes_middle (pre rest : list Z) (x i : Z) :
  i = Z.of_nat (length pre) ->
  bytes_of (pre ++ x :: rest) !! Z.to_nat i = Some (byte_of_Z x).
Proof.
  intros ->. rewrite Nat2Z.id. unfold bytes_of.
  rewrite list_lookup_fmap, list_lookup_middle by reflexivity. reflexivity.
Qed.

Lemma elt_at_be_bytes (T : elt) (pre rest : list Z) (v i : Z) :
  in_range T v -> i = Z.of_nat (length pre) ->
  elt_at T (bytes_of (pre ++ be_bytes T v ++ rest)) i = Some v.
Proof.
  unfold in_range, elt_at. intros Hv Hi. destruct T; simpl in Hv |- *.
  - rewrite (lookup_bytes_middle pre rest v i Hi). simpl.
    rewrite Z_of_byte_of_small by lia. reflexivity.
  - rewrite (lookup_bytes_middle pre _ _ i Hi). simpl.
    replace (pre ++ v / 256 :: v mod 256 :: rest)
      with ((pre ++ [v / 256]) ++ v mod 256 :: rest)
      by (rewrite <- app_assoc; reflexivity).
    rewrite (lookup_bytes_middle (pre ++ [v / 256]) rest _ (i + 1))
      by (rewrite length_app; simpl; lia).
    simpl. rewrite !Z_of_byte_of_small by (Z.div_mod_to_equations; lia).
    f_equal. Z.div_mod_to_equations; lia.
Qed.

Lemma be_bytes_length (T : elt) (v : Z) :
  Z.of_nat (length (be_bytes T v)) = sizeof T.
Proof. destruct T; reflexivity. Qed.

Lemma elts_at_be_bytes (T : elt) (vs : list Z) (pre rest : list Z) (i : Z) :
  Forall (in_range T) vs -> i = Z.of_nat (length pre) ->
  elts_at T (bytes_of (pre ++ flat_map (be_bytes T) vs ++ rest)) i (length vs)
  = Some vs.
Proof.
  intros Hvs. revert pre i.
  induction Hvs as [|v vs Hv Hvs IH]; intros pre i Hi; [reflexivity|].
  cbn [elts_at flat_map length]. rewrite <- app_assoc.
  rewrite (elt_at_be_bytes T pre _ v i Hv Hi). cbn [mbind option_bind].
  rewrite app_assoc.
  rewrite (IH (pre ++ be_bytes T v) (i + sizeof T)).
  - reflexivity.
  - rewrite length_app, Nat2Z.inj_add, be_bytes_length. lia.
Qed.

Lemma packet_len_pos (T : elt) (pk : packet) :
  packet_ok T pk -> 2 <= packet_len T pk.
Proof.
  pose proof (sizeof_cases T). destruct pk as [vs|n v]; simpl; intros [Hl _]; nia.
Qed.

Lemma packed_len_packets (T : elt) (ps : list packet) :
  Forall (packet_ok T) ps -> Z.of_nat (length ps) <= packed_len T ps.
Proof.
  induction 1 as [|pk ps Hpk Hps IH]; simpl; [lia|].
  pose proof (packet_len_pos T pk Hpk). lia.
Qed.

Section RoundTrip.

Variable le : bool.
Variable T : elt.

(** One iteration of the loop takes one packet of the file and stores the
    elements it stands for. *)
Lemma unpack_step_packet (pre rest : list Z) (pk : packet) (st : ub_state) :
  packet_ok T pk ->
  src st = Z.of_nat (length pre) ->
  0 <= dst st ->
  dst st + sizeof T * Z.of_nat (length (expand pk)) <= len (mem st) ->
  unpack_step le T (bytes_of (pre ++ packet_bytes T pk ++ rest)) st
  = Ok (UB (src st + packet_len T pk) (src_count st - packet_len T pk)
          (dst st + sizeof T * Z.of_nat (length (expand pk)))
          (splice (mem st) (dst st) (host_bytes le T (expand pk)))).
Proof.
  intros Hok Hsrc Hd Hroom.
  destruct pk as [vs|n v]; destruct Hok as [Hl Hv]; cbn [packet_bytes expand] in *.
  - set (c := Z.of_nat (length vs) - 1).
    assert (Hc : int8 (Z_of_byte (byte_of_Z c)) = c).
    { rewrite Z_of_byte_of_small by lia. unfold int8.
      destruct (Z.leb_spec 128 c); lia. }
    rewrite (unpack_step_literal le _ T st (byte_of_Z c) vs).
    + rewrite Hc. unfold packet_len, c. f_equal. f_equal; lia.
    + lia.
    + apply lookup_bytes_middle, Hsrc.
    + lia.
    + rewrite Hc. replace (Z.to_nat (c + 1)) with (length vs) by lia.
      replace (pre ++ (c :: flat_map (be_bytes T) vs) ++ rest)
        with ((pre ++ [c]) ++ flat_map (be_bytes T) vs ++ rest)
        by (rewrite <- app_assoc; reflexivity).
      apply elts_at_be_bytes; [exact Hv|].
      rewrite length_app. simpl. lia.
    + exact Hd.
    + rewrite Hc. lia.
  - rewrite length_replicate in *.
    set (c := 257 - Z.of_nat n).
    assert (Hc : int8 (Z_of_byte (byte_of_Z c)) = 1 - Z.of_nat n).
    { rewrite Z_of_byte_of_small by lia. unfold int8.
      destruct (Z.leb_spec 128 c); lia. }
    rewrite (unpack_step_repeat le _ T st (byte_of_Z c) v).
    + rewrite Hc. unfold packet_len.
      replace (Z.to_nat (- (1 - Z.of_nat n) + 1)) with n by lia.
      f_equal. f_equal; lia.
    + lia.
    + apply lookup_bytes_middle, Hsrc.
    + lia.
    + replace (pre ++ (c :: be_bytes T v) ++ rest)
        with ((pre ++ [c]) ++ be_bytes T v ++ rest)
        by (rewrite <- app_assoc; reflexivity).
      apply elt_at_be_bytes; [exact Hv|].
      rewrite length_app. simpl. lia.
    + exact Hd.
    + rewrite Hc. lia.
Qed.

(** The loop takes the packets one after the other and stops behind the
    last one, with the count used up. *)
Lemma unpack_loop_packets (ps : list packet) (pre rest : list Z)
    (st : ub_state) (fuel : nat) :
  Forall (packet_ok T) ps ->
  src st = Z.of_nat (length pre) ->
  src_count st = packed_len T ps ->
  (length ps <= fuel)%nat ->
  0 <= dst st ->
  dst st + sizeof T * units ps <= len (mem st) ->
  unpack_loop le T (bytes_of (pre ++ flat_map (packet_bytes T) ps ++ rest))
    fuel st
  = Ok (UB (src st + packed_len T ps) 0 (dst st + sizeof T * units ps)
          (splice (mem st) (dst st) (host_bytes le T (flat_map expand ps)))).
Proof.
  intros Hps. revert pre st fuel.
  induction Hps as [|pk ps Hpk Hps IH]; intros pre st fuel Hsrc Hcnt Hf Hd Hroom.
  - simpl in *. destruct fuel; cbn [unpack_loop]; rewrite Hcnt; simpl;
      rewrite splice_nil, Z.mul_0_r, !Z.add_0_r; destruct st; simpl in *;
      subst; reflexivity.
  - pose proof (packet_len_pos T pk Hpk) as Hpos.
    pose proof (packed_len_packets T ps Hps) as Hlen.
    pose proof (units_nonneg ps) as Hu.
    pose proof (sizeof_cases T) as Hw.
    cbn [packed_len units flat_map length] in *.
    destruct fuel as [|fuel]; [lia|].
    cbn [unpack_loop].
    replace (0 <? src_count st) with true by (symmetry; apply Z.ltb_lt; lia).
    rewrite <- (app_assoc (packet_bytes T pk)).
    rewrite unpack_step_packet; [|assumption|assumption|assumption|nia].
    cbn [mbind outcome_bind].
    rewrite (app_assoc pre).
    rewrite IH; cbn [src src_count dst mem].
    + assert (Hl : len (host_bytes le T (expand pk))
                   = sizeof T * Z.of_nat (length (expand pk)))
        by apply host_bytes_length.
      f_equal. f_equal; [lia|lia|].
      rewrite <- Hl. rewrite splice_app by lia.
      rewrite <- host_bytes_app. reflexivity.
    + rewrite length_app, Nat2Z.inj_add, packet_bytes_length. lia.
    + lia.
    + lia.
    + lia.
    + rewrite splice_length; [nia|lia|rewrite host_bytes_length; nia].
Qed.

End RoundTrip.

Lemma read_count_prefix (row_bytes n : Z) (body : list Z) :
  0 <= n < (if 250 <? row_bytes then 65536 else 256) ->
  read_count
    (bytes_of ((if 250 <? row_bytes then [n / 256; n mod 256] else [n]) ++ body))
    0 row_bytes
  = Ok (n, if 250 <? row_bytes then 2 else 1).
Proof.
  intros Hn. unfold read_count. destruct (250 <? row_bytes).
  - rewrite (peek_lookup _ 0 (byte_of_Z (n / 256))) by (lia || reflexivity).
    cbn [mbind outcome_bind].
    rewrite (peek_lookup _ (0 + 1) (byte_of_Z (n mod 256)))
      by (lia || reflexivity).
    cbn [mbind outcome_bind].
    rewrite !Z_of_byte_of_small by (Z.div_mod_to_equations; lia).
    rewrite be16_assemble by (Z.div_mod_to_equations; lia).
    do 2 f_equal. Z.div_mod_to_equations; lia.
  - rewrite (peek_lookup _ 0 (byte_of_Z n)) by (lia || reflexivity).
    cbn [mbind outcome_bind]. rewrite Z_of_byte_of_small by lia. reflexivity.
Qed.

Lemma lookup_middle_byte (pre rest : list byte) (x : byte) (i : Z) :
  i = len pre -> (pre ++ x :: rest) !! Z.to_nat i = Some x.
Proof.
  intros ->. unfold len. rewrite Nat2Z.id. apply list_lookup_middle. reflexivity.
Qed.

Lemma host_elt_at_bytes (le : bool) (T : elt) (pre rest : list byte)
    (v i : Z) :
  in_range T v -> i = len pre ->
  host_elt_at le T (pre ++ bytes_of (elt_bytes le T v) ++ rest) i = Some v.
Proof.
  unfold in_range, host_elt_at. intros Hv Hi. destruct T; simpl in Hv |- *.
  - rewrite (lookup_middle_byte pre rest _ i Hi). simpl.
    rewrite Z_of_byte_of_Z. f_equal. Z.div_mod_to_equations; lia.
  - destruct le; simpl.
    + rewrite (lookup_middle_byte pre _ _ i Hi). simpl.
      replace (pre ++ byte_of_Z (v mod 256) :: byte_of_Z (v / 256 mod 256) :: rest)
        with ((pre ++ [byte_of_Z (v mod 256)])
              ++ byte_of_Z (v / 256 mod 256) :: rest)
        by (rewrite <- app_assoc; reflexivity).
      rewrite (lookup_middle_byte _ rest _ (i + 1))
        by (rewrite len_app; unfold len in *; simpl; lia).
      simpl. rewrite !Z_of_byte_of_Z. f_equal. Z.div_mod_to_equations; lia.
    + rewrite (lookup_middle_byte pre _ _ i Hi). simpl.
      replace (pre ++ byte_of_Z (v / 256 mod 256) :: byte_of_Z (v mod 256) :: rest)
        with ((pre ++ [byte_of_Z (v / 256 mod 256)])
              ++ byte_of_Z (v mod 256) :: rest)
        by (rewrite <- app_assoc; reflexivity).
      rewrite (lookup_middle_byte _ rest _ (i + 1))
        by (rewrite len_app; unfold len in *; simpl; lia).
      simpl. rewrite !Z_of_byte_of_Z. f_equal. Z.div_mod_to_equations; lia.
Qed.

Lemma host_elts_at_bytes (le : bool) (T : elt) (vs : list Z)
    (pre rest : list byte) (i : Z) :
  Forall (in_range T) vs -> i = len pre ->
  host_elts_at le T (pre ++ host_bytes le T vs ++ rest) i (length vs)
  = Some vs.
Proof.
  intros Hvs. revert pre i.
  induction Hvs as [|v vs Hv Hvs IH]; intros pre i Hi; [reflexivity|].
  cbn [host_elts_at length]. rewrite host_bytes_cons, <- app_assoc.
  rewrite (host_elt_at_bytes le T pre _ v i Hv Hi). cbn [mbind option_bind].
  rewrite app_assoc.
  rewrite (IH (pre ++ bytes_of (elt_bytes le T v)) (i + sizeof T)).
  - reflexivity.
  - rewrite len_app. unfold len at 2.
    rewrite bytes_of_length, elt_bytes_length. lia.
Qed.

(** The elements stored by a splice are the ones the host reads back. *)
Lemma host_elts_at_splice (le : bool) (T : elt) (vs : list Z)
    (m : list byte) (d : Z) :
  Forall (in_range T) vs -> 0 <= d ->
  d + sizeof T * Z.of_nat (length vs) <= len m ->
  host_elts_at le T (splice m d (host_bytes le T vs)) d (length vs) = Some vs.
Proof.
  intros Hvs Hd Hroom. unfold splice.
  apply host_elts_at_bytes; [exact Hvs|].
  pose proof (sizeof_cases T). unfold len in *. rewrite length_take. nia.
Qed.

(** A line framed behind its count is unpacked to the elements its packets
    stand for, whatever encoder chose the packets. *)
Lemma unpack_bits_frame_line (le : bool) (T : elt) (ps : list packet)
    (row_bytes d : Z) (m : list byte) :
  Forall (packet_ok T) ps ->
  packed_len T ps < (if 250 <? row_bytes then 65536 else 256) ->
  0 <= d ->
  d + sizeof T * units ps <= len m ->
  unpack_bits le T (frame_line T row_bytes ps) 0 row_bytes d m
  = Ok (UB (len (frame_line T row_bytes ps)) 0 (d + sizeof T * units ps)
          (splice m d (host_bytes le T (flat_map expand ps)))).
Proof.
  intros Hok Hfit Hd Hroom.
  pose proof (packed_len_packets T ps Hok) as Hlen.
  unfold unpack_bits, frame_line.
  rewrite packed_bytes_length.
  rewrite read_count_prefix by lia. cbn [mbind outcome_bind].
  set (pre := if 250 <? row_bytes then _ else _).
  assert (Hpre : Z.of_nat (length pre) = if 250 <? row_bytes then 2 else 1).
  { unfold pre. destruct (250 <? row_bytes); reflexivity. }
  assert (Hbuf : bytes_of (pre ++ flat_map (packet_bytes T) ps)
                 = bytes_of (pre ++ flat_map (packet_bytes T) ps ++ []))
    by (rewrite app_nil_r; reflexivity).
  rewrite Hbuf.
  rewrite (unpack_loop_packets le T ps pre []); cbn [src src_count dst mem].
  - rewrite <- Hbuf. unfold len. rewrite bytes_of_length, length_app.
    rewrite Nat2Z.inj_add, packed_bytes_length, Hpre. reflexivity.
  - exact Hok.
  - symmetry. exact Hpre.
  - reflexivity.
  - lia.
  - exact Hd.
  - exact Hroom.
Qed.

Lemma units_expand (ps : list packet) :
  units ps = Z.of_nat (length (flat_map expand ps)).
Proof.
  induction ps as [|pk ps IH]; [reflexivity|].
  simpl. rewrite length_app, IH. lia.
Qed.

(** C9: the round trip.  A scan line of elements of one or two bytes, of no
    more bytes than the row bytes a PixMap can declare, packed by a PackBits
    encoder behind its length prefix (two bytes big-endian above 250 row
    bytes, one byte otherwise), is unpacked by [unpack_bits] to the line
    itself: the unpacker returns at the end of the packed line with the
    count used up, the destination holds the elements of the line in the
    byte order of the host, and the host reads the line back from it.  This
    holds for the encoder [pack_line], and for every choice of well-formed
    packets that stand for the line and fit the count. *)
Theorem pack_line_round_trip (le : bool) (T : elt) (line : list Z)
    (row_bytes d : Z) (m : list byte) :
  Forall (in_range T) line ->
  sizeof T * Z.of_nat (length line) <= row_bytes <= 16383 ->
  0 <= d ->
  d + sizeof T * Z.of_nat (length line) <= len m ->
  let unpacked packed m' :=
    unpack_bits le T packed 0 row_bytes d m
    = Ok (UB (len packed) 0 (d + sizeof T * Z.of_nat (length line)) m') in
  let m' := splice m d (host_bytes le T line) in
  unpacked (pack_line T row_bytes line) m'
  /\ host_elts_at le T m' d (length line) = Some line
  /\ (forall ps,
        Forall (packet_ok T) ps ->
        flat_map expand ps = line ->
        packed_len T ps < (if 250 <? row_bytes then 65536 else 256) ->
        unpacked (frame_line T row_bytes ps) m').
Proof.
  intros Hline Hrow Hd Hroom unpacked m'. unfold unpacked, m'.
  split; [|split].
  - pose proof (pack_elts_length T row_bytes line Hrow) as Hfit.
    unfold pack_line.
    rewrite unpack_bits_frame_line.
    + rewrite units_pack_elts, expand_pack_elts. reflexivity.
    + apply pack_elts_ok, Hline.
    + lia.
    + exact Hd.
    + rewrite units_pack_elts. exact Hroom.
  - apply host_elts_at_splice; assumption.
  - intros ps Hok Hps Hfit.
    rewrite unpack_bits_frame_line; try assumption.
    + rewrite units_expand, Hps. reflexivity.
    + rewrite units_expand, Hps. exact Hroom.
Qed.

(** A line of four 16-bit elements with a run of three, on a big-endian
    host: the packed line is [06 fe 01 2c 00 00 09], and unpacking it stores
    the four elements. *)
Lemma pack_line_round_trip_witness :
  unpack_bits false U16 (pack_line U16 8 [300; 300; 300; 9]) 0 8 0
    (replicate 8 x00)
  = Ok (UB 7 0 8 (bytes_of [1; 44; 1; 44; 1; 44; 0; 9]))
  /\ host_elts_at false U16 (bytes_of [1; 44; 1; 44; 1; 44; 0; 9]) 0 4
     = Some [300; 300; 300; 9].
Proof.
  pose proof (pack_line_round_trip false U16 [300; 300; 300; 9] 8 0
                (replicate 8 x00)
                ltac:(repeat constructor; vm_compute; discriminate)
                ltac:(vm_compute; split; discriminate)
                ltac:(lia)
                ltac:(vm_compute; discriminate)) as (Hpack & Hread & _).
  split; [exact Hpack|exact Hread].
Defined.

(** ** The decoder on the resources above *)

(** The 2 by 2 indexed picture: width, height and depth as declared, the two
    palette entries at their indices and black elsewhere, the four pixel
    bytes copied in; the unknown opcode after the end-of-picture opcode is
    never looked at. *)
Example decode_pict_indexed :
  exists s,
    picture_to_surface host_le (Some pict_indexed) = Ok (Some s)
    /\ (surf_w s, surf_h s, BitsPerPixel s) = (2, 2, 8)
    /\ masks s = Some (0xff, 0xff, 0xff)
    /\ palette s
       = Some (RGB 0xff 0xff 0xff :: RGB 0x12 0x56 0x9a
               :: replicate 254 (RGB 0 0 0))
    /\ take 4 (pixels s) = bytes_of [0; 1; 1; 0].
Proof. eexists. repeat split; vm_compute; reflexivity. Qed.

(** The end-of-picture opcode alone: no surface, whatever follows. *)
Example decode_pict_empty :
  picture_to_surface host_le (Some pict_empty) = Ok None.
Proof. vm_compute. reflexivity. Qed.

(** An opcode outside the recognised set ends the decode in the diagnostic
    for it. *)
Example decode_unknown_opcode :
  picture_to_surface host_le (Some (bytes_of (replicate 10 0 ++ [0xde; 0xad])))
  = Fatal (UnimplementedOpcode 0xdead).
Proof. vm_compute. reflexivity. Qed.

(** A resource that is not loaded, or no stream for it: [NULL]. *)
Example decode_not_loaded (host : Host) :
  picture_to_surface host None = Ok None.
Proof. reflexivity. Qed.

(** * Further properties of the decoder *)

(** ** What [unpack_bits] stores *)

Lemma wrote_refl (m : list byte) (d : Z) : wrote m d m d.
Proof.
  exists []. unfold len. simpl. rewrite splice_nil. auto with lia.
Qed.

Lemma len_nil : len [] = 0.
Proof. reflexivity. Qed.

Lemma wrote_trans (m m1 m2 : list byte) (d d1 d2 : Z) :
  wrote m d m1 d1 -> wrote m1 d1 m2 d2 -> wrote m d m2 d2.
Proof.
  intros (a & -> & -> & Ha) (b & -> & -> & Hb).
  destruct Ha as [->|[Hd Ha]].
  { rewrite splice_nil, len_nil, Z.add_0_r in *. exists b. auto. }
  destruct Hb as [->|[_ Hb]].
  { rewrite splice_nil, len_nil, Z.add_0_r. exists a. auto. }
  rewrite splice_length in Hb by lia.
  exists (a ++ b). rewrite len_app, splice_app by lia.
  split; [lia|]. split; [reflexivity|]. right. lia.
Qed.

Lemma wrote_length (m m' : list byte) (d d' : Z) :
  wrote m d m' d' -> len m' = len m /\ d <= d'.
Proof.
  intros (bs & -> & -> & [->|[Hd Hb]]).
  - rewrite splice_nil, len_nil. lia.
  - rewrite splice_length by lia. unfold len. lia.
Qed.

Lemma lookup_splice_outside (m : list byte) (d : Z) (bs : list byte) (j : nat) :
  0 <= d -> d + len bs <= len m ->
  (Z.of_nat j < d \/ d + len bs <= Z.of_nat j) ->
  splice m d bs !! j = m !! j.
Proof.
  unfold splice, len. intros Hd Hb Hj.
  destruct Hj as [Hj|Hj].
  - rewrite lookup_app_l by (rewrite length_take; lia).
    apply lookup_take_lt. lia.
  - rewrite lookup_app_r by (rewrite length_take; lia).
    rewrite lookup_app_r by (rewrite length_take; lia).
    rewrite lookup_drop, length_take. f_equal. lia.
Qed.

Lemma wrote_outside (m m' : list byte) (d d' : Z) (j : nat) :
  wrote m d m' d' -> Z.of_nat j < d \/ d' <= Z.of_nat j -> m' !! j = m !! j.
Proof.
  intros (bs & -> & -> & [->|[Hd Hb]]) Hj.
  - rewrite splice_nil. reflexivity.
  - apply lookup_splice_outside; lia.
Qed.

Lemma poke_bytes_inside (bs : list Z) (m m' : list byte) (i : Z) :
  poke_bytes m i bs = Ok m' ->
  bs = [] \/ (0 <= i /\ i + Z.of_nat (length bs) <= len m).
Proof.
  revert m i. induction bs as [|b bs IH]; intros m i; [auto|].
  right. simpl in H. unfold poke in H.
  destruct (Z.leb_spec 0 i), (Z.ltb_spec i (len m)); simpl in H;
    try discriminate.
  apply IH in H as [->|[_ H]]; [simpl; lia|].
  unfold len in H. rewrite length_insert in H. simpl. unfold len. lia.
Qed.

Lemma poke_bytes_wrote (bs : list Z) (m m' : list byte) (i : Z) :
  poke_bytes m i bs = Ok m' -> wrote m i m' (i + Z.of_nat (length bs)).
Proof.
  intros H. pose proof (poke_bytes_inside bs m m' i H) as Hin.
  exists (bytes_of bs). unfold len at 1. rewrite bytes_of_length.
  split; [reflexivity|].
  destruct Hin as [->|[Hi Hb]].
  - simpl in H. injection H as <-. rewrite splice_nil. auto.
  - rewrite poke_bytes_splice in H by lia. injection H as <-.
    split; [reflexivity|]. right. lia.
Qed.

Section Stores.

Variable le : bool.
Variable buf : list byte.

Lemma write_T_wrote (T : elt) (st st' : ub_state) (v : Z) :
  write_T le T st v = Ok st' ->
  src st' = src st /\ src_count st' = src_count st
  /\ wrote (mem st) (dst st) (mem st') (dst st').
Proof.
  unfold write_T. intros H. apply bind_Ok in H as (m' & E & H).
  injection H as <-. simpl. apply poke_bytes_wrote in E.
  rewrite elt_bytes_length in E. auto.
Qed.

Lemma fill_run_wrote (T : elt) (n : nat) (v : Z) (st st' : ub_state) :
  fill_run le T n v st = Ok st' ->
  wrote (mem st) (dst st) (mem st') (dst st').
Proof.
  revert st. induction n as [|n IH]; intros st H.
  - injection H as <-. apply wrote_refl.
  - cbn [fill_run] in H. apply bind_Ok in H as (st1 & E & H).
    apply write_T_wrote in E as (_ & _ & E).
    eapply wrote_trans; [exact E|]. apply IH, H.
Qed.

Lemma read_T_keeps (T : elt) (st st' : ub_state) (v : Z) :
  read_T T buf st = Ok (v, st') -> mem st' = mem st /\ dst st' = dst st.
Proof.
  unfold read_T. destruct T; intros H; bind_inv H; injection H as <- <-; auto.
Qed.

Lemma copy_run_wrote (T : elt) (n : nat) (st st' : ub_state) :
  copy_run le T buf n st = Ok st' ->
  wrote (mem st) (dst st) (mem st') (dst st').
Proof.
  revert st. induction n as [|n IH]; intros st H.
  - injection H as <-. apply wrote_refl.
  - cbn [copy_run] in H. apply bind_Ok in H as ([v st1] & E1 & H).
    cbv beta iota in H. apply bind_Ok in H as (st2 & E2 & H).
    apply read_T_keeps in E1 as [Hm Hd].
    apply write_T_wrote in E2 as (_ & _ & E2). rewrite Hm, Hd in E2.
    eapply wrote_trans; [exact E2|]. apply IH, H.
Qed.

Lemma unpack_step_wrote (T : elt) (st st' : ub_state) :
  unpack_step le T buf st = Ok st' ->
  wrote (mem st) (dst st) (mem st') (dst st').
Proof.
  unfold unpack_step. intros H. apply bind_Ok in H as (b & _ & H).
  cbv zeta in H. destruct (int8 b <? 0).
  - apply bind_Ok in H as ([v st2] & E & H). cbv beta iota in H.
    apply read_T_keeps in E as [Hm Hd]. simpl in Hm, Hd.
    apply fill_run_wrote in H. rewrite Hm, Hd in H. exact H.
  - apply copy_run_wrote in H. exact H.
Qed.

Lemma unpack_loop_wrote (T : elt) (fuel : nat) (st st' : ub_state) :
  unpack_loop le T buf fuel st = Ok st' ->
  wrote (mem st) (dst st) (mem st') (dst st').
Proof.
  revert st. induction fuel as [|fuel IH]; intros st; cbn [unpack_loop].
  - destruct (0 <? src_count st); [discriminate|].
    intros [= <-]. apply wrote_refl.
  - destruct (0 <? src_count st).
    + intros H. apply bind_Ok in H as (st1 & E & H).
      eapply wrote_trans; [eapply unpack_step_wrote, E|]. apply IH, H.
    + intros [= <-]. apply wrote_refl.
Qed.

Lemma unpack_bits_wrote (T : elt) (s row_bytes d : Z) (m : list byte)
    (st' : ub_state) :
  unpack_bits le T buf s row_bytes d m = Ok st' ->
  wrote m d (mem st') (dst st').
Proof.
  unfold unpack_bits. intros H. apply bind_Ok in H as ([count s'] & _ & H).
  cbv beta iota in H. apply unpack_loop_wrote in H. exact H.
Qed.

End Stores.

(** X1: what [unpack_bits] stores.  When it returns, the destination object
    has the length it had, the pointer has not moved back, every byte below
    the pointer it was given and every byte from the pointer it returns on
    is as it was, and the bytes in between are the ones stored. *)
Theorem unpack_bits_stores_one_span (le : bool) (T : elt) (buf : list byte)
    (s row_bytes d : Z) (m : list byte) (st' : ub_state) :
  unpack_bits le T buf s row_bytes d m = Ok st' ->
  len (mem st') = len m
  /\ d <= dst st'
  /\ (exists bs, len bs = dst st' - d /\ mem st' = splice m d bs)
  /\ (forall j : nat, Z.of_nat j < d \/ dst st' <= Z.of_nat j ->
        mem st' !! j = m !! j).
Proof.
  intros H. apply unpack_bits_wrote in H.
  destruct (wrote_length _ _ _ _ H) as [Hl Hd].
  split; [exact Hl|]. split; [exact Hd|]. split.
  - destruct H as (bs & E & -> & _). exists bs. split; [lia|reflexivity].
  - intros j Hj. eapply wrote_outside; eassumption.
Qed.

Lemma unpack_bits_stores_one_span_witness :
  len (bytes_of [0; 0; 7; 7; 7; 0; 0]) = len (replicate 7 x00) /\ 2 <= 5.
Proof.
  pose proof (unpack_bits_stores_one_span true U8 (bytes_of [2; 254; 7]) 0 8 2
                (replicate 7 x00) (UB 3 0 5 (bytes_of [0; 0; 7; 7; 7; 0; 0]))
                eq_refl) as (Hl & Hd & _).
  split; [exact Hl|exact Hd].
Defined.

(** ** Bytes after the picture *)

(** One operation of a sequence that returned, done again on a longer
    resource by the lemma [lem]. *)
Ltac bind_mono lem :=
  match goal with
  | H : _ ≫= _ = Ok _ |- _ =>
      let a := fresh "a" in
      let E := fresh "E" in
      apply bind_Ok in H as (a & E & H);
      apply lem in E; rewrite E; clear E;
      cbn [mbind outcome_bind];
      try match type of a with (_ * _)%type => destruct a end;
      cbv beta iota in H |- *
  end.

Section TrailingBytes.

Variable host : Host.
Variable buf extra : list byte.

Lemma peek_app (i v : Z) :
  peek buf i = Ok v -> peek (buf ++ extra) i = Ok v.
Proof.
  destruct (peek_cases buf i) as [(b & Hi & Hb & ->)|[_ ->]]; [|discriminate].
  intros [= <-]. apply peek_lookup; [lia|].
  apply lookup_app_l_Some, Hb.
Qed.

Lemma read_T_app (T : elt) (st : ub_state) (r : Z * ub_state) :
  read_T T buf st = Ok r -> read_T T (buf ++ extra) st = Ok r.
Proof.
  unfold read_T. intros H. destruct T; repeat bind_mono peek_app; exact H.
Qed.

Lemma copy_run_app (le : bool) (T : elt) (n : nat) (st st' : ub_state) :
  copy_run le T buf n st = Ok st' -> copy_run le T (buf ++ extra) n st = Ok st'.
Proof.
  revert st. induction n as [|n IH]; intros st H; [exact H|].
  cbn [copy_run] in *. bind_mono read_T_app.
  apply bind_Ok in H as (st2 & -> & H). cbn [mbind outcome_bind].
  apply IH, H.
Qed.

Lemma unpack_step_app (le : bool) (T : elt) (st st' : ub_state) :
  unpack_step le T buf st = Ok st' ->
  unpack_step le T (buf ++ extra) st = Ok st'.
Proof.
  unfold unpack_step. intros H. bind_mono peek_app. cbv zeta in *.
  destruct (int8 a <? 0).
  - bind_mono read_T_app. exact H.
  - apply copy_run_app, H.
Qed.

Lemma unpack_loop_app (le : bool) (T : elt) (fuel : nat) (st st' : ub_state) :
  unpack_loop le T buf fuel st = Ok st' ->
  unpack_loop le T (buf ++ extra) fuel st = Ok st'.
Proof.
  revert st. induction fuel as [|fuel IH]; intros st H; [exact H|].
  cbn [unpack_loop] in *. destruct (0 <? src_count st); [|exact H].
  bind_mono unpack_step_app. apply IH, H.
Qed.

Lemma read_count_app (s row_bytes : Z) (r : Z * Z) :
  read_count buf s row_bytes = Ok r ->
  read_count (buf ++ extra) s row_bytes = Ok r.
Proof.
  unfold read_count. intros H.
  destruct (250 <? row_bytes); repeat bind_mono peek_app; exact H.
Qed.

Lemma unpack_bits_app (le : bool) (T : elt) (s row_bytes d : Z)
    (m : list byte) (st' : ub_state) :
  unpack_bits le T buf s row_bytes d m = Ok st' ->
  unpack_bits le T (buf ++ extra) s row_bytes d m = Ok st'.
Proof.
  unfold unpack_bits. intros H. bind_mono read_count_app.
  apply unpack_loop_app, H.
Qed.

Lemma rle_rows_app (T : elt) (height : nat) (s row_bytes d dst_pitch : Z)
    (pix pix' : list byte) :
  rle_rows host buf T height s row_bytes d dst_pitch pix = Ok pix' ->
  rle_rows host (buf ++ extra) T height s row_bytes d dst_pitch pix = Ok pix'.
Proof.
  revert s d pix. induction height as [|n IH]; intros s d pix H; [exact H|].
  cbn [rle_rows] in *. bind_mono unpack_bits_app. apply IH, H.
Qed.

Lemma rle32_rows_app (height : nat) (s row_bytes : Z) (tmp : list byte)
    (width d dst_pitch : Z) (pix pix' : list byte) :
  rle32_rows host buf height s row_bytes tmp width d dst_pitch pix = Ok pix' ->
  rle32_rows host (buf ++ extra) height s row_bytes tmp width d dst_pitch pix
  = Ok pix'.
Proof.
  revert s tmp d pix. induction height as [|n IH]; intros s tmp d pix H;
    [exact H|].
  cbn [rle32_rows] in *. bind_mono unpack_bits_app. cbv zeta in *.
  do 3 (apply bind_Ok in H as (? & -> & H); cbn [mbind outcome_bind]).
  apply IH, H.
Qed.

Lemma memcpy_app (pix : list byte) (d s n : Z) (pix' : list byte) :
  memcpy buf pix d s n = Ok pix' -> memcpy (buf ++ extra) pix d s n = Ok pix'.
Proof.
  unfold memcpy. destruct (n <? 0); [discriminate|].
  generalize (Z.to_nat n) as k. intros k. revert pix d s.
  induction k as [|k IH]; intros pix d s H; [exact H|].
  cbn [memcpy_loop] in *. bind_mono peek_app.
  apply bind_Ok in H as (? & -> & H). cbn [mbind outcome_bind].
  apply IH, H.
Qed.

Lemma uncompress_picture_app (s row_bytes : Z) (pix : list byte)
    (d dst_pitch depth height pack_type : Z) (pix' : list byte) :
  uncompress_picture host buf s row_bytes pix d dst_pitch depth height
    pack_type = Ok pix' ->
  uncompress_picture host (buf ++ extra) s row_bytes pix d dst_pitch depth
    height pack_type = Ok pix'.
Proof.
  unfold uncompress_picture.
  destruct (row_bytes <? 8); [apply memcpy_app|].
  destruct (depth =? 8); [apply rle_rows_app|].
  match goal with |- context [?pt =? 1] => destruct (pt =? 1) end.
  { intros H. bind_mono memcpy_app. exact H. }
  match goal with |- context [?pt =? 3] => destruct (pt =? 3) end.
  { apply rle_rows_app. }
  match goal with |- context [?pt =? 4] => destruct (pt =? 4) end;
    [|discriminate].
  unfold uncompress_rle32. destruct (malloc host row_bytes); [|auto].
  apply rle32_rows_app.
Qed.

Lemma ReadBE16_app (p : Z) (r : Z * Z) :
  SDL_ReadBE16 buf p = Ok r -> SDL_ReadBE16 (buf ++ extra) p = Ok r.
Proof.
  destruct r as [v q]. intros H.
  apply ReadBE16_Ok in H as (Hp & -> & Hq & Hv).
  apply ReadBE16_elt; [exact Hp|].
  unfold elt_at in *.
  destruct (buf !! Z.to_nat p) as [b0|] eqn:E0; [|discriminate].
  rewrite (lookup_app_l_Some _ _ _ _ E0).
  cbn [mbind option_bind] in *.
  destruct (buf !! Z.to_nat (p + 1)) as [b1|] eqn:E1; [|discriminate].
  rewrite (lookup_app_l_Some _ _ _ _ E1). exact Hv.
Qed.

Lemma RWseek_app (p n q : Z) :
  SDL_RWseek buf p n = Ok q -> SDL_RWseek (buf ++ extra) p n = Ok q.
Proof.
  intros H. apply RWseek_Ok in H as [-> Hq].
  apply RWseek_inside. rewrite len_app. unfold len at 2. lia.
Qed.

Lemma read_pixmap_app (opcode p : Z) (r : pixmap * Z) :
  read_pixmap buf opcode p = Ok r -> read_pixmap (buf ++ extra) opcode p = Ok r.
Proof.
  unfold read_pixmap. intros H.
  apply bind_Ok in H as (p0 & E & H).
  assert (E' : (if opcode =? 154 then SDL_RWseek (buf ++ extra) p 4 else Ok p)
               = Ok p0)
    by (destruct (opcode =? 154); [apply RWseek_app|]; exact E).
  rewrite E'. cbn [mbind outcome_bind].
  repeat first [bind_mono ReadBE16_app | bind_mono RWseek_app].
  exact H.
Qed.

Lemma read_colors_app (n : nat) (p : Z) (pal : option (list SDL_Color))
    (r : option (list SDL_Color) * Z) :
  read_colors buf n p pal = Ok r -> read_colors (buf ++ extra) n p pal = Ok r.
Proof.
  revert p pal. induction n as [|n IH]; intros p pal H; [exact H|].
  cbn [read_colors] in *.
  do 3 (repeat bind_mono ReadBE16_app;
        apply bind_Ok in H as (? & -> & H); cbn [mbind outcome_bind]).
  apply IH, H.
Qed.

Lemma read_color_table_app (opcode p : Z) (pal : option (list SDL_Color))
    (r : option (list SDL_Color) * Z) :
  read_color_table buf opcode p pal = Ok r ->
  read_color_table (buf ++ extra) opcode p pal = Ok r.
Proof.
  unfold read_color_table. destruct (opcode =? 152); [|auto].
  intros H. bind_mono RWseek_app. bind_mono ReadBE16_app.
  apply read_colors_app, H.
Qed.

Lemma copy_bits_app (opcode p : Z) (st' : pict_state) :
  copy_bits host buf opcode p = Ok st' ->
  copy_bits host (buf ++ extra) opcode p = Ok st'.
Proof.
  unfold copy_bits. intros H. bind_mono read_pixmap_app.
  destruct (SDL_CreateRGBSurface _ _ _ _ _); [|exact H].
  bind_mono read_color_table_app. bind_mono RWseek_app.
  bind_mono uncompress_picture_app. exact H.
Qed.

Lemma opcode_step_app (st st' : pict_state) :
  opcode_step host buf st = Ok st' -> opcode_step host (buf ++ extra) st = Ok st'.
Proof.
  unfold opcode_step. intros H. bind_mono ReadBE16_app.
  repeat match goal with
         | |- (if ?c then _ else _) = _ => destruct c
         end;
    repeat first [bind_mono ReadBE16_app | bind_mono RWseek_app];
    first [exact H | apply copy_bits_app, H].
Qed.

(** The loop on the longer resource does what it did, with the same fuel
    or more. *)
Lemma opcode_loop_app (fuel fuel' : nat) (st st' : pict_state) :
  (fuel <= fuel')%nat ->
  opcode_loop host buf fuel st = Ok st' ->
  opcode_loop host (buf ++ extra) fuel' st = Ok st'.
Proof.
  revert fuel' st. induction fuel as [|fuel IH]; intros fuel' st Hf H.
  - cbn [opcode_loop] in H. destruct (done st) eqn:Hd; [|discriminate].
    rewrite opcode_loop_done by exact Hd. exact H.
  - cbn [opcode_loop] in H. destruct (done st) eqn:Hd.
    + rewrite opcode_loop_done by exact Hd. exact H.
    + destruct fuel' as [|fuel']; [lia|].
      cbn [opcode_loop]. rewrite Hd. bind_mono opcode_step_app.
      apply (IH fuel'); [lia|exact H].
Qed.

End TrailingBytes.

(** X2: bytes after the picture.  A resource that decodes to a result
    decodes to the same result when further bytes follow it: the decoder
    reads none of them. *)
Theorem picture_to_surface_ignores_trailing_bytes (host : Host)
    (buf extra : list byte) (r : option SDL_Surface) :
  SDL_RWFromMem host buf = true ->
  SDL_RWFromMem host (buf ++ extra) = true ->
  picture_to_surface host (Some buf) = Ok r ->
  picture_to_surface host (Some (buf ++ extra)) = Ok r.
Proof.
  unfold picture_to_surface. intros -> -> H.
  bind_mono (RWseek_app buf extra).
  apply bind_Ok in H as (st & E & H).
  rewrite (opcode_loop_app host buf extra (S (length buf))
             (S (length (buf ++ extra))) _ st); [exact H| |exact E].
  rewrite length_app. lia.
Qed.

Lemma picture_to_surface_ignores_trailing_bytes_witness :
  picture_to_surface host_le (Some (pict_planar ++ bytes_of [0xde; 0xad]))
  = Ok (Some (Surface 2 1 32 (Some (0x00ff0000, 0x0000ff00, 0x000000ff)) 8
                (bytes_of [0x33; 0x22; 0x11; 0; 0x33; 0x22; 0x11; 0]) None)).
Proof.
  exact (picture_to_surface_ignores_trailing_bytes host_le pict_planar
           (bytes_of [0xde; 0xad]) _ eq_refl eq_refl
           ltac:(vm_compute; reflexivity)).
Defined.

(** ** Packed lines inside a resource *)

Lemma byte_of_Z_of_byte (b : byte) : byte_of_Z (Z_of_byte b) = b.
Proof.
  unfold byte_of_Z. pose proof (Z_of_byte_range b) as Hb.
  rewrite Z.mod_small by lia. unfold Z_of_byte.
  rewrite N2Z.id, Byte.of_to_N. reflexivity.
Qed.

Lemma bytes_of_Z_of_bytes (l : list byte) : bytes_of (map Z_of_byte l) = l.
Proof.
  induction l as [|b l IH]; [reflexivity|].
  simpl. rewrite byte_of_Z_of_byte. f_equal. exact IH.
Qed.

Lemma read_count_framed (row_bytes n : Z) (pre body : list Z) :
  0 <= n < (if 250 <? row_bytes then 65536 else 256) ->
  read_count
    (bytes_of (pre ++ (if 250 <? row_bytes then [n / 256; n mod 256] else [n])
               ++ body))
    (Z.of_nat (length pre)) row_bytes
  = Ok (n, Z.of_nat (length pre) + (if 250 <? row_bytes then 2 else 1)).
Proof.
  intros Hn. unfold read_count. destruct (250 <? row_bytes).
  - rewrite (peek_lookup _ (Z.of_nat (length pre)) (byte_of_Z (n / 256)))
      by (lia || (apply lookup_bytes_middle; reflexivity)).
    cbn [mbind outcome_bind].
    rewrite (peek_lookup _ (Z.of_nat (length pre) + 1) (byte_of_Z (n mod 256))).
    + cbn [mbind outcome_bind].
      rewrite !Z_of_byte_of_small by (Z.div_mod_to_equations; lia).
      rewrite be16_assemble by (Z.div_mod_to_equations; lia).
      do 2 f_equal. Z.div_mod_to_equations; lia.
    + lia.
    + replace (pre ++ [n / 256; n mod 256] ++ body)
        with ((pre ++ [n / 256]) ++ n mod 256 :: body)
        by (rewrite <- app_assoc; reflexivity).
      apply lookup_bytes_middle. rewrite length_app. simpl. lia.
  - rewrite (peek_lookup _ (Z.of_nat (length pre)) (byte_of_Z n))
      by (lia || (apply lookup_bytes_middle; reflexivity)).
    cbn [mbind outcome_bind]. rewrite Z_of_byte_of_small by lia. reflexivity.
Qed.

(** A framed line anywhere in a resource is unpacked to the elements its
    packets stand for; the returned pointer is the end of the line. *)
Lemma unpack_bits_framed (le : bool) (T : elt) (ps : list packet)
    (row_bytes d : Z) (pre post m : list byte) :
  Forall (packet_ok T) ps ->
  packed_len T ps < (if 250 <? row_bytes then 65536 else 256) ->
  0 <= d ->
  d + sizeof T * units ps <= len m ->
  unpack_bits le T (pre ++ frame_line T row_bytes ps ++ post) (len pre)
    row_bytes d m
  = Ok (UB (len pre + len (frame_line T row_bytes ps)) 0
          (d + sizeof T * units ps)
          (splice m d (host_bytes le T (flat_map expand ps)))).
Proof.
  intros Hok Hfit Hd Hroom.
  pose proof (packed_len_packets T ps Hok) as Hlen.
  unfold frame_line. rewrite packed_bytes_length.
  set (n := packed_len T ps) in *.
  set (pfx := if 250 <? row_bytes then [n / 256; n mod 256] else [n]).
  assert (Hpfx : Z.of_nat (length pfx) = if 250 <? row_bytes then 2 else 1).
  { unfold pfx. destruct (250 <? row_bytes); reflexivity. }
  set (body := flat_map (packet_bytes T) ps).
  assert (Hbuf : pre ++ bytes_of (pfx ++ body) ++ post
                 = bytes_of (map Z_of_byte pre ++ pfx ++ body
                             ++ map Z_of_byte post)).
  { rewrite !bytes_of_app, !bytes_of_Z_of_bytes, <- app_assoc. reflexivity. }
  rewrite Hbuf. unfold unpack_bits.
  replace (len pre) with (Z.of_nat (length (map Z_of_byte pre)))
    by (rewrite length_map; reflexivity).
  unfold pfx.
  rewrite (read_count_framed row_bytes n (map Z_of_byte pre)
             (body ++ map Z_of_byte post)) by lia.
  cbn [mbind outcome_bind]. fold pfx. rewrite <- Hpfx.
  rewrite (app_assoc (map Z_of_byte pre) pfx).
  unfold body.
  rewrite (unpack_loop_packets le T ps); cbn [src src_count dst mem].
  - f_equal. f_equal.
    unfold len. rewrite bytes_of_length, !length_app.
    rewrite Nat2Z.inj_add, packed_bytes_length. fold n. lia.
  - exact Hok.
  - rewrite length_app. lia.
  - reflexivity.
  - lia.
  - exact Hd.
  - exact Hroom.
Qed.

Lemma unpack_bits_packed_line (le : bool) (T : elt) (line : list Z)
    (row_bytes d : Z) (pre post m : list byte) :
  Forall (in_range T) line ->
  sizeof T * Z.of_nat (length line) <= row_bytes <= 16383 ->
  0 <= d ->
  d + sizeof T * Z.of_nat (length line) <= len m ->
  unpack_bits le T (pre ++ pack_line T row_bytes line ++ post) (len pre)
    row_bytes d m
  = Ok (UB (len pre + len (pack_line T row_bytes line)) 0
          (d + sizeof T * Z.of_nat (length line))
          (splice m d (host_bytes le T line))).
Proof.
  intros Hline Hrow Hd Hroom.
  pose proof (pack_elts_length T row_bytes line Hrow) as Hfit.
  unfold pack_line. rewrite unpack_bits_framed.
  - rewrite units_pack_elts, expand_pack_elts. reflexivity.
  - apply pack_elts_ok, Hline.
  - lia.
  - exact Hd.
  - rewrite units_pack_elts. exact Hroom.
Qed.

(** ** Pictures of several scan lines *)

Lemma rle_rows_lines (host : Host) (T : elt) (lines : list (list Z))
    (row_bytes : Z) (pre post : list byte) (d dst_pitch : Z)
    (pix : list byte) :
  Forall (fun l => Forall (in_range T) l
                   /\ sizeof T * Z.of_nat (length l) <= row_bytes) lines ->
  row_bytes <= 16383 ->
  rows_fit T lines d dst_pitch (len pix) ->
  rle_rows host (pre ++ concat (map (pack_line T row_bytes) lines) ++ post) T
    (length lines) (len pre) row_bytes d dst_pitch pix
  = Ok (rows_stored (LITTLE_ENDIAN host) T lines d dst_pitch pix).
Proof.
  intros Hlines Hrow. revert pre d pix.
  induction Hlines as [|l ls [Hl Hlen] Hls IH]; intros pre d pix Hfit;
    [reflexivity|].
  destruct Hfit as (Hd & Hroom & Hfit).
  cbn [rle_rows map concat length rows_stored].
  rewrite <- (app_assoc (pack_line T row_bytes l)).
  rewrite unpack_bits_packed_line by (assumption || lia).
  cbn [mbind outcome_bind src mem].
  rewrite <- len_app, (app_assoc pre).
  apply IH. rewrite splice_length; [exact Hfit|lia|].
  rewrite host_bytes_length. lia.
Qed.

Lemma rows_stored_length (le : bool) (T : elt) (lines : list (list Z))
    (d dst_pitch : Z) (pix : list byte) :
  rows_fit T lines d dst_pitch (len pix) ->
  len (rows_stored le T lines d dst_pitch pix) = len pix.
Proof.
  revert d pix. induction lines as [|l ls IH]; intros d pix Hfit;
    [reflexivity|].
  destruct Hfit as (Hd & Hroom & Hfit). cbn [rows_stored].
  assert (Hl : len (splice pix d (host_bytes le T l)) = len pix)
    by (rewrite splice_length; rewrite ?host_bytes_length; lia).
  rewrite IH; [exact Hl|]. rewrite Hl. exact Hfit.
Qed.

(** Rows are stored from [d] upwards: what lies below [d] stays. *)
Lemma rows_stored_below (le : bool) (T : elt) (lines : list (list Z))
    (d dst_pitch : Z) (pix : list byte) (j : nat) :
  rows_fit T lines d dst_pitch (len pix) -> 0 <= dst_pitch ->
  Z.of_nat j < d ->
  rows_stored le T lines d dst_pitch pix !! j = pix !! j.
Proof.
  revert d pix. induction lines as [|l ls IH]; intros d pix Hfit Hp Hj;
    [reflexivity|].
  destruct Hfit as (Hd & Hroom & Hfit). cbn [rows_stored].
  assert (Hl : len (splice pix d (host_bytes le T l)) = len pix)
    by (rewrite splice_length; rewrite ?host_bytes_length; lia).
  rewrite IH; [| rewrite Hl; exact Hfit | exact Hp | lia].
  apply lookup_splice_outside; rewrite ?host_bytes_length; lia.
Qed.

Lemma host_elt_at_ext (le : bool) (T : elt) (m1 m2 : list byte) (i : Z) :
  0 <= i ->
  (forall j : nat, i <= Z.of_nat j < i + sizeof T -> m1 !! j = m2 !! j) ->
  host_elt_at le T m1 i = host_elt_at le T m2 i.
Proof.
  intros Hi Hext. unfold host_elt_at. destruct T; simpl in Hext.
  - rewrite (Hext (Z.to_nat i)) by lia. reflexivity.
  - rewrite (Hext (Z.to_nat i)), (Hext (Z.to_nat (i + 1))) by lia.
    reflexivity.
Qed.

Lemma host_elts_at_ext (le : bool) (T : elt) (n : nat) (m1 m2 : list byte)
    (i : Z) :
  0 <= i ->
  (forall j : nat, i <= Z.of_nat j < i + sizeof T * Z.of_nat n ->
     m1 !! j = m2 !! j) ->
  host_elts_at le T m1 i n = host_elts_at le T m2 i n.
Proof.
  revert i. induction n as [|n IH]; intros i Hi Hext; [reflexivity|].
  pose proof (sizeof_cases T) as Hw.
  cbn [host_elts_at].
  rewrite (host_elt_at_ext le T m1 m2 i Hi) by (intros j Hj; apply Hext; lia).
  rewrite (IH (i + sizeof T)); [reflexivity|lia|].
  intros j Hj. apply Hext. lia.
Qed.

Lemma rows_stored_row (le : bool) (T : elt) (lines : list (list Z))
    (d dst_pitch : Z) (pix : list byte) (y : nat) (l : list Z) :
  Forall (fun l => Forall (in_range T) l
                   /\ sizeof T * Z.of_nat (length l) <= dst_pitch) lines ->
  rows_fit T lines d dst_pitch (len pix) ->
  lines !! y = Some l ->
  host_elts_at le T (rows_stored le T lines d dst_pitch pix)
    (d + Z.of_nat y * dst_pitch) (length l) = Some l.
Proof.
  intros Hlines. revert d pix y.
  induction Hlines as [|l0 ls [Hl0 Hp0] Hls IH]; intros d pix y Hfit Hy;
    [discriminate|].
  destruct Hfit as (Hd & Hroom & Hfit). cbn [rows_stored].
  assert (Hlen : len (splice pix d (host_bytes le T l0)) = len pix)
    by (rewrite splice_length; rewrite ?host_bytes_length; lia).
  assert (Hpitch : 0 <= dst_pitch) by (pose proof (sizeof_cases T); lia).
  destruct y as [|y].
  - injection Hy as <-. simpl. rewrite Z.add_0_r.
    rewrite (host_elts_at_ext le T _ _ (splice pix d (host_bytes le T l0)));
      [apply host_elts_at_splice; assumption|exact Hd|].
    intros j Hj. apply rows_stored_below; [rewrite Hlen; exact Hfit|lia|lia].
  - simpl in Hy.
    replace (d + Z.of_nat (S y) * dst_pitch)
      with (d + dst_pitch + Z.of_nat y * dst_pitch) by lia.
    apply IH; [rewrite Hlen; exact Hfit|exact Hy].
Qed.

(** X3: pictures of several scan lines.  The 8-bit and the 16-bit
    decompressor, given the packed lines of a picture one after the other,
    store line [y] at [dst + y * dst_pitch]; the pixel buffer keeps its
    length, and when no line is longer than the pitch the host reads every
    line back from its row. *)
Theorem uncompress_rle_rows_round_trip (host : Host) (T : elt)
    (lines : list (list Z)) (row_bytes : Z) (pre post : list byte)
    (d dst_pitch : Z) (pix : list byte) :
  Forall (fun l => Forall (in_range T) l
                   /\ sizeof T * Z.of_nat (length l) <= row_bytes) lines ->
  row_bytes <= 16383 ->
  rows_fit T lines d dst_pitch (len pix) ->
  let buf := pre ++ concat (map (pack_line T row_bytes) lines) ++ post in
  let pix' := rows_stored (LITTLE_ENDIAN host) T lines d dst_pitch pix in
  match T with
  | U8 => uncompress_rle8
  | U16 => uncompress_rle16
  end host buf (len pre) row_bytes pix d dst_pitch (Z.of_nat (length lines))
  = Ok pix'
  /\ len pix' = len pix
  /\ (Forall (fun l => sizeof T * Z.of_nat (length l) <= dst_pitch) lines ->
      forall (y : nat) (l : list Z),
        lines !! y = Some l ->
        host_elts_at (LITTLE_ENDIAN host) T pix'
          (d + Z.of_nat y * dst_pitch) (length l) = Some l).
Proof.
  intros Hlines Hrow Hfit buf pix'. split; [|split].
  - unfold buf, pix'.
    destruct T; unfold uncompress_rle8, uncompress_rle16;
      rewrite Nat2Z.id; apply rle_rows_lines; assumption.
  - apply rows_stored_length, Hfit.
  - intros Hpitch y l Hy. apply rows_stored_row; [|exact Hfit|exact Hy].
    apply Forall_forall. intros l0 Hl0.
    rewrite Forall_forall in Hlines, Hpitch.
    split; [apply (Hlines l0 Hl0)|apply (Hpitch l0 Hl0)].
Qed.

(** Two lines of two 16-bit pixels, eight bytes apart in the buffer, on a
    little-endian host. *)
Lemma uncompress_rle_rows_round_trip_witness :
  uncompress_rle16 host_le
    (pack_line U16 8 [300; 9] ++ pack_line U16 8 [7; 7]) 0 8
    (replicate 16 x00) 0 8 2
  = Ok (bytes_of [44; 1; 9; 0; 0; 0; 0; 0; 7; 0; 7; 0; 0; 0; 0; 0]).
Proof.
  pose proof (uncompress_rle_rows_round_trip host_le U16
                [[300; 9]; [7; 7]] 8 [] [] 0 8 (replicate 16 x00)
                ltac:(repeat constructor; vm_compute; discriminate)
                ltac:(lia)
                ltac:(vm_compute; repeat split; discriminate))
    as (Hrows & _).
  exact Hrows.
Defined.

(** ** One component into the surface *)

Lemma component_loop_scatter (count : nat) (tmp : list byte) (s : Z)
    (pix : list byte) (d : Z) :
  0 <= s -> s + Z.of_nat count <= len tmp ->
  0 <= d -> d + 4 * Z.of_nat count <= len pix + 3 ->
  exists pix',
    component_loop count tmp s pix d = Ok pix'
    /\ len pix' = len pix
    /\ (forall i : nat, (i < count)%nat ->
          pix' !! Z.to_nat (d + 4 * Z.of_nat i)
          = tmp !! Z.to_nat (s + Z.of_nat i))
    /\ (forall j : nat,
          (forall i : nat, (i < count)%nat -> Z.of_nat j <> d + 4 * Z.of_nat i) ->
          pix' !! j = pix !! j).
Proof.
  revert s pix d. induction count as [|n IH]; intros s pix d Hs Ht Hd Hp.
  - exists pix. split; [reflexivity|]. split; [reflexivity|].
    split; [intros i Hi; lia|auto].
  - destruct (lookup_lt_is_Some_2 tmp (Z.to_nat s)) as [b Hb];
      [unfold len in Ht; lia|].
    cbn [component_loop].
    rewrite (peek_lookup tmp s b) by assumption. cbn [mbind outcome_bind].
    rewrite poke_inside by lia. cbn [mbind outcome_bind].
    rewrite byte_of_Z_of_byte.
    destruct (IH (s + 1) (<[Z.to_nat d := b]> pix) (d + 4))
      as (pix' & -> & Hl & Hset & Hkeep).
    + lia.
    + lia.
    + lia.
    + unfold len. rewrite length_insert. unfold len in Hp. lia.
    + exists pix'. split; [reflexivity|].
      unfold len in Hl. rewrite length_insert in Hl.
      split; [exact Hl|]. split.
      * intros [|i] Hi.
        -- rewrite Z.mul_0_r, !Z.add_0_r.
           rewrite Hkeep by (intros i _; lia).
           rewrite list_lookup_insert_eq by (unfold len in Hp; lia).
           symmetry. exact Hb.
        -- replace (d + 4 * Z.of_nat (S i)) with (d + 4 + 4 * Z.of_nat i) by lia.
           replace (s + Z.of_nat (S i)) with (s + 1 + Z.of_nat i) by lia.
           apply Hset. lia.
      * intros j Hj.
        rewrite Hkeep by (intros i Hi; specialize (Hj (S i)); lia).
        apply list_lookup_insert_ne. specialize (Hj O). lia.
Qed.

Lemma copy_component_stored (host : Host) (tmp : list byte) (s : Z)
    (pix : list byte) (d count component : Z) :
  0 <= s -> 0 <= count -> s + count <= len tmp ->
  0 <= d + component_offset host component ->
  d + component_offset host component + 4 * count <= len pix + 3 ->
  exists pix',
    copy_component_into_surface host tmp s pix d count component = Ok pix'
    /\ len pix' = len pix
    /\ (forall i : nat, Z.of_nat i < count ->
          pix' !! Z.to_nat (d + component_offset host component
                            + 4 * Z.of_nat i)
          = tmp !! Z.to_nat (s + Z.of_nat i))
    /\ (forall j : nat,
          (forall i : nat, Z.of_nat i < count ->
             Z.of_nat j <> d + component_offset host component
                           + 4 * Z.of_nat i) ->
          pix' !! j = pix !! j).
Proof.
  intros Hs Hc Ht Hd Hp. unfold copy_component_into_surface.
  replace (count <? 0) with false by (symmetry; apply Z.ltb_ge; lia).
  replace (if LITTLE_ENDIAN host then d + (2 - component)
           else d + (component + 1))
    with (d + component_offset host component)
    by (unfold component_offset; destruct (LITTLE_ENDIAN host); reflexivity).
  destruct (component_loop_scatter (Z.to_nat count) tmp s pix
              (d + component_offset host component))
    as (pix' & E & Hl & Hset & Hkeep); try lia.
  exists pix'. split; [exact E|]. split; [exact Hl|]. split.
  - intros i Hi. apply Hset. lia.
  - intros j Hj. apply Hkeep. intros i Hi. apply Hj. lia.
Qed.

(** X4: one component into the surface.  [copy_component_into_surface]
    stores the [count] bytes of the component one pixel (four bytes) apart,
    at byte [2 - component] of each pixel on a little-endian host and at
    byte [component + 1] on a big-endian one; no other byte of the pixel
    buffer changes, nor does its length. *)
Theorem copy_component_scatters (host : Host) (tmp : list byte) (s : Z)
    (pix : list byte) (d count component : Z) :
  0 <= s -> 0 <= count -> s + count <= len tmp ->
  0 <= d + component_offset host component ->
  d + component_offset host component + 4 * count <= len pix + 3 ->
  exists pix',
    copy_component_into_surface host tmp s pix d count component = Ok pix'
    /\ len pix' = len pix
    /\ (forall i : nat, Z.of_nat i < count ->
          pix' !! Z.to_nat (d + component_offset host component
                            + 4 * Z.of_nat i)
          = tmp !! Z.to_nat (s + Z.of_nat i))
    /\ (forall j : nat,
          (forall i : nat, Z.of_nat i < count ->
             Z.of_nat j <> d + component_offset host component
                           + 4 * Z.of_nat i) ->
          pix' !! j = pix !! j).
Proof. apply copy_component_stored. Qed.

(** The green bytes [5; 6] of two pixels on a little-endian host. *)
Lemma copy_component_scatters_witness :
  exists pix',
    copy_component_into_surface host_le (bytes_of [0; 0; 5; 6; 0; 0]) 2
      (replicate 8 x00) 0 2 1
    = Ok pix'
    /\ len pix' = len (replicate 8 x00).
Proof.
  destruct (copy_component_scatters host_le (bytes_of [0; 0; 5; 6; 0; 0]) 2
              (replicate 8 x00) 0 2 1
              ltac:(lia) ltac:(lia) ltac:(vm_compute; discriminate)
              ltac:(vm_compute; discriminate) ltac:(vm_compute; discriminate))
    as (pix' & E & Hl & _).
  exists pix'. split; [exact E|exact Hl].
Defined.

(** ** The 32-bit planar decompressor *)

Lemma host_bytes_U8 (le : bool) (l : list Z) : host_bytes le U8 l = bytes_of l.
Proof.
  unfold host_bytes. induction l as [|v l IH]; [reflexivity|].
  simpl in *. rewrite IH. f_equal.
  unfold byte_of_Z. rewrite Z.mod_mod by lia. reflexivity.
Qed.

Lemma lookup_splice_inside (m : list byte) (d : Z) (bs : list byte) (k : nat) :
  0 <= d -> d + len bs <= len m -> (k < length bs)%nat ->
  splice m d bs !! (Z.to_nat d + k)%nat = bs !! k.
Proof.
  unfold splice, len. intros Hd Hb Hk.
  rewrite lookup_app_r by (rewrite length_take; lia).
  rewrite length_take.
  replace (Z.to_nat d + k - Z.to_nat d `min` length m)%nat with k by lia.
  apply lookup_app_l. exact Hk.
Qed.

Section Planar.

Variable host : Host.

(** The three components of one row, from [tmp] into the pixels of the
    row. *)
Lemma planar_row_stored (tmp pix : list byte) (d width : Z) :
  0 <= width -> 3 * width <= len tmp ->
  0 <= d -> d + 4 * width <= len pix ->
  exists pix',
    (pix1 ← copy_component_into_surface host tmp 0 pix d width 0;
     pix2 ← copy_component_into_surface host tmp width pix1 d width 1;
     copy_component_into_surface host tmp (width * 2) pix2 d width 2)
    = Ok pix'
    /\ len pix' = len pix
    /\ (forall (x : nat) (c : Z), Z.of_nat x < width -> 0 <= c < 3 ->
          pix' !! Z.to_nat (component_at host d 0 0 x c)
          = tmp !! Z.to_nat (c * width + Z.of_nat x))
    /\ (forall j : nat,
          (forall (x : nat) (c : Z), Z.of_nat x < width -> 0 <= c < 3 ->
             Z.of_nat j <> component_at host d 0 0 x c) ->
          pix' !! j = pix !! j).
Proof.
  intros Hw Ht Hd Hp.
  assert (Hoff : forall c, 0 <= c < 3 ->
            0 <= component_offset host c <= 3).
  { intros c Hc. unfold component_offset. destruct (LITTLE_ENDIAN host); lia. }
  assert (Hne : forall c c', 0 <= c < 3 -> 0 <= c' < 3 -> c <> c' ->
            component_offset host c <> component_offset host c').
  { intros c c' Hc Hc' Hcc. unfold component_offset.
    destruct (LITTLE_ENDIAN host); lia. }
  pose proof (Hoff 0 ltac:(lia)) as H0. pose proof (Hoff 1 ltac:(lia)) as H1.
  pose proof (Hoff 2 ltac:(lia)) as H2.
  pose proof (Hne 0 1 ltac:(lia) ltac:(lia) ltac:(lia)) as H01.
  pose proof (Hne 0 2 ltac:(lia) ltac:(lia) ltac:(lia)) as H02.
  pose proof (Hne 1 2 ltac:(lia) ltac:(lia) ltac:(lia)) as H12.
  destruct (copy_component_stored host tmp 0 pix d width 0)
    as (pix1 & -> & Hl1 & Hs1 & Hk1); try lia.
  cbn [mbind outcome_bind].
  destruct (copy_component_stored host tmp width pix1 d width 1)
    as (pix2 & -> & Hl2 & Hs2 & Hk2); try lia.
  cbn [mbind outcome_bind].
  destruct (copy_component_stored host tmp (width * 2) pix2 d width 2)
    as (pix3 & -> & Hl3 & Hs3 & Hk3); try lia.
  exists pix3. split; [reflexivity|]. split; [lia|]. split.
  - intros x c Hx Hc. unfold component_at.
    assert (Hcc : c = 0 \/ c = 1 \/ c = 2) by lia.
    destruct Hcc as [->|[->| ->]].
    + rewrite Hk3 by (intros i Hi; lia).
      rewrite Hk2 by (intros i Hi; lia).
      replace (d + Z.of_nat 0 * 0 + 4 * Z.of_nat x + component_offset host 0)
        with (d + component_offset host 0 + 4 * Z.of_nat x) by lia.
      rewrite Hs1 by lia. f_equal; lia.
    + rewrite Hk3 by (intros i Hi; lia).
      replace (d + Z.of_nat 0 * 0 + 4 * Z.of_nat x + component_offset host 1)
        with (d + component_offset host 1 + 4 * Z.of_nat x) by lia.
      rewrite Hs2 by lia. f_equal; lia.
    + replace (d + Z.of_nat 0 * 0 + 4 * Z.of_nat x + component_offset host 2)
        with (d + component_offset host 2 + 4 * Z.of_nat x) by lia.
      rewrite Hs3 by lia. f_equal; lia.
  - intros j Hj. unfold component_at in Hj.
    rewrite Hk3 by (intros i Hi; specialize (Hj i 2 Hi ltac:(lia)); lia).
    rewrite Hk2 by (intros i Hi; specialize (Hj i 1 Hi ltac:(lia)); lia).
    apply Hk1. intros i Hi. specialize (Hj i 0 Hi ltac:(lia)). lia.
Qed.

Lemma component_at_row (d dst_pitch : Z) (y x : nat) (c : Z) :
  component_at host (d + dst_pitch) dst_pitch y x c
  = component_at host d dst_pitch (S y) x c.
Proof. unfold component_at. lia. Qed.

Lemma component_at_first (d dst_pitch : Z) (x : nat) (c : Z) :
  component_at host d dst_pitch 0 x c = component_at host d 0 0 x c.
Proof. unfold component_at. lia. Qed.

Lemma component_at_bounds (d dst_pitch width : Z) (y x : nat) (c : Z) :
  0 <= dst_pitch -> Z.of_nat x < width -> 0 <= c < 3 ->
  d + Z.of_nat y * dst_pitch <= component_at host d dst_pitch y x c
  < d + Z.of_nat y * dst_pitch + 4 * width.
Proof.
  intros Hp Hx Hc. unfold component_at, component_offset.
  destruct (LITTLE_ENDIAN host); lia.
Qed.

(** The rows of a planar picture: every line holds the red, the green and
    the blue bytes of its [width] pixels, one component after the other. *)
Lemma rle32_rows_lines (lines : list (list Z)) (row_bytes width : Z)
    (pre post tmp : list byte) (d dst_pitch : Z) (pix : list byte) :
  Forall (fun l => Forall (in_range U8) l
                   /\ Z.of_nat (length l) = 3 * width) lines ->
  0 <= width -> 3 * width <= row_bytes <= 16383 ->
  len tmp = row_bytes ->
  4 * width <= dst_pitch ->
  planar_fit width (length lines) d dst_pitch (len pix) ->
  exists pix',
    rle32_rows host (pre ++ concat (map (pack_line U8 row_bytes) lines) ++ post)
      (length lines) (len pre) row_bytes tmp width d dst_pitch pix = Ok pix'
    /\ len pix' = len pix
    /\ (forall (y : nat) (l : list Z) (x : nat) (c : Z),
          lines !! y = Some l -> Z.of_nat x < width -> 0 <= c < 3 ->
          pix' !! Z.to_nat (component_at host d dst_pitch y x c)
          = byte_of_Z <$> l !! Z.to_nat (c * width + Z.of_nat x))
    /\ (forall j : nat,
          (forall (y x : nat) (c : Z),
             (y < length lines)%nat -> Z.of_nat x < width -> 0 <= c < 3 ->
             Z.of_nat j <> component_at host d dst_pitch y x c) ->
          pix' !! j = pix !! j).
Proof.
  intros Hlines Hw Hrow Htmp Hpitch. revert pre tmp d pix Htmp.
  induction Hlines as [|l ls [Hl Hlen] Hls IH]; intros pre tmp d pix Htmp Hfit.
  { exists pix. split; [reflexivity|]. split; [reflexivity|].
    split; [intros y l x c Hy; discriminate|reflexivity]. }
  destruct Hfit as (Hd & Hroom & Hfit).
  cbn [rle32_rows map concat length].
  rewrite <- (app_assoc (pack_line U8 row_bytes l)).
  rewrite unpack_bits_packed_line
    by (try assumption; change (sizeof U8) with 1; lia).
  cbn [mbind outcome_bind src mem]. rewrite host_bytes_U8.
  set (tmp' := splice tmp 0 (bytes_of l)).
  assert (Hbl : len (bytes_of l) = 3 * width)
    by (unfold len; rewrite bytes_of_length; exact Hlen).
  assert (Htmp' : len tmp' = row_bytes)
    by (unfold tmp'; rewrite splice_length; lia).
  destruct (planar_row_stored tmp' pix d width)
    as (pix1 & E1 & Hl1 & Hs1 & Hk1); try lia.
  destruct (copy_component_into_surface host tmp' 0 pix d width 0)
    as [p1| | |] eqn:Ec0; try discriminate E1.
  cbn [mbind outcome_bind] in E1 |- *.
  destruct (copy_component_into_surface host tmp' width p1 d width 1)
    as [p2| | |] eqn:Ec1; try discriminate E1.
  cbn [mbind outcome_bind] in E1 |- *.
  rewrite E1. cbn [mbind outcome_bind].
  rewrite <- len_app, (app_assoc pre).
  destruct (IH (pre ++ pack_line U8 row_bytes l) tmp' (d + dst_pitch) pix1
              Htmp' ltac:(rewrite Hl1; exact Hfit))
    as (pix' & E & Hl' & Hs' & Hk').
  exists pix'. split; [exact E|]. split; [lia|]. split.
  - intros y l0 x c Hy Hx Hc. destruct y as [|y]; simpl in Hy.
    + injection Hy as <-.
      rewrite Hk'.
      * rewrite component_at_first, Hs1 by assumption.
        unfold tmp'.
        replace (Z.to_nat (c * width + Z.of_nat x))
          with (Z.to_nat 0 + Z.to_nat (c * width + Z.of_nat x))%nat by lia.
        rewrite lookup_splice_inside;
          [apply list_lookup_fmap | lia | lia |].
        rewrite bytes_of_length. nia.
      * intros y' x' c' Hy' Hx' Hc'.
        pose proof (component_at_bounds d dst_pitch width 0 x c
                      ltac:(lia) Hx Hc) as B0.
        pose proof (component_at_bounds (d + dst_pitch) dst_pitch width y' x'
                      c' ltac:(lia) Hx' Hc') as B1.
        assert (0 <= Z.of_nat y' * dst_pitch) by nia.
        rewrite Z2Nat.id by lia. lia.
    + rewrite <- component_at_row. apply Hs'; assumption.
  - intros j Hj. rewrite Hk'.
    + apply Hk1. intros x c Hx Hc. rewrite <- (component_at_first d dst_pitch).
      apply Hj; [simpl; lia|assumption..].
    + intros y x c Hy Hx Hc. rewrite component_at_row.
      apply Hj; [simpl; lia|assumption..].
Qed.

End Planar.

(** X5: the planar decompressor.  For a picture whose packed lines each hold
    the red, then the green, then the blue bytes of the [row_bytes / 4]
    pixels of a row, [uncompress_rle32] stores component [c] of pixel [x] of
    row [y] at its byte of the 4-byte pixel, leaves every other byte of the
    pixel buffer (the fourth byte of each pixel among them) as it was, and
    keeps the length of the buffer. *)
Theorem uncompress_rle32_planar_rows (host : Host) (lines : list (list Z))
    (row_bytes : Z) (pre post tmp : list byte) (d dst_pitch : Z)
    (pix : list byte) :
  malloc host row_bytes = Some tmp -> len tmp = row_bytes ->
  0 <= row_bytes <= 16383 ->
  Forall (fun l => Forall (in_range U8) l
                   /\ Z.of_nat (length l) = 3 * Z.quot row_bytes 4) lines ->
  4 * Z.quot row_bytes 4 <= dst_pitch ->
  planar_fit (Z.quot row_bytes 4) (length lines) d dst_pitch (len pix) ->
  exists pix',
    uncompress_rle32 host
      (pre ++ concat (map (pack_line U8 row_bytes) lines) ++ post)
      (len pre) row_bytes pix d dst_pitch (Z.of_nat (length lines)) = Ok pix'
    /\ len pix' = len pix
    /\ (forall (y : nat) (l : list Z) (x : nat) (c : Z),
          lines !! y = Some l -> Z.of_nat x < Z.quot row_bytes 4 ->
          0 <= c < 3 ->
          pix' !! Z.to_nat (component_at host d dst_pitch y x c)
          = byte_of_Z
              <$> l !! Z.to_nat (c * Z.quot row_bytes 4 + Z.of_nat x))
    /\ (forall j : nat,
          (forall (y x : nat) (c : Z),
             (y < length lines)%nat -> Z.of_nat x < Z.quot row_bytes 4 ->
             0 <= c < 3 ->
             Z.of_nat j <> component_at host d dst_pitch y x c) ->
          pix' !! j = pix !! j).
Proof.
  intros Hm Htmp Hrow Hlines Hpitch Hfit.
  unfold uncompress_rle32. rewrite Hm, Nat2Z.id.
  assert (Hq : 0 <= Z.quot row_bytes 4 /\ 3 * Z.quot row_bytes 4 <= row_bytes).
  { rewrite Z.quot_div_nonneg by lia. Z.div_mod_to_equations. lia. }
  apply rle32_rows_lines; (assumption || lia).
Qed.

(** Two pixels of one row on a little-endian host: the line holds the reds
    [1; 2], the greens [3; 4] and the blues [5; 6], and the pixels come out
    as blue, green, red and the untouched fourth byte. *)
Lemma uncompress_rle32_planar_rows_witness :
  exists pix',
    uncompress_rle32 host_le (pack_line U8 8 [1; 2; 3; 4; 5; 6]) 0 8
      (replicate 8 xff) 0 8 1 = Ok pix'
    /\ len pix' = 8
    /\ pix' !! 2%nat = Some x01 /\ pix' !! 3%nat = Some xff.
Proof.
  destruct (uncompress_rle32_planar_rows host_le [[1; 2; 3; 4; 5; 6]] 8
              [] [] (replicate 8 x00) 0 8 (replicate 8 xff)
              eq_refl eq_refl ltac:(lia)
              ltac:(repeat constructor; vm_compute; discriminate)
              ltac:(vm_compute; discriminate)
              ltac:(vm_compute; repeat split; discriminate))
    as (pix' & E & Hl & Hs & Hk).
  exists pix'. split; [exact E|]. split; [exact Hl|]. split.
  - exact (Hs 0%nat [1; 2; 3; 4; 5; 6] 0%nat 0 eq_refl eq_refl
             (conj (Z.le_refl 0) eq_refl)).
  - rewrite (Hk 3%nat); [reflexivity|].
    intros y x c Hy Hx Hc. vm_compute in Hx.
    assert (Hy0 : y = 0%nat) by (simpl in Hy; lia). subst y.
    unfold component_at, component_offset. simpl LITTLE_ENDIAN.
    change (Z.quot 8 4) with 2 in Hx. lia.
Defined.

(** ** Pictures that are not packed *)

Lemma memcpy_loop_copies (buf : list byte) (n : nat) (pix : list byte)
    (d s : Z) :
  0 <= s -> s + Z.of_nat n <= len buf ->
  0 <= d -> d + Z.of_nat n <= len pix ->
  memcpy_loop buf n pix d s
  = Ok (splice pix d (take n (drop (Z.to_nat s) buf))).
Proof.
  revert pix d s. induction n as [|n IH]; intros pix d s Hs Hb Hd Hp.
  { simpl. rewrite take_0, splice_nil. reflexivity. }
  cbn [memcpy_loop].
  destruct (lookup_lt_is_Some_2 buf (Z.to_nat s)) as [b Eb];
    [unfold len in Hb; lia|].
  rewrite (peek_lookup buf s b Hs Eb). cbn [mbind outcome_bind].
  rewrite poke_inside by lia. cbn [mbind outcome_bind].
  rewrite byte_of_Z_of_byte.
  rewrite IH; [|lia|lia|lia|unfold len in *; rewrite length_insert; lia].
  rewrite splice_cons by lia.
  rewrite (drop_S buf b (Z.to_nat s) Eb). cbn [take].
  replace (Z.to_nat (s + 1)) with (S (Z.to_nat s)) by lia. reflexivity.
Qed.

(** X6: rows shorter than eight bytes.  With [row_bytes < 8] the picture is
    taken as not packed whatever its depth and pack type: the
    [row_bytes * height] bytes at [src] are stored at [dst] in one block, one
    row right after the other whatever the pitch of the surface, and no byte
    is swapped. *)
Theorem uncompress_picture_short_rows (host : Host) (buf : list byte)
    (s row_bytes : Z) (pix : list byte)
    (d dst_pitch depth height pack_type : Z) :
  row_bytes < 8 -> 0 <= row_bytes * height ->
  0 <= s -> s + row_bytes * height <= len buf ->
  0 <= d -> d + row_bytes * height <= len pix ->
  uncompress_picture host buf s row_bytes pix d dst_pitch depth height
    pack_type
  = Ok (splice pix d
          (take (Z.to_nat (row_bytes * height)) (drop (Z.to_nat s) buf))).
Proof.
  intros Hrow Hn Hs Hb Hd Hp. unfold uncompress_picture, memcpy.
  replace (row_bytes <? 8) with true by (symmetry; apply Z.ltb_lt; lia).
  replace (row_bytes * height <? 0) with false
    by (symmetry; apply Z.ltb_ge; lia).
  apply memcpy_loop_copies; lia.
Qed.

(** Two rows of three bytes into a surface whose pitch is four: the second
    row starts at byte 3 of the pixels, not at byte 4. *)
Lemma uncompress_picture_short_rows_witness :
  uncompress_picture host_le (bytes_of [9; 1; 2; 3; 4; 5; 6; 9]) 1 3
    (replicate 8 x00) 0 4 16 2 0
  = Ok (bytes_of [1; 2; 3; 4; 5; 6; 0; 0]).
Proof.
  exact (uncompress_picture_short_rows host_le
           (bytes_of [9; 1; 2; 3; 4; 5; 6; 9]) 1 3 (replicate 8 x00) 0 4 16 2 0
           eq_refl ltac:(vm_compute; discriminate) ltac:(lia)
           ltac:(vm_compute; discriminate) ltac:(lia)
           ltac:(vm_compute; discriminate)).
Defined.

(** ** Where the surface of a picture comes from *)

Lemma land_3fff (v : Z) : 0 <= v -> 0 <= Z.land v 0x3fff <= 0x3fff.
Proof.
  intros Hv. change 0x3fff with (Z.ones 14).
  rewrite Z.land_ones by lia. change (Z.ones 14) with (2 ^ 14 - 1).
  pose proof (Z.mod_pos_bound v (2 ^ 14) ltac:(lia)). lia.
Qed.

(** The PixMap record: 46 bytes, 50 with the base address of opcode 0x009a;
    its fields are 16-bit values, [row_bytes] without the two flag bits. *)
Lemma read_pixmap_fields (buf : list byte) (opcode p : Z) (pm : pixmap)
    (p' : Z) :
  read_pixmap buf opcode p = Ok (pm, p') ->
  p' = p + (if opcode =? 0x009a then 50 else 46)
  /\ 0 <= pm_row_bytes pm <= 0x3fff
  /\ 0 <= pm_height pm < 65536
  /\ 0 <= pm_width pm < 65536
  /\ 0 <= pm_pack_type pm < 65536
  /\ 0 <= pm_pixel_size pm < 65536.
Proof.
  unfold read_pixmap. intros H. bind_inv H. injection H as <- <-.
  assert (Ha : a = p + (if opcode =? 0x009a then 4 else 0)).
  { destruct (opcode =? 0x009a).
    - apply RWseek_Ok in E. lia.
    - injection E as <-. lia. }
  repeat match goal with
         | E : SDL_ReadBE16 _ _ = Ok _ |- _ =>
             apply ReadBE16_Ok in E as (_ & ? & _ & E);
             apply elt_at_range in E; simpl in E
         | E : SDL_RWseek _ _ _ = Ok _ |- _ =>
             apply RWseek_Ok in E as (? & _)
         end.
  cbn [pm_row_bytes pm_height pm_width pm_pack_type pm_pixel_size].
  split; [destruct (opcode =? 0x009a); lia|].
  split; [apply land_3fff; lia|].
  split; [apply Z.mod_pos_bound; lia|].
  split; [apply Z.mod_pos_bound; lia|].
  split; lia.
Qed.

Section SurfaceOrigin.

Variable host : Host.
Variable buf : list byte.

(** The surface is the allocator's: the decoder fills in pixels and palette
    and leaves the rest of it alone. *)
Lemma copy_bits_surface (opcode p : Z) (st' : pict_state) (s : SDL_Surface) :
  copy_bits host buf opcode p = Ok st' -> surface st' = Some s ->
  exists pm p1 s0,
    read_pixmap buf opcode p = Ok (pm, p1)
    /\ SDL_CreateRGBSurface host (pm_width pm) (pm_height pm)
         (pm_pixel_size pm) (channel_masks (pm_pixel_size pm)) = Some s0
    /\ (surf_w s, surf_h s, BitsPerPixel s, masks s, pitch s)
       = (surf_w s0, surf_h s0, BitsPerPixel s0, masks s0, pitch s0).
Proof.
  unfold copy_bits. intros H Hs.
  apply bind_Ok in H as ([pm p1] & E & H). cbv beta iota in H.
  destruct (SDL_CreateRGBSurface _ _ _ _ _) as [s0|] eqn:Ec.
  - bind_inv H. injection H as <-. simpl in Hs. injection Hs as <-.
    exists pm, p1, s0. repeat split; assumption.
  - injection H as <-. discriminate Hs.
Qed.

Lemma opcode_step_image (st st' : pict_state) :
  opcode_step host buf st = Ok st' ->
  (surface st' = surface st /\ cursor st <= cursor st')
  \/ exists opcode,
       SDL_ReadBE16 buf (cursor st) = Ok (opcode, cursor st + 2)
       /\ (opcode = 0x0098 \/ opcode = 0x009a)
       /\ copy_bits host buf opcode (cursor st + 2) = Ok st'.
Proof.
  unfold opcode_step. intros H.
  apply bind_Ok in H as ([opcode p] & E & H). cbv beta iota in H.
  pose proof E as E'.
  apply ReadBE16_Ok in E' as (Hc & -> & Hp & Ev).
  pose proof (elt_at_range buf U16 _ _ Ev) as Hv. simpl in Hv.
  destruct (_ || _).
  { injection H as <-. left. simpl. auto with lia. }
  destruct (opcode =? 160).
  { bind_inv H. injection H as <-. apply RWseek_Ok in E0.
    left. simpl. auto with lia. }
  destruct (opcode =? 161).
  { bind_inv H. injection H as <-.
    apply RWseek_Ok in E0. apply ReadBE16_Ok in E1 as (? & -> & ? & Es).
    pose proof (elt_at_range buf U16 _ _ Es) as Hs. simpl in Hs.
    apply RWseek_Ok in E2. left. simpl. auto with lia. }
  destruct (opcode =? 3072).
  { bind_inv H. injection H as <-. apply RWseek_Ok in E0.
    left. simpl. auto with lia. }
  destruct (opcode =? 255).
  { injection H as <-. left. simpl. auto with lia. }
  destruct (opcode =? 1).
  { bind_inv H. injection H as <-.
    apply ReadBE16_Ok in E0 as (? & -> & ? & Es). apply RWseek_Ok in E1.
    pose proof (elt_at_range buf U16 _ _ Es) as Hs. simpl in Hs.
    left. simpl. split; [reflexivity|]. lia. }
  destruct ((opcode =? 152) || (opcode =? 154)) eqn:Hop; [|discriminate H].
  right. exists opcode. split; [exact E|]. split; [|exact H].
  apply orb_true_iff in Hop.
  destruct Hop as [Hop|Hop]; apply Z.eqb_eq in Hop; auto.
Qed.

Lemma opcode_loop_surface (fuel : nat) (st st' : pict_state)
    (s : SDL_Surface) :
  opcode_loop host buf fuel st = Ok st' ->
  done st = false -> surface st = None -> surface st' = Some s ->
  exists q opcode st1,
    cursor st <= q
    /\ SDL_ReadBE16 buf q = Ok (opcode, q + 2)
    /\ (opcode = 0x0098 \/ opcode = 0x009a)
    /\ copy_bits host buf opcode (q + 2) = Ok st1
    /\ surface st1 = Some s.
Proof.
  revert st. induction fuel as [|fuel IH]; intros st H Hd Hn Hs;
    cbn [opcode_loop] in H; rewrite Hd in H; [discriminate|].
  apply bind_Ok in H as (st1 & E & H).
  destruct (opcode_step_image st st1 E) as [[Hsame Hc]|(op & Er & Hop & Ec)].
  - destruct (done st1) eqn:Hd1.
    + rewrite opcode_loop_done in H by exact Hd1. injection H as <-.
      congruence.
    + destruct (IH st1 H Hd1 ltac:(congruence) Hs)
        as (q & op & st2 & Hq & Hrest).
      exists q, op, st2. split; [lia|exact Hrest].
  - pose proof (copy_bits_done host buf _ _ _ Ec) as Hd1.
    rewrite opcode_loop_done in H by exact Hd1. injection H as <-.
    exists (cursor st), op, st1. split; [lia|]. auto.
Qed.

End SurfaceOrigin.

(** X7: where the surface comes from.  A surface returned by
    [picture_to_surface] was made for an image opcode (0x0098 or 0x009a)
    read at an offset of 10 or more: its PixMap record takes 46 bytes of the
    resource, 50 for opcode 0x009a, [row_bytes] is below 0x4000, width and
    height are 16-bit values, and the surface is the one
    [SDL_CreateRGBSurface] returned for that width, height and depth with
    the masks of the depth; size, depth, masks and pitch are as the
    allocator set them. *)
Theorem picture_to_surface_origin (host : Host) (buf : list byte)
    (s : SDL_Surface) :
  picture_to_surface host (Some buf) = Ok (Some s) ->
  exists q opcode pm s0,
    10 <= q
    /\ SDL_ReadBE16 buf q = Ok (opcode, q + 2)
    /\ (opcode = 0x0098 \/ opcode = 0x009a)
    /\ read_pixmap buf opcode (q + 2)
       = Ok (pm, q + 2 + (if opcode =? 0x009a then 50 else 46))
    /\ 0 <= pm_row_bytes pm <= 0x3fff
    /\ 0 <= pm_height pm < 65536
    /\ 0 <= pm_width pm < 65536
    /\ SDL_CreateRGBSurface host (pm_width pm) (pm_height pm)
         (pm_pixel_size pm) (channel_masks (pm_pixel_size pm)) = Some s0
    /\ (surf_w s, surf_h s, BitsPerPixel s, masks s, pitch s)
       = (surf_w s0, surf_h s0, BitsPerPixel s0, masks s0, pitch s0).
Proof.
  unfold picture_to_surface. intros H.
  destruct (SDL_RWFromMem host buf); [|discriminate].
  apply bind_Ok in H as (p & Ep & H). apply RWseek_Ok in Ep as (-> & _).
  apply bind_Ok in H as (st & El & H). injection H as Hs.
  destruct (opcode_loop_surface host buf _ _ _ s El eq_refl eq_refl Hs)
    as (q & op & st1 & Hq & Er & Hop & Ec & Hs1).
  destruct (copy_bits_surface host buf _ _ _ s Ec Hs1)
    as (pm & p1 & s0 & Epm & Ecr & Hgeo).
  destruct (read_pixmap_fields buf _ _ _ _ Epm)
    as (-> & Hrb & Hh & Hw & _).
  exists q, op, pm, s0. simpl in Hq. auto 10.
Qed.

(** The two-by-two indexed picture: the image opcode is at offset 14. *)
Lemma picture_to_surface_origin_witness :
  exists q opcode pm s0,
    10 <= q
    /\ SDL_ReadBE16 pict_indexed q = Ok (opcode, q + 2)
    /\ (opcode = 0x0098 \/ opcode = 0x009a)
    /\ read_pixmap pict_indexed opcode (q + 2)
       = Ok (pm, q + 2 + (if opcode =? 0x009a then 50 else 46))
    /\ SDL_CreateRGBSurface host_le (pm_width pm) (pm_height pm)
         (pm_pixel_size pm) (channel_masks (pm_pixel_size pm)) = Some s0.
Proof.
  assert (E : exists s,
             picture_to_surface host_le (Some pict_indexed) = Ok (Some s))
    by (eexists; vm_compute; reflexivity).
  destruct E as [s E].
  destruct (picture_to_surface_origin host_le pict_indexed s E)
    as (q & op & pm & s0 & Hq & Er & Hop & Epm & _ & _ & _ & Ec & _).
  exists q, op, pm, s0. auto.
Defined.

(** ** A picture drawn on the screen *)

Lemma sint16_small (z : Z) : -32768 <= z < 32768 -> sint16 z = z.
Proof. intros Hz. unfold sint16. rewrite Z.mod_small by lia. lia. Qed.

Lemma uint32_small (z : Z) : 0 <= z < 4294967296 -> uint32 z = z.
Proof. intros Hz. apply Z.mod_small. exact Hz. Qed.

Lemma uint32_range (z : Z) : 0 <= uint32 z < 4294967296.
Proof. apply Z.mod_pos_bound. lia. Qed.

(** The corner of a rectangle of size [w] centered in [W], as
    [draw_picture] computes it. *)
Lemma centered_corner (W w : Z) :
  0 <= W < 32768 -> 0 <= w < 65536 ->
  let x := sint16 (Z.quot (W - w) 2) in
  let x' := if x <? 0 then 0 else x in
  0 <= x'
  /\ (w <= W -> W - w - 1 <= 2 * x' <= W - w)
  /\ (W < w -> x' = 0).
Proof.
  intros HW Hw. cbv zeta.
  assert (Hq : -32768 <= Z.quot (W - w) 2 < 32768
               /\ (w <= W -> W - w - 1 <= 2 * Z.quot (W - w) 2 <= W - w)
               /\ (W < w -> Z.quot (W - w) 2 <= 0)).
  { Z.quot_rem_to_equations. lia. }
  destruct Hq as (Hr & Hc & Hn).
  rewrite sint16_small by exact Hr.
  destruct (Z.ltb_spec (Z.quot (W - w) 2) 0); lia.
Qed.

(** X8: the picture centered.  For a picture that decodes to a surface,
    [draw_picture] makes these calls and no others: it sets the clipping
    rectangle if one is active, blits the whole picture once, resets the
    clipping if it set it, updates the rectangle the blit left and frees
    the surface.  The blit goes to a rectangle of the size of the picture
    whose corner is never negative: a picture that fits the screen is
    centered on it, to the pixel or with the odd pixel to the right and
    below, and one that is wider or higher than the screen starts at the
    left or top edge. *)
Theorem draw_picture_centered (host : Host) (scr : Screen)
    (rsrc : option (list byte)) (s : SDL_Surface) :
  picture_to_surface host rsrc = Ok (Some s) ->
  0 <= video_w scr < 32768 -> 0 <= video_h scr < 32768 ->
  0 <= surf_w s < 65536 -> 0 <= surf_h s < 65536 ->
  exists (r : SDL_Rect) (top_ left_ bottom_ right_ : Z),
    draw_clip_rect scr = (top_, left_, bottom_, right_)
    /\ draw_picture host scr rsrc
       = Ok ((if draw_clip_rect_active scr
              then [SetClipping s top_ left_ bottom_ right_] else [])
             ++ [BlitSurface s None r]
             ++ (if draw_clip_rect_active scr
                 then [SetClipping s 0 0 0 0] else [])
             ++ [UpdateRects (blit_rect scr s None r); FreeSurface s])
    /\ rect_w r = surf_w s /\ rect_h r = surf_h s
    /\ 0 <= rect_x r /\ 0 <= rect_y r
    /\ (surf_w s <= video_w scr ->
        video_w scr - surf_w s - 1 <= 2 * rect_x r <= video_w scr - surf_w s)
    /\ (surf_h s <= video_h scr ->
        video_h scr - surf_h s - 1 <= 2 * rect_y r <= video_h scr - surf_h s)
    /\ (video_w scr < surf_w s -> rect_x r = 0)
    /\ (video_h scr < surf_h s -> rect_y r = 0).
Proof.
  intros E HW HH Hw Hh. unfold draw_picture. rewrite E.
  cbn [mbind outcome_bind].
  destruct (draw_clip_rect scr) as [[[t l] b] rt].
  eexists. exists t, l, b, rt. split; [reflexivity|].
  split; [reflexivity|].
  pose proof (centered_corner (video_w scr) (surf_w s) HW Hw) as Hx.
  pose proof (centered_corner (video_h scr) (surf_h s) HH Hh) as Hy.
  cbv zeta in Hx, Hy. cbn [rect_x rect_y rect_w rect_h].
  destruct (sint16 (Z.quot (video_w scr - surf_w s) 2) <? 0);
    cbn [rect_x rect_y rect_w rect_h];
    destruct (sint16 (Z.quot (video_h scr - surf_h s) 2) <? 0);
    cbn [rect_x rect_y rect_w rect_h];
    rewrite ?uint16_small by lia; intuition lia.
Qed.

(** The two-by-two picture on the screen of 800 by 600: its corner is at
    (399, 299). *)
Lemma draw_picture_centered_witness :
  exists s r,
    draw_picture host_le (screen_800 []) (Some pict_indexed)
    = Ok [BlitSurface s None r; UpdateRects r; FreeSurface s]
    /\ rect_x r = 399 /\ rect_y r = 299.
Proof.
  assert (E : exists s,
             picture_to_surface host_le (Some pict_indexed) = Ok (Some s)
             /\ surf_w s = 2 /\ surf_h s = 2).
  { eexists. split; [vm_compute; reflexivity|]. split; reflexivity. }
  destruct E as (s & E & Hw & Hh).
  destruct (draw_picture_centered host_le (screen_800 []) (Some pict_indexed)
              s E ltac:(simpl; lia) ltac:(simpl; lia)
              ltac:(rewrite Hw; lia) ltac:(rewrite Hh; lia))
    as (r & t & l & b & rt & _ & Ed & _ & _ & _ & _ & Hx & Hy & _).
  exists s, r. split; [exact Ed|].
  rewrite Hw in Hx. rewrite Hh in Hy. simpl in Hx, Hy. lia.
Defined.

(** ** A picture scrolled across the screen *)

Section ScrollFacts.

Variable MACHINE_TICKS_PER_SECOND : Z.
Variable scr : Screen.

#[local] Abbreviation divisor text_block :=
  (uint32 (if text_block : bool
           then 2 * SCROLLING_SPEED MACHINE_TICKS_PER_SECOND
           else SCROLLING_SPEED MACHINE_TICKS_PER_SECOND)).

(** The offset of a pass: never past the end of the picture, and the pass
    is the last one exactly when the time elapsed would take it there. *)
Lemma scroll_delta_cases (picture_width picture_height : Z)
    (text_block : bool) (start_tick now : Z) :
  0 <= picture_width < 4294967296 -> 0 <= picture_height < 4294967296 ->
  divisor text_block <> 0 ->
  let raw := uint32 (now - start_tick) / divisor text_block in
  exists delta,
    scroll_delta MACHINE_TICKS_PER_SECOND picture_width picture_height
      text_block start_tick now
    = Some (delta,
            ((640 <? picture_width) && (picture_width - 640 <? raw))
            || ((480 <? picture_height) && (picture_height - 480 <? raw)))
    /\ 0 <= delta <= raw
    /\ (640 < picture_width -> delta <= picture_width - 640)
    /\ (480 < picture_height -> delta <= picture_height - 480).
Proof.
  intros Hw Hh Hdiv raw. unfold scroll_delta, screen_width, screen_height.
  destruct (Z.eqb_spec (divisor text_block) 0) as [E0|_]; [contradiction|].
  fold raw.
  assert (Hraw : 0 <= raw).
  { apply Z.div_pos; [apply uint32_range|].
    pose proof (uint32_range
                  (if text_block
                   then 2 * SCROLLING_SPEED MACHINE_TICKS_PER_SECOND
                   else SCROLLING_SPEED MACHINE_TICKS_PER_SECOND)). lia. }
  destruct (Z.ltb_spec 640 picture_width) as [Hsw|Hsw];
    destruct (Z.ltb_spec 480 picture_height) as [Hsh|Hsh];
    cbn [andb orb];
    rewrite ?(uint32_small (picture_width - 640)) by lia;
    rewrite ?(uint32_small (picture_height - 480)) by lia.
  - destruct (Z.ltb_spec (picture_width - 640) raw) as [H1|H1]; cbn [orb].
    + destruct (Z.ltb_spec (picture_height - 480) (picture_width - 640));
        eexists; (split; [reflexivity|lia]).
    + destruct (Z.ltb_spec (picture_height - 480) raw);
        eexists; (split; [reflexivity|lia]).
  - rewrite orb_false_r.
    destruct (Z.ltb_spec (picture_width - 640) raw);
      eexists; (split; [reflexivity|lia]).
  - destruct (Z.ltb_spec (picture_height - 480) raw);
      eexists; (split; [reflexivity|lia]).
  - eexists. split; [reflexivity|lia].
Qed.

Lemma last_pass_done (s : SDL_Surface) (text_block : bool)
    (start_tick now : Z) (ev : event_type) :
  last_pass MACHINE_TICKS_PER_SECOND s text_block start_tick (now, ev)
  = (((640 <? surf_w s)
      && (surf_w s - 640
          <? uint32 (now - uint32 start_tick) / divisor text_block))
     || ((480 <? surf_h s)
         && (surf_h s - 480
             <? uint32 (now - uint32 start_tick) / divisor text_block)))
    || match ev with
       | SDL_MOUSEBUTTONDOWN | SDL_KEYDOWN => true
       | _ => false
       end.
Proof.
  unfold last_pass. cbn [fst snd].
  destruct ev; rewrite ?orb_true_r, ?orb_false_r; reflexivity.
Qed.

(** Every blit of the loop takes a window of the size of [src_rect] that
    lies inside the picture. *)
Lemma scroll_loop_blits (s : SDL_Surface) (text_block : bool)
    (start_tick : Z) (frames : list (Z * event_type))
    (src_rect dst_rect : SDL_Rect) (calls : list video_call)
    (e : scroll_end) (s' : SDL_Surface) (src : option SDL_Rect)
    (d : SDL_Rect) :
  0 <= surf_w s <= 33407 -> 0 <= surf_h s <= 33247 ->
  scroll_loop MACHINE_TICKS_PER_SECOND scr s text_block start_tick src_rect
    dst_rect frames = (calls, e) ->
  In (BlitSurface s' src d) calls ->
  s' = s
  /\ exists r,
       src = Some r
       /\ rect_w r = rect_w src_rect /\ rect_h r = rect_h src_rect
       /\ 0 <= rect_x r /\ 0 <= rect_y r
       /\ (640 < surf_w s -> rect_x r <= surf_w s - 640)
       /\ (surf_w s <= 640 -> rect_x r = 0)
       /\ (480 < surf_h s -> rect_y r <= surf_h s - 480)
       /\ (surf_h s <= 480 -> rect_y r = 0).
Proof.
  intros Hw Hh. revert src_rect dst_rect calls e.
  induction frames as [|[now ev] frames IH];
    intros src_rect dst_rect calls e H Hin; cbn [scroll_loop] in H.
  { injection H as <- <-. destruct Hin. }
  destruct (scroll_delta _ _ _ _ _ _) as [[delta dn]|] eqn:Ed.
  2: { injection H as <- <-. destruct Hin. }
  assert (Hdiv : divisor text_block <> 0).
  { intros E0. unfold scroll_delta in Ed. rewrite E0 in Ed.
    discriminate Ed. }
  destruct (scroll_delta_cases (surf_w s) (surf_h s) text_block start_tick
              now ltac:(lia) ltac:(lia) Hdiv)
    as (delta' & Ed' & Hd0 & Hdw & Hdh).
  rewrite Ed in Ed'. injection Ed' as <- _.
  unfold screen_width, screen_height in H.
  match type of H with
  | (let '(calls, e) := ?rest in _) = _ =>
      destruct rest as [calls1 e1] eqn:Erest
  end.
  injection H as <- <-.
  destruct Hin as [Hin|[Hin|Hin]]; [|discriminate Hin|].
  - injection Hin as <- <- <-. split; [reflexivity|].
    eexists. split; [reflexivity|]. cbn [rect_x rect_y rect_w rect_h].
    destruct (Z.ltb_spec 640 (surf_w s)); destruct (Z.ltb_spec 480 (surf_h s));
      rewrite ?sint16_small by lia; repeat split; lia.
  - destruct (dn || _); [injection Erest as <- <-; destruct Hin|].
    destruct (IH _ _ _ _ Erest Hin) as (-> & r & -> & Hrw & Hrh & Hrest).
    split; [reflexivity|]. exists r. split; [reflexivity|].
    cbn [rect_w rect_h] in Hrw, Hrh. auto.
Qed.

(** The loop goes on up to the first last pass and returns after it; every
    pass is one blit and one update of the rectangle the blit left. *)
Lemma scroll_loop_passes (s : SDL_Surface) (text_block : bool)
    (start_tick : Z) (pre : list (Z * event_type)) (f : Z * event_type)
    (post : list (Z * event_type)) (src_rect dst_rect : SDL_Rect) :
  0 <= surf_w s < 4294967296 -> 0 <= surf_h s < 4294967296 ->
  divisor text_block <> 0 ->
  Forall (fun f' => last_pass MACHINE_TICKS_PER_SECOND s text_block
                      start_tick f' = false) pre ->
  last_pass MACHINE_TICKS_PER_SECOND s text_block start_tick f = true ->
  exists passes : list (SDL_Rect * SDL_Rect),
    length passes = S (length pre)
    /\ scroll_loop MACHINE_TICKS_PER_SECOND scr s text_block
         (uint32 start_tick) src_rect dst_rect (pre ++ f :: post)
       = (flat_map
            (fun p => [BlitSurface s (Some (fst p)) (snd p);
                       UpdateRects (blit_rect scr s (Some (fst p)) (snd p))])
            passes,
          Returned).
Proof.
  intros Hw Hh Hdiv Hpre Hf. revert src_rect dst_rect.
  induction Hpre as [|[now ev] pre Hnow Hpre IH]; intros src_rect dst_rect.
  - destruct f as [now ev]. cbn [app scroll_loop].
    destruct (scroll_delta_cases (surf_w s) (surf_h s) text_block
                (uint32 start_tick) now Hw Hh Hdiv)
      as (delta & -> & _).
    rewrite last_pass_done in Hf. rewrite Hf.
    eexists [(_, _)]. split; reflexivity.
  - cbn [app scroll_loop].
    destruct (scroll_delta_cases (surf_w s) (surf_h s) text_block
                (uint32 start_tick) now Hw Hh Hdiv)
      as (delta & -> & _).
    rewrite last_pass_done in Hnow. rewrite Hnow.
    match goal with
    | |- context [scroll_loop _ _ _ _ _ ?sr ?dr _] =>
        destruct (IH sr dr) as (passes & Hlen & ->)
    end.
    eexists ((_, _) :: passes). split; [simpl; lia|reflexivity].
Qed.

Lemma scroll_loop_same_surface (s : SDL_Surface) (text_block : bool)
    (start_tick : Z) (frames : list (Z * event_type))
    (src_rect dst_rect : SDL_Rect) (s' : SDL_Surface)
    (src : option SDL_Rect) (d : SDL_Rect) :
  In (BlitSurface s' src d)
    (fst (scroll_loop MACHINE_TICKS_PER_SECOND scr s text_block start_tick
            src_rect dst_rect frames)) ->
  s' = s.
Proof.
  revert src_rect dst_rect.
  induction frames as [|[now ev] frames IH]; intros src_rect dst_rect;
    cbn [scroll_loop]; [intros []|].
  destruct (scroll_delta _ _ _ _ _ _) as [[delta dn]|]; [|intros []].
  match goal with
  | |- context [let '(calls, e) := ?rest in _] =>
      destruct rest as [calls1 e1] eqn:Erest
  end.
  cbn [fst]. intros [Hin|[Hin|Hin]]; [congruence|discriminate Hin|].
  destruct (dn || _); [injection Erest as <- <-; destruct Hin|].
  eapply IH. rewrite Erest. exact Hin.
Qed.

End ScrollFacts.

(** X9: the window of a scroll.  Every blit of
    [scroll_full_screen_pict_resource_from_scenario] is of a picture wider
    than 640 or higher than 480, and takes from it a window of 640 by 480,
    or of the width or height of the picture where that is less, which lies
    inside the picture. *)
Theorem scroll_window_inside_picture (MACHINE_TICKS_PER_SECOND : Z)
    (scr : Screen) (host : Host) (pict_resource_number : Z)
    (text_block : bool) (start_tick : Z) (frames : list (Z * event_type))
    (calls : list video_call) (e : scroll_end) (s : SDL_Surface)
    (src : option SDL_Rect) (d : SDL_Rect) :
  scroll_full_screen_pict_resource_from_scenario MACHINE_TICKS_PER_SECOND
    scr host pict_resource_number text_block start_tick frames
  = Ok (calls, e) ->
  In (BlitSurface s src d) calls ->
  0 <= surf_w s <= 33407 -> 0 <= surf_h s <= 33247 ->
  picture_to_surface host
    (get_picture_resource_from_scenario scr pict_resource_number)
  = Ok (Some s)
  /\ (640 < surf_w s \/ 480 < surf_h s)
  /\ exists r,
       src = Some r
       /\ rect_w r = Z.min 640 (surf_w s)
       /\ rect_h r = Z.min 480 (surf_h s)
       /\ 0 <= rect_x r /\ rect_x r + rect_w r <= surf_w s
       /\ 0 <= rect_y r /\ rect_y r + rect_h r <= surf_h s.
Proof.
  unfold scroll_full_screen_pict_resource_from_scenario.
  intros H Hin Hw Hh.
  apply bind_Ok in H as ([s0|] & E & H);
    [|injection H as <- <-; destruct Hin].
  unfold screen_width, screen_height in H.
  destruct ((640 <? surf_w s0) || (480 <? surf_h s0)) eqn:Hscroll.
  2: { injection H as <- <-. destruct Hin as [Hin|[]]. discriminate Hin. }
  match type of H with
  | (let '(calls, e) := ?rest in _) = _ =>
      destruct rest as [calls1 e1] eqn:Erest
  end.
  assert (Hin1 : In (BlitSurface s src d) calls1).
  { destruct e1; injection H as <- <-; try exact Hin.
    apply in_app_iff in Hin as [Hin|[Hin|[]]]; [exact Hin|discriminate Hin]. }
  assert (Hs : s = s0).
  { eapply scroll_loop_same_surface. rewrite Erest. exact Hin1. }
  subst s0. split; [exact E|]. split.
  { apply orb_true_iff in Hscroll as [Hs|Hs]; apply Z.ltb_lt in Hs; auto. }
  destruct (scroll_loop_blits _ _ _ _ _ _ _ _ _ _ _ _ _ Hw Hh Erest Hin1)
    as (_ & r & -> & Hrw & Hrh & Hx & Hy & Hxw & Hx0 & Hyh & Hy0).
  exists r. split; [reflexivity|]. cbn [rect_w rect_h] in Hrw, Hrh.
  rewrite Hrw, Hrh.
  destruct (Z.ltb_spec 640 (surf_w s)); destruct (Z.ltb_spec 480 (surf_h s));
    rewrite ?uint16_small by lia; repeat split; lia.
Qed.

(** A picture of 642 by 1 scrolled at 50 ticks for a pixel: the first
    window taken is at 0, 640 wide. *)
Lemma scroll_window_inside_picture_witness :
  exists s r d rest,
    scroll_full_screen_pict_resource_from_scenario 1000
      (screen_800 pict_wide) host_le 0 false 0
      [(100, SDL_NOEVENT); (5000, SDL_NOEVENT)]
    = Ok (BlitSurface s (Some r) d :: rest, Returned)
    /\ rect_w r = 640 /\ rect_x r + 640 <= 642.
Proof.
  assert (E : exists s r d rest,
             scroll_full_screen_pict_resource_from_scenario 1000
               (screen_800 pict_wide) host_le 0 false 0
               [(100, SDL_NOEVENT); (5000, SDL_NOEVENT)]
             = Ok (BlitSurface s (Some r) d :: rest, Returned)
             /\ surf_w s = 642 /\ surf_h s = 1).
  { do 4 eexists. split; [vm_compute; reflexivity|]. split; reflexivity. }
  destruct E as (s & r & d & rest & E & Hw & Hh).
  destruct (scroll_window_inside_picture 1000 (screen_800 pict_wide) host_le
              0 false 0 _ _ _ s (Some r) d E ltac:(left; reflexivity)
              ltac:(rewrite Hw; lia) ltac:(rewrite Hh; lia))
    as (_ & _ & r' & Hr & Hrw & _ & _ & Hx & _).
  injection Hr as <-. rewrite Hw in Hrw, Hx. simpl in Hrw.
  exists s, r, d, rest. split; [exact E|]. split; [exact Hrw|].
  rewrite Hrw in Hx. exact Hx.
Defined.

(** X10: when a scroll ends.  For a picture wider than 640 or higher than
    480, the calls of the scroll are, for every pass up to and including
    the first pass in which a key or mouse button went down or the time
    elapsed takes the window past the end of the picture, one blit of a
    window of the picture followed by one update of the rectangle the blit
    left, and after the last pass the release of the surface; it then
    returns, whatever the clock and the events would give after that. *)
Theorem scroll_returns_after_last_pass (MACHINE_TICKS_PER_SECOND : Z)
    (scr : Screen) (host : Host) (pict_resource_number : Z)
    (text_block : bool) (start_tick : Z) (pre : list (Z * event_type))
    (f : Z * event_type) (post : list (Z * event_type)) (s : SDL_Surface) :
  picture_to_surface host
    (get_picture_resource_from_scenario scr pict_resource_number)
  = Ok (Some s) ->
  640 < surf_w s \/ 480 < surf_h s ->
  0 <= surf_w s < 4294967296 -> 0 <= surf_h s < 4294967296 ->
  uint32 (if text_block
          then 2 * SCROLLING_SPEED MACHINE_TICKS_PER_SECOND
          else SCROLLING_SPEED MACHINE_TICKS_PER_SECOND) <> 0 ->
  Forall (fun f' => last_pass MACHINE_TICKS_PER_SECOND s text_block
                      start_tick f' = false) pre ->
  last_pass MACHINE_TICKS_PER_SECOND s text_block start_tick f = true ->
  exists passes : list (SDL_Rect * SDL_Rect),
    length passes = S (length pre)
    /\ scroll_full_screen_pict_resource_from_scenario
         MACHINE_TICKS_PER_SECOND scr host pict_resource_number text_block
         start_tick (pre ++ f :: post)
       = Ok (flat_map
               (fun p =>
                  [BlitSurface s (Some (fst p)) (snd p);
                   UpdateRects (blit_rect scr s (Some (fst p)) (snd p))])
               passes
             ++ [FreeSurface s],
             Returned).
Proof.
  intros E Hscroll Hw Hh Hdiv Hpre Hf.
  unfold scroll_full_screen_pict_resource_from_scenario.
  rewrite E. cbn [mbind outcome_bind].
  unfold screen_width, screen_height.
  replace ((640 <? surf_w s) || (480 <? surf_h s)) with true.
  2: { symmetry. apply orb_true_iff.
       destruct Hscroll; [left|right]; apply Z.ltb_lt; assumption. }
  match goal with
  | |- context [scroll_loop _ _ _ _ _ ?sr ?dr _] =>
      destruct (scroll_loop_passes MACHINE_TICKS_PER_SECOND scr s text_block
                  start_tick pre f post sr dr Hw Hh Hdiv Hpre Hf)
        as (passes & Hlen & ->)
  end.
  exists passes. auto.
Qed.

(** The picture of 642 by 1 at 50 ticks for a pixel, started at tick 100:
    the window reaches the end, two pixels on, in the pass at tick 250. *)
Lemma scroll_returns_after_last_pass_witness :
  exists s passes,
    length passes = 3%nat
    /\ scroll_full_screen_pict_resource_from_scenario 1000
         (screen_800 pict_wide) host_le 0 false 100
         ([(100, SDL_NOEVENT); (200, other_event)]
          ++ (250, SDL_NOEVENT) :: [(300, SDL_NOEVENT)])
       = Ok (flat_map
               (fun p =>
                  [BlitSurface s (Some (fst p)) (snd p); UpdateRects (snd p)])
               passes
             ++ [FreeSurface s],
             Returned).
Proof.
  assert (E : exists s,
             picture_to_surface host_le
               (get_picture_resource_from_scenario (screen_800 pict_wide) 0)
             = Ok (Some s)
             /\ surf_w s = 642 /\ surf_h s = 1).
  { eexists. split; [vm_compute; reflexivity|]. split; reflexivity. }
  destruct E as (s & E & Hw & Hh).
  destruct (scroll_returns_after_last_pass 1000 (screen_800 pict_wide)
              host_le 0 false 100
              [(100, SDL_NOEVENT); (200, other_event)]
              (250, SDL_NOEVENT) [(300, SDL_NOEVENT)] s E
              ltac:(left; rewrite Hw; lia)
              ltac:(rewrite Hw; lia) ltac:(rewrite Hh; lia)
              ltac:(vm_compute; discriminate)
              ltac:(unfold last_pass; rewrite Hw, Hh;
                    repeat constructor)
              ltac:(unfold last_pass; rewrite Hw, Hh; reflexivity))
    as (passes & Hlen & Ec).
  exists s, passes. split; [exact Hlen|exact Ec].
Defined.

(** ** A color table for a surface without a palette *)

Lemma ReadBE16_inside (buf : list byte) (p : Z) :
  0 <= p -> p + 2 <= len buf ->
  exists v, SDL_ReadBE16 buf p = Ok (v, p + 2) /\ 0 <= v < 65536.
Proof.
  intros Hp Hb.
  destruct (lookup_lt_is_Some_2 buf (Z.to_nat p)) as [b0 E0];
    [unfold len in Hb; lia|].
  destruct (lookup_lt_is_Some_2 buf (Z.to_nat (p + 1))) as [b1 E1];
    [unfold len in Hb; lia|].
  assert (Ev : elt_at U16 buf p = Some (Z_of_byte b0 * 256 + Z_of_byte b1))
    by (unfold elt_at; rewrite E0, E1; reflexivity).
  eexists. split; [apply ReadBE16_elt; [exact Hp|exact Ev]|].
  apply (elt_at_range buf U16 p _ Ev).
Qed.

Lemma read_color_table_null (buf : list byte) (p : Z) :
  0 <= p -> p + 12 <= len buf ->
  read_color_table buf 0x0098 p None = Undefined NullPalette.
Proof.
  intros Hp Hb. unfold read_color_table. cbn [Z.eqb Pos.eqb].
  rewrite RWseek_inside by lia. cbn [mbind outcome_bind].
  destruct (ReadBE16_inside buf (p + 6) ltac:(lia) ltac:(lia))
    as (n & -> & Hn).
  cbn [mbind outcome_bind]. cbv beta iota.
  replace (Z.to_nat (n + 1)) with (S (Z.to_nat n)) by lia.
  cbn [read_colors].
  destruct (ReadBE16_inside buf (p + 6 + 2) ltac:(lia) ltac:(lia))
    as (i & -> & Hi).
  cbn [mbind outcome_bind]. cbv beta iota.
  destruct (ReadBE16_inside buf (p + 6 + 2 + 2) ltac:(lia) ltac:(lia))
    as (r & -> & Hr).
  reflexivity.
Qed.

(** X11: a color table without a palette.  Opcode 0x0098 always reads a
    color table of one entry or more and stores it through the palette of
    the surface; when the surface has none, as for a pixel size of 16 or
    32, the first store goes through a null pointer. *)
Theorem color_table_needs_palette (host : Host) (buf : list byte) (p : Z)
    (pm : pixmap) (p1 : Z) (s0 : SDL_Surface) :
  read_pixmap buf 0x0098 p = Ok (pm, p1) ->
  SDL_CreateRGBSurface host (pm_width pm) (pm_height pm) (pm_pixel_size pm)
    (channel_masks (pm_pixel_size pm)) = Some s0 ->
  palette s0 = None ->
  0 <= p -> p1 + 12 <= len buf ->
  copy_bits host buf 0x0098 p = Undefined NullPalette.
Proof.
  intros Epm Ec Hpal Hp Hb. unfold copy_bits.
  rewrite Epm. cbn [mbind outcome_bind]. cbv beta iota. rewrite Ec, Hpal.
  apply read_pixmap_fields in Epm as (-> & _). cbn [Z.eqb Pos.eqb] in Hb.
  rewrite read_color_table_null by (cbn [Z.eqb Pos.eqb]; lia).
  reflexivity.
Qed.

(** A 16-bit picture of one row of two pixels under opcode 0x0098. *)
Lemma color_table_needs_palette_witness :
  picture_to_surface host_le
    (Some (bytes_of (replicate 10 0 ++ [0x00; 0x98]
                     ++ pixmap_bytes 4 0 0 1 2 0 16 ++ replicate 12 0)))
  = Undefined NullPalette.
Proof.
  pose proof (color_table_needs_palette host_le
                (bytes_of (replicate 10 0 ++ [0x00; 0x98]
                           ++ pixmap_bytes 4 0 0 1 2 0 16 ++ replicate 12 0))
                12 (PixMap 4 1 2 0 16) 58
                (Surface 2 1 16 (Some (0x7c00, 0x03e0, 0x001f)) 4
                   (replicate 4 x00) None)
                eq_refl eq_refl eq_refl ltac:(lia)
                ltac:(vm_compute; discriminate)) as H.
  unfold picture_to_surface. cbn [SDL_RWFromMem host_le].
  change (SDL_RWseek _ 0 10) with (Ok 10 : outcome Z).
  cbn [mbind outcome_bind]. cbn [opcode_loop done].
  unfold opcode_step. cbn [cursor].
  change (SDL_ReadBE16 _ 10) with (Ok (0x0098, 12) : outcome (Z * Z)).
  cbn [mbind outcome_bind]. cbv beta iota. cbn [Z.eqb Pos.eqb orb].
  rewrite H. reflexivity.
Defined.

(** ** Whole pictures *)

Lemma ReadBE16_at (l : list Z) (tail : list byte) (p v : Z) :
  0 <= p -> 0 <= v < 65536 ->
  l !! Z.to_nat p = Some (v / 256) ->
  l !! Z.to_nat (p + 1) = Some (v mod 256) ->
  SDL_ReadBE16 (bytes_of l ++ tail) p = Ok (v, p + 2).
Proof.
  intros Hp Hv E0 E1. apply ReadBE16_app, ReadBE16_elt; [exact Hp|].
  unfold elt_at, bytes_of. rewrite !list_lookup_fmap, E0, E1.
  cbn [fmap option_fmap option_map mbind option_bind].
  rewrite !Z_of_byte_of_small by (Z.div_mod_to_equations; lia).
  f_equal. Z.div_mod_to_equations; lia.
Qed.

Lemma elt_at_app (T : elt) (buf extra : list byte) (i v : Z) :
  elt_at T buf i = Some v -> elt_at T (buf ++ extra) i = Some v.
Proof.
  unfold elt_at. destruct T.
  - destruct (buf !! Z.to_nat i) as [b|] eqn:E; [|discriminate].
    rewrite (lookup_app_l_Some _ _ _ _ E). auto.
  - destruct (buf !! Z.to_nat i) as [b0|] eqn:E0; [|discriminate].
    rewrite (lookup_app_l_Some _ _ _ _ E0). cbn [mbind option_bind].
    destruct (buf !! Z.to_nat (i + 1)) as [b1|] eqn:E1; [|discriminate].
    rewrite (lookup_app_l_Some _ _ _ _ E1). auto.
Qed.

(** The entries of a color table are read back from its bytes. *)
Lemma color_entries_at_bytes (colors : list (Z * Z * Z * Z))
    (pre rest : list Z) (tail : list byte) (p : Z) :
  p = Z.of_nat (length pre) -> Forall color_ok colors ->
  color_entries_at
    (bytes_of (pre ++ flat_map color_bytes colors ++ rest) ++ tail) p
    (length colors)
  = Some (map color_entry colors).
Proof.
  intros Hp Hok. revert pre p Hp.
  induction Hok as [|[[[i r] g] b] colors (Hi & Hr & Hg & Hb) Hok IH];
    intros pre p Hp; [reflexivity|].
  cbn [length color_entries_at flat_map map color_entry color_bytes].
  unfold color_entry_at.
  rewrite <- !app_assoc.
  rewrite (elt_at_app U16 _ tail p i)
    by (apply elt_at_be_bytes; assumption).
  cbn [mbind option_bind].
  rewrite (elt_at_app U16 _ tail (p + 2) r).
  2: { rewrite (app_assoc pre). apply elt_at_be_bytes; [assumption|].
       rewrite length_app. simpl. lia. }
  cbn [mbind option_bind].
  rewrite (elt_at_app U16 _ tail (p + 4) g).
  2: { rewrite (app_assoc pre), (app_assoc (pre ++ _)).
       apply elt_at_be_bytes; [assumption|].
       rewrite !length_app. simpl. lia. }
  cbn [mbind option_bind].
  rewrite (elt_at_app U16 _ tail (p + 6) b).
  2: { rewrite (app_assoc pre), (app_assoc (pre ++ _)),
         (app_assoc ((pre ++ _) ++ _)).
       apply elt_at_be_bytes; [assumption|].
       rewrite !length_app. simpl. lia. }
  cbn [mbind option_bind].
  rewrite (app_assoc pre), (app_assoc (pre ++ _)),
    (app_assoc ((pre ++ _) ++ _)), (app_assoc (((pre ++ _) ++ _) ++ _)).
  rewrite IH by (rewrite !length_app; simpl; lia).
  reflexivity.
Qed.

Lemma rows_fit_rect (T : elt) (lines : list (list Z)) (w d dst_pitch n : Z) :
  Forall (fun l => Z.of_nat (length l) = w) lines ->
  0 <= d -> 0 <= sizeof T * w <= dst_pitch ->
  d + dst_pitch * Z.of_nat (length lines) <= n ->
  rows_fit T lines d dst_pitch n.
Proof.
  intros Hl. revert d. induction Hl as [|l ls Hw Hls IH]; intros d Hd Hp Hn;
    [exact I|].
  cbn [rows_fit]. cbn [length] in Hn. rewrite Hw.
  split; [exact Hd|]. split; [nia|]. apply IH; [lia|exact Hp|nia].
Qed.

Lemma color_bytes_length (colors : list (Z * Z * Z * Z)) :
  length (flat_map color_bytes colors) = (8 * length colors)%nat.
Proof.
  induction colors as [|[[[i r] g] b] colors IH]; [reflexivity|].
  cbn [flat_map color_bytes]. rewrite !length_app, IH. simpl. lia.
Qed.

(** Sums of literal offsets, evaluated. *)
Ltac norm_offsets :=
  repeat match goal with
         | |- context [Z.pos ?a + Z.pos ?b] =>
             let c := eval compute in (Z.pos a + Z.pos b) in
             change (Z.pos a + Z.pos b) with c
         end.

Lemma land_3fff_small (v : Z) : 0 <= v <= 0x3fff -> Z.land v 0x3fff = v.
Proof.
  intros Hv. change 0x3fff with (Z.ones 14).
  rewrite Z.land_ones by lia. apply Z.mod_small.
  change (2 ^ 14) with 16384. change (Z.ones 14) with 16383 in Hv. lia.
Qed.

(** One field of the header read, or skipped. *)
Ltac read_field l tail p v Hlen :=
  first
    [ rewrite (ReadBE16_at l tail p v) by (lia || reflexivity)
    | rewrite RWseek_inside by (rewrite Hlen; lia) ];
  cbn [mbind outcome_bind]; cbv beta iota; norm_offsets.

(** The decode of an indexed picture, step by step through its header,
    its color table and its packed lines. *)
Lemma indexed_picture_decoded (host : Host) (row_bytes width height : Z)
    (colors : list (Z * Z * Z * Z)) (lines : list (list Z))
    (post : list byte) (s0 : SDL_Surface) (cs : list SDL_Color)
    (buf : list byte) :
  buf = indexed_picture row_bytes width height colors lines ++ post ->
  Forall (fun l => Forall (in_range U8) l /\ Z.of_nat (length l) = width) lines ->
  Z.of_nat (length lines) = height ->
  0 <= width <= row_bytes -> 8 <= row_bytes <= 0x3fff -> height < 65536 ->
  colors <> [] -> Z.of_nat (length colors) <= 65536 -> Forall color_ok colors ->
  SDL_RWFromMem host buf = true ->
  SDL_CreateRGBSurface host width height 8 (Some (0xff, 0xff, 0xff)) = Some s0 ->
  palette s0 = Some cs -> length cs = 256%nat ->
  width <= pitch s0 -> len (pixels s0) = pitch s0 * height ->
  picture_to_surface host (Some buf)
  = Ok (Some (Surface (surf_w s0) (surf_h s0) (BitsPerPixel s0) (masks s0)
                (pitch s0)
                (rows_stored (LITTLE_ENDIAN host) U8 lines 0 (pitch s0)
                   (pixels s0))
                (Some (foldl store_entry cs (map color_entry colors))))).
Proof.
  intros Hbuf Hlines Hh Hw Hrow Hh' Hne Hnc Hcol HRW Hcr Hpal Hcs Hpitch Hpix.
  unfold picture_to_surface. rewrite HRW. subst buf.
  unfold indexed_picture. rewrite <- app_assoc.
  set (l := replicate 10 0 ++ _).
  set (tail := concat _ ++ post).
  assert (Hlen : len (bytes_of l ++ tail)
                 = 84 + 8 * Z.of_nat (length colors) + len tail).
  { rewrite len_app. unfold len at 1. rewrite bytes_of_length. unfold l.
    rewrite !length_app, color_bytes_length. simpl. lia. }
  assert (Htail : 0 <= len tail) by (unfold len; lia).
  assert (Hcount : 0 < Z.of_nat (length colors))
    by (destruct colors; [contradiction|simpl; lia]).
  rewrite RWseek_inside by (rewrite Hlen; lia). cbn [mbind outcome_bind].
  change (0 + 10) with 10.
  cbn [opcode_loop done]. unfold opcode_step. cbn [cursor].
  read_field l tail 10 0x98 Hlen. cbn [Z.eqb Pos.eqb orb].
  unfold copy_bits, read_pixmap. cbn [Z.eqb Pos.eqb].
  cbn [mbind outcome_bind]. norm_offsets.
  read_field l tail 12 row_bytes Hlen.
  read_field l tail 14 0 Hlen.
  read_field l tail 16 0 Hlen.
  read_field l tail 18 height Hlen.
  read_field l tail 20 width Hlen.
  read_field l tail 22 0 Hlen.
  read_field l tail 24 0 Hlen.
  read_field l tail 26 0 Hlen.
  read_field l tail 40 8 Hlen.
  read_field l tail 42 0 Hlen.
  cbn [pm_width pm_height pm_pixel_size pm_row_bytes pm_pack_type].
  rewrite !Z.sub_0_r, !Z.mod_small, land_3fff_small by lia.
  change (channel_masks 8) with (Some (255, 255, 255)).
  rewrite Hcr, Hpal.
  unfold read_color_table. cbn [Z.eqb Pos.eqb].
  read_field l tail 58 0 Hlen.
  read_field l tail 64 (Z.of_nat (length colors) - 1) Hlen.
  replace (Z.to_nat (Z.of_nat (length colors) - 1 + 1)) with (length colors)
    by lia.
  rewrite (read_colors_entries _ _ 66 cs (map color_entry colors));
    [|lia| |exact Hcs].
  2: { apply (color_entries_at_bytes colors
                (replicate 10 0 ++ [0; 152]
                 ++ pixmap_bytes row_bytes 0 0 height width 0 8
                 ++ replicate 6 0
                 ++ be_bytes U16 (Z.of_nat (length colors) - 1))
                (replicate 18 0) tail 66 eq_refl Hcol). }
  cbn [mbind outcome_bind]. cbv beta iota.
  rewrite RWseek_inside by (rewrite Hlen; lia). cbn [mbind outcome_bind].
  unfold uncompress_picture.
  replace (row_bytes <? 8) with false by (symmetry; apply Z.ltb_ge; lia).
  cbn [Z.eqb Pos.eqb]. unfold uncompress_rle8.
  replace (Z.to_nat height) with (length lines) by lia.
  replace (66 + 8 * Z.of_nat (length colors) + 18) with (len (bytes_of l)).
  2: { unfold len. rewrite bytes_of_length. unfold l.
       rewrite !length_app, color_bytes_length. simpl. lia. }
  unfold tail. rewrite rle_rows_lines.
  - cbn [mbind outcome_bind]. reflexivity.
  - eapply Forall_impl; [exact Hlines|]. intros l0 [Hl0 Hw0].
    split; [exact Hl0|]. change (sizeof U8) with 1. lia.
  - lia.
  - apply (rows_fit_rect U8 lines width); [|lia|change (sizeof U8) with 1; lia
                                           |lia].
    eapply Forall_impl; [exact Hlines|]. intros l0 [_ Hw0]. exact Hw0.
Qed.

(** The decode of a 16-bit picture. *)
Lemma direct16_picture_decoded (host : Host)
    (row_bytes width height pack_type : Z) (lines : list (list Z))
    (post : list byte) (s0 : SDL_Surface) (buf : list byte) :
  buf = direct_picture row_bytes width height pack_type 16
          (concat (map (pack_line U16 row_bytes) lines)) ++ post ->
  Forall (fun l => Forall (in_range U16) l /\ Z.of_nat (length l) = width) lines ->
  Z.of_nat (length lines) = height ->
  pack_type = 0 \/ pack_type = 3 ->
  0 <= width -> 2 * width <= row_bytes -> 8 <= row_bytes <= 0x3fff ->
  height < 65536 ->
  SDL_RWFromMem host buf = true ->
  SDL_CreateRGBSurface host width height 16 (Some (0x7c00, 0x03e0, 0x001f))
  = Some s0 ->
  2 * width <= pitch s0 -> len (pixels s0) = pitch s0 * height ->
  picture_to_surface host (Some buf)
  = Ok (Some (Surface (surf_w s0) (surf_h s0) (BitsPerPixel s0) (masks s0)
                (pitch s0)
                (rows_stored (LITTLE_ENDIAN host) U16 lines 0 (pitch s0)
                   (pixels s0))
                (palette s0))).
Proof.
  intros Hbuf Hlines Hh Hpt Hw0 Hw Hrow Hh' HRW Hcr Hpitch Hpix.
  unfold picture_to_surface. rewrite HRW. subst buf.
  unfold direct_picture. rewrite <- app_assoc.
  set (l := replicate 10 0 ++ _).
  set (tail := concat _ ++ post).
  assert (Hlen : len (bytes_of l ++ tail) = 80 + len tail).
  { rewrite len_app. unfold len at 1. rewrite bytes_of_length. reflexivity. }
  assert (Htail : 0 <= len tail) by (unfold len; lia).
  rewrite RWseek_inside by (rewrite Hlen; lia). cbn [mbind outcome_bind].
  change (0 + 10) with 10.
  cbn [opcode_loop done]. unfold opcode_step. cbn [cursor].
  read_field l tail 10 0x9a Hlen. cbn [Z.eqb Pos.eqb orb].
  unfold copy_bits, read_pixmap. cbn [Z.eqb Pos.eqb].
  read_field l tail 12 0 Hlen.
  read_field l tail 16 row_bytes Hlen.
  read_field l tail 18 0 Hlen.
  read_field l tail 20 0 Hlen.
  read_field l tail 22 height Hlen.
  read_field l tail 24 width Hlen.
  read_field l tail 26 0 Hlen.
  read_field l tail 28 pack_type Hlen.
  read_field l tail 30 0 Hlen.
  read_field l tail 44 16 Hlen.
  read_field l tail 46 0 Hlen.
  cbn [pm_width pm_height pm_pixel_size pm_row_bytes pm_pack_type].
  rewrite !Z.sub_0_r, !Z.mod_small, land_3fff_small by lia.
  change (channel_masks 16) with (Some (0x7c00, 0x03e0, 0x001f)).
  rewrite Hcr.
  unfold read_color_table. cbn [Z.eqb Pos.eqb].
  cbn [mbind outcome_bind]. cbv beta iota.
  read_field l tail 62 0 Hlen.
  unfold uncompress_picture.
  replace (row_bytes <? 8) with false by (symmetry; apply Z.ltb_ge; lia).
  cbn [Z.eqb Pos.eqb].
  replace (if pack_type =? 0 then 3 else pack_type) with 3
    by (destruct Hpt as [-> | ->]; reflexivity).
  cbn [Z.eqb Pos.eqb]. unfold uncompress_rle16.
  replace (Z.to_nat height) with (length lines) by lia.
  change 80 with (len (bytes_of l)).
  unfold tail. rewrite rle_rows_lines.
  - cbn [mbind outcome_bind]. reflexivity.
  - eapply Forall_impl; [exact Hlines|]. intros l0 [Hl0 Hw1].
    split; [exact Hl0|]. change (sizeof U16) with 2. lia.
  - lia.
  - apply (rows_fit_rect U16 lines width);
      [|lia|change (sizeof U16) with 2; lia|lia].
    eapply Forall_impl; [exact Hlines|]. intros l0 [_ Hw1]. exact Hw1.
Qed.

Lemma planar_fit_rect (width : Z) (rows : nat) (d dst_pitch n : Z) :
  0 <= d -> 0 <= 4 * width <= dst_pitch ->
  d + dst_pitch * Z.of_nat rows <= n ->
  planar_fit width rows d dst_pitch n.
Proof.
  revert d. induction rows as [|rows IH]; intros d Hd Hp Hn; [exact I|].
  cbn [planar_fit]. split; [exact Hd|]. split; [nia|].
  apply IH; [lia|exact Hp|nia].
Qed.

(** The decode of a 32-bit picture. *)
Lemma direct32_picture_decoded (host : Host)
    (row_bytes width height pack_type : Z) (lines : list (list Z))
    (post : list byte) (s0 : SDL_Surface) (tmp buf : list byte) :
  buf = direct_picture row_bytes width height pack_type 32
          (concat (map (pack_line U8 row_bytes) lines)) ++ post ->
  Forall (fun l => Forall (in_range U8) l
                   /\ Z.of_nat (length l) = 3 * Z.quot row_bytes 4) lines ->
  Z.of_nat (length lines) = height ->
  pack_type = 0 \/ pack_type = 4 ->
  0 <= width < 65536 -> 8 <= row_bytes <= 0x3fff -> height < 65536 ->
  SDL_RWFromMem host buf = true ->
  SDL_CreateRGBSurface host width height 32
    (Some (0x00ff0000, 0x0000ff00, 0x000000ff)) = Some s0 ->
  malloc host row_bytes = Some tmp -> len tmp = row_bytes ->
  4 * Z.quot row_bytes 4 <= pitch s0 ->
  len (pixels s0) = pitch s0 * height ->
  exists pix',
    picture_to_surface host (Some buf)
    = Ok (Some (Surface (surf_w s0) (surf_h s0) (BitsPerPixel s0) (masks s0)
                  (pitch s0) pix' (palette s0)))
    /\ len pix' = len (pixels s0)
    /\ (forall (y : nat) (l : list Z) (x : nat) (c : Z),
          lines !! y = Some l -> Z.of_nat x < Z.quot row_bytes 4 ->
          0 <= c < 3 ->
          pix' !! Z.to_nat (component_at host 0 (pitch s0) y x c)
          = byte_of_Z
              <$> l !! Z.to_nat (c * Z.quot row_bytes 4 + Z.of_nat x))
    /\ (forall j : nat,
          (forall (y x : nat) (c : Z),
             (y < length lines)%nat -> Z.of_nat x < Z.quot row_bytes 4 ->
             0 <= c < 3 ->
             Z.of_nat j <> component_at host 0 (pitch s0) y x c) ->
          pix' !! j = pixels s0 !! j).
Proof.
  intros Hbuf Hlines Hh Hpt Hw Hrow Hh' HRW Hcr Hm Htmp Hpitch Hpix.
  assert (Hq : 0 <= Z.quot row_bytes 4 /\ 3 * Z.quot row_bytes 4 <= row_bytes).
  { rewrite Z.quot_div_nonneg by lia. Z.div_mod_to_equations. lia. }
  unfold picture_to_surface. rewrite HRW. subst buf.
  unfold direct_picture. rewrite <- app_assoc.
  set (l := replicate 10 0 ++ _).
  set (tail := concat _ ++ post).
  assert (Hlen : len (bytes_of l ++ tail) = 80 + len tail).
  { rewrite len_app. unfold len at 1. rewrite bytes_of_length. reflexivity. }
  assert (Htail : 0 <= len tail) by (unfold len; lia).
  destruct (rle32_rows_lines host lines row_bytes (Z.quot row_bytes 4)
              (bytes_of l) post tmp 0 (pitch s0) (pixels s0) Hlines
              ltac:(lia) ltac:(lia) Htmp Hpitch
              ltac:(apply planar_fit_rect; lia))
    as (pix' & E & Hl' & Hs' & Hk').
  exists pix'. split; [|auto].
  rewrite RWseek_inside by (rewrite Hlen; lia). cbn [mbind outcome_bind].
  change (0 + 10) with 10.
  cbn [opcode_loop done]. unfold opcode_step. cbn [cursor].
  read_field l tail 10 0x9a Hlen. cbn [Z.eqb Pos.eqb orb].
  unfold copy_bits, read_pixmap. cbn [Z.eqb Pos.eqb].
  read_field l tail 12 0 Hlen.
  read_field l tail 16 row_bytes Hlen.
  read_field l tail 18 0 Hlen.
  read_field l tail 20 0 Hlen.
  read_field l tail 22 height Hlen.
  read_field l tail 24 width Hlen.
  read_field l tail 26 0 Hlen.
  read_field l tail 28 pack_type Hlen.
  read_field l tail 30 0 Hlen.
  read_field l tail 44 32 Hlen.
  read_field l tail 46 0 Hlen.
  cbn [pm_width pm_height pm_pixel_size pm_row_bytes pm_pack_type].
  rewrite !Z.sub_0_r, !Z.mod_small, land_3fff_small by lia.
  change (channel_masks 32)
    with (Some (0x00ff0000, 0x0000ff00, 0x000000ff)).
  rewrite Hcr.
  unfold read_color_table. cbn [Z.eqb Pos.eqb].
  cbn [mbind outcome_bind]. cbv beta iota.
  read_field l tail 62 0 Hlen.
  unfold uncompress_picture.
  replace (row_bytes <? 8) with false by (symmetry; apply Z.ltb_ge; lia).
  cbn [Z.eqb Pos.eqb].
  replace (if pack_type =? 0 then 4 else pack_type) with 4
    by (destruct Hpt as [-> | ->]; reflexivity).
  cbn [Z.eqb Pos.eqb]. unfold uncompress_rle32. rewrite Hm.
  replace (Z.to_nat height) with (length lines) by lia.
  change 80 with (len (bytes_of l)).
  unfold tail. rewrite E.
  cbn [mbind outcome_bind]. reflexivity.
Qed.







(** ** The same bytes at another offset *)

(** The decoder addresses the resource relative to where it stands: what it
    does from an offset in [pre1 ++ rest] on, it does from the offset of
    the same bytes in [pre2 ++ rest] on. *)
Section Relocation.

Variable host : Host.
Variable pre1 pre2 rest : list byte.

#[local] Abbreviation buf1 := (pre1 ++ rest).
#[local] Abbreviation buf2 := (pre2 ++ rest).
#[local] Abbreviation delta := (len pre2 - len pre1).

Lemma peek_moved (i v : Z) :
  len pre1 <= i -> peek buf1 i = Ok v -> peek buf2 (i + delta) = Ok v.
Proof.
  intros Hi H.
  destruct (peek_cases buf1 i) as [(b & Hb & Hl & E)|[_ E]];
    rewrite E in H; [|discriminate].
  injection H as <-. unfold len in *.
  apply peek_lookup; [lia|].
  rewrite lookup_app_r in Hl by lia.
  rewrite lookup_app_r by lia. rewrite <- Hl. f_equal. lia.
Qed.

Lemma read_T_moved (T : elt) (st : ub_state) (v : Z) (st' : ub_state) :
  len pre1 <= src st -> read_T T buf1 st = Ok (v, st') ->
  read_T T buf2 (moved_ub delta st) = Ok (v, moved_ub delta st')
  /\ src st <= src st'.
Proof.
  intros Hs H. unfold read_T in *. cbn [moved_ub src src_count dst mem].
  destruct T.
  - apply bind_Ok in H as (b & E & H). injection H as <- <-.
    rewrite (peek_moved _ _ Hs E). cbn [mbind outcome_bind src].
    split; [|simpl; lia]. unfold moved_ub. cbn [src src_count dst mem].
    do 3 f_equal. lia.
  - apply bind_Ok in H as (b0 & E0 & H). apply bind_Ok in H as (b1 & E1 & H).
    injection H as <- <-.
    rewrite (peek_moved _ _ Hs E0). cbn [mbind outcome_bind].
    replace (src st + delta + 1) with (src st + 1 + delta) by lia.
    rewrite (peek_moved (src st + 1) b1 ltac:(lia) E1).
    cbn [mbind outcome_bind src].
    split; [|simpl; lia]. unfold moved_ub. cbn [src src_count dst mem].
    do 3 f_equal. lia.
Qed.

Lemma write_T_moved (le : bool) (T : elt) (st : ub_state) (data : Z)
    (st' : ub_state) :
  write_T le T st data = Ok st' ->
  write_T le T (moved_ub delta st) data = Ok (moved_ub delta st')
  /\ src st' = src st.
Proof.
  unfold write_T. cbn [moved_ub src src_count dst mem]. intros H.
  apply bind_Ok in H as (m' & -> & H). injection H as <-.
  cbn [mbind outcome_bind]. split; reflexivity.
Qed.

Lemma fill_run_moved (le : bool) (T : elt) (n : nat) (data : Z)
    (st st' : ub_state) :
  fill_run le T n data st = Ok st' ->
  fill_run le T n data (moved_ub delta st) = Ok (moved_ub delta st')
  /\ src st' = src st.
Proof.
  revert st. induction n as [|n IH]; intros st H; cbn [fill_run] in *.
  - injection H as <-. split; reflexivity.
  - apply bind_Ok in H as (st1 & E & H).
    apply write_T_moved in E as [-> E1]. cbn [mbind outcome_bind].
    apply IH in H as [-> ->]. split; [reflexivity|exact E1].
Qed.

Lemma copy_run_moved (le : bool) (T : elt) (n : nat) (st st' : ub_state) :
  len pre1 <= src st -> copy_run le T buf1 n st = Ok st' ->
  copy_run le T buf2 n (moved_ub delta st) = Ok (moved_ub delta st')
  /\ src st <= src st'.
Proof.
  revert st. induction n as [|n IH]; intros st Hs H; cbn [copy_run] in *.
  - injection H as <-. split; [reflexivity|lia].
  - apply bind_Ok in H as ([v st1] & E & H). cbv beta iota in H.
    apply read_T_moved in E as [-> Hs1]; [|exact Hs].
    cbn [mbind outcome_bind]. cbv beta iota.
    apply bind_Ok in H as (st2 & E & H).
    apply write_T_moved in E as [-> Hs2]. cbn [mbind outcome_bind].
    apply IH in H as [-> Hs3]; [|lia]. split; [reflexivity|lia].
Qed.

Lemma unpack_step_moved (le : bool) (T : elt) (st st' : ub_state) :
  len pre1 <= src st -> unpack_step le T buf1 st = Ok st' ->
  unpack_step le T buf2 (moved_ub delta st) = Ok (moved_ub delta st')
  /\ src st <= src st'.
Proof.
  intros Hs H. unfold unpack_step in *.
  apply bind_Ok in H as (b & E & H). cbv zeta in H.
  cbn [moved_ub src src_count dst mem].
  rewrite (peek_moved _ _ Hs E). cbn [mbind outcome_bind]. cbv zeta.
  replace (UB (src st + delta + 1) (src_count st - 1) (dst st) (mem st))
    with (moved_ub delta (UB (src st + 1) (src_count st - 1) (dst st)
                            (mem st)))
    by (unfold moved_ub; cbn [src src_count dst mem]; f_equal; lia).
  destruct (int8 b <? 0).
  - apply bind_Ok in H as ([v st2] & E2 & H). cbv beta iota in H.
    apply read_T_moved in E2 as [-> Hs2]; [|cbn [src]; lia].
    cbn [mbind outcome_bind]. cbv beta iota. cbn [src] in Hs2.
    apply fill_run_moved in H as [-> Hs3]. split; [reflexivity|lia].
  - apply copy_run_moved in H as [-> Hs2]; [|cbn [src]; lia].
    cbn [src] in Hs2. split; [reflexivity|lia].
Qed.

Lemma unpack_loop_moved (le : bool) (T : elt) (fuel : nat)
    (st st' : ub_state) :
  len pre1 <= src st -> unpack_loop le T buf1 fuel st = Ok st' ->
  unpack_loop le T buf2 fuel (moved_ub delta st) = Ok (moved_ub delta st')
  /\ src st <= src st'.
Proof.
  revert st. induction fuel as [|fuel IH]; intros st Hs H;
    cbn [unpack_loop] in *; cbn [moved_ub src_count] in *.
  - destruct (0 <? src_count st); [discriminate|].
    injection H as <-. split; [reflexivity|lia].
  - destruct (0 <? src_count st).
    + apply bind_Ok in H as (st1 & E & H).
      apply unpack_step_moved in E as [E Hs1]; [|exact Hs].
      fold (moved_ub delta st). rewrite E. cbn [mbind outcome_bind].
      apply IH in H as [-> Hs2]; [|lia]. split; [reflexivity|lia].
    + injection H as <-. split; [reflexivity|lia].
Qed.

Lemma read_count_moved (s row_bytes c s' : Z) :
  len pre1 <= s -> read_count buf1 s row_bytes = Ok (c, s') ->
  read_count buf2 (s + delta) row_bytes = Ok (c, s' + delta) /\ s <= s'.
Proof.
  intros Hs H. unfold read_count in *. destruct (250 <? row_bytes).
  - apply bind_Ok in H as (b0 & E0 & H). apply bind_Ok in H as (b1 & E1 & H).
    injection H as <- <-.
    rewrite (peek_moved _ _ Hs E0). cbn [mbind outcome_bind].
    replace (s + delta + 1) with (s + 1 + delta) by lia.
    rewrite (peek_moved (s + 1) b1 ltac:(lia) E1). cbn [mbind outcome_bind].
    split; [|lia]. do 2 f_equal. lia.
  - apply bind_Ok in H as (b & E & H). injection H as <- <-.
    rewrite (peek_moved _ _ Hs E). cbn [mbind outcome_bind].
    split; [|lia]. do 2 f_equal. lia.
Qed.

Lemma unpack_bits_moved (le : bool) (T : elt) (s row_bytes d : Z)
    (m : list byte) (st' : ub_state) :
  len pre1 <= s -> unpack_bits le T buf1 s row_bytes d m = Ok st' ->
  unpack_bits le T buf2 (s + delta) row_bytes d m = Ok (moved_ub delta st')
  /\ s <= src st'.
Proof.
  intros Hs H. unfold unpack_bits in *.
  apply bind_Ok in H as ([c s1] & E & H). cbv beta iota in H.
  apply read_count_moved in E as [-> Hs1]; [|exact Hs].
  cbn [mbind outcome_bind]. cbv beta iota.
  apply unpack_loop_moved in H as [H Hs2]; [|cbn [src]; lia].
  cbn [src] in Hs2.
  split; [exact H|lia].
Qed.

Lemma rle_rows_moved (T : elt) (height : nat) (s row_bytes d dst_pitch : Z)
    (pix pix' : list byte) :
  len pre1 <= s ->
  rle_rows host buf1 T height s row_bytes d dst_pitch pix = Ok pix' ->
  rle_rows host buf2 T height (s + delta) row_bytes d dst_pitch pix = Ok pix'.
Proof.
  revert s d pix. induction height as [|n IH]; intros s d pix Hs H;
    [exact H|].
  cbn [rle_rows] in *. apply bind_Ok in H as (st & E & H).
  apply unpack_bits_moved in E as [-> Hs1]; [|exact Hs].
  cbn [mbind outcome_bind moved_ub src mem]. apply IH; [lia|exact H].
Qed.

Lemma rle32_rows_moved (height : nat) (s row_bytes : Z) (tmp : list byte)
    (width d dst_pitch : Z) (pix pix' : list byte) :
  len pre1 <= s ->
  rle32_rows host buf1 height s row_bytes tmp width d dst_pitch pix
  = Ok pix' ->
  rle32_rows host buf2 height (s + delta) row_bytes tmp width d dst_pitch pix
  = Ok pix'.
Proof.
  revert s tmp d pix. induction height as [|n IH]; intros s tmp d pix Hs H;
    [exact H|].
  cbn [rle32_rows] in *. apply bind_Ok in H as (st & E & H).
  apply unpack_bits_moved in E as [-> Hs1]; [|exact Hs].
  cbn [mbind outcome_bind moved_ub src mem]. cbv zeta in *.
  do 3 (apply bind_Ok in H as (? & -> & H); cbn [mbind outcome_bind]).
  apply IH; [lia|exact H].
Qed.

Lemma memcpy_moved (pix : list byte) (d s n : Z) (pix' : list byte) :
  len pre1 <= s ->
  memcpy buf1 pix d s n = Ok pix' -> memcpy buf2 pix d (s + delta) n = Ok pix'.
Proof.
  unfold memcpy. intros Hs. destruct (n <? 0); [discriminate|].
  generalize (Z.to_nat n) as k. intros k. revert pix d s Hs.
  induction k as [|k IH]; intros pix d s Hs H; [exact H|].
  cbn [memcpy_loop] in *. apply bind_Ok in H as (b & E & H).
  rewrite (peek_moved s b Hs E). cbn [mbind outcome_bind].
  apply bind_Ok in H as (? & -> & H). cbn [mbind outcome_bind].
  replace (s + delta + 1) with (s + 1 + delta) by lia.
  apply IH; [lia|exact H].
Qed.

Lemma uncompress_picture_moved (s row_bytes : Z) (pix : list byte)
    (d dst_pitch depth height pack_type : Z) (pix' : list byte) :
  len pre1 <= s ->
  uncompress_picture host buf1 s row_bytes pix d dst_pitch depth height
    pack_type = Ok pix' ->
  uncompress_picture host buf2 (s + delta) row_bytes pix d dst_pitch depth
    height pack_type = Ok pix'.
Proof.
  intros Hs. unfold uncompress_picture.
  destruct (row_bytes <? 8); [apply memcpy_moved, Hs|].
  destruct (depth =? 8); [apply rle_rows_moved, Hs|].
  match goal with |- context [?pt =? 1] => destruct (pt =? 1) end.
  { intros H. apply bind_Ok in H as (p1 & E & H).
    rewrite (memcpy_moved _ _ _ _ _ Hs E). exact H. }
  match goal with |- context [?pt =? 3] => destruct (pt =? 3) end.
  { apply rle_rows_moved, Hs. }
  match goal with |- context [?pt =? 4] => destruct (pt =? 4) end;
    [|discriminate].
  unfold uncompress_rle32. destruct (malloc host row_bytes); [|auto].
  apply rle32_rows_moved, Hs.
Qed.

Lemma ReadBE16_moved (p v q : Z) :
  len pre1 <= p -> SDL_ReadBE16 buf1 p = Ok (v, q) ->
  SDL_ReadBE16 buf2 (p + delta) = Ok (v, q + delta) /\ q = p + 2.
Proof.
  intros Hp H. apply ReadBE16_Ok in H as (Hp0 & -> & Hq & Hv).
  split; [|reflexivity].
  replace (p + 2 + delta) with (p + delta + 2) by lia.
  unfold len in *. apply ReadBE16_elt; [lia|].
  unfold elt_at in *.
  rewrite !lookup_app_r in Hv by lia. rewrite !lookup_app_r by lia.
  match goal with
  | |- context [rest !! ?a] =>
      replace a with (Z.to_nat p - length pre1)%nat by lia
  end.
  match goal with
  | |- context [rest !! (Z.to_nat ?a - length pre2)%nat] =>
      replace (Z.to_nat a - length pre2)%nat
        with (Z.to_nat (p + 1) - length pre1)%nat by lia
  end.
  exact Hv.
Qed.

Lemma RWseek_moved (p n q : Z) :
  len pre1 <= p + n -> SDL_RWseek buf1 p n = Ok q ->
  SDL_RWseek buf2 (p + delta) n = Ok (q + delta) /\ q = p + n.
Proof.
  intros Hp H. apply RWseek_Ok in H as [-> Hq]. split; [|reflexivity].
  replace (p + n + delta) with (p + delta + n) by lia.
  apply RWseek_inside. rewrite len_app in *. unfold len in *. lia.
Qed.

(** One read or seek of a sequence that returned, done again on the other
    resource. *)
Ltac step_moved H :=
  match type of H with
  | SDL_ReadBE16 _ _ ≫= _ = Ok _ =>
      let v := fresh "v" in
      let q := fresh "q" in
      let E := fresh "E" in
      let R := fresh "R" in
      apply bind_Ok in H as ([v q] & E & H);
      pose proof (ReadBE16_Ok _ _ _ _ E) as (_ & _ & _ & R);
      apply elt_at_range in R; simpl in R;
      apply ReadBE16_moved in E as [E ->]; [|lia];
      rewrite E; clear E; cbn [mbind outcome_bind]; cbv beta iota in H |- *
  | SDL_RWseek _ _ _ ≫= _ = Ok _ =>
      let q := fresh "q" in
      let E := fresh "E" in
      apply bind_Ok in H as (q & E & H);
      apply RWseek_moved in E as [E ->]; [|lia];
      rewrite E; clear E; cbn [mbind outcome_bind]; cbv beta iota in H |- *
  end.

Lemma read_pixmap_moved (opcode p : Z) (pm : pixmap) (q : Z) :
  len pre1 <= p -> read_pixmap buf1 opcode p = Ok (pm, q) ->
  read_pixmap buf2 opcode (p + delta) = Ok (pm, q + delta) /\ p <= q.
Proof.
  intros Hp H. unfold read_pixmap in *.
  destruct (opcode =? 154).
  - repeat step_moved H. injection H as <- <-. split; [reflexivity|lia].
  - cbn [mbind outcome_bind] in *.
    repeat step_moved H. injection H as <- <-. split; [reflexivity|lia].
Qed.

Lemma read_colors_moved (n : nat) (p : Z) (pal pal' : option (list SDL_Color))
    (q : Z) :
  len pre1 <= p -> read_colors buf1 n p pal = Ok (pal', q) ->
  read_colors buf2 n (p + delta) pal = Ok (pal', q + delta) /\ p <= q.
Proof.
  revert p pal. induction n as [|n IH]; intros p pal Hp H;
    cbn [read_colors] in *.
  - injection H as <- <-. split; [reflexivity|lia].
  - do 3 (repeat step_moved H;
          apply bind_Ok in H as (? & -> & H); cbn [mbind outcome_bind]).
    apply IH in H as [-> Hq]; [|lia]. split; [reflexivity|lia].
Qed.

Lemma read_color_table_moved (opcode p : Z)
    (pal pal' : option (list SDL_Color)) (q : Z) :
  len pre1 <= p -> read_color_table buf1 opcode p pal = Ok (pal', q) ->
  read_color_table buf2 opcode (p + delta) pal = Ok (pal', q + delta)
  /\ p <= q.
Proof.
  intros Hp H. unfold read_color_table in *. destruct (opcode =? 152).
  - repeat step_moved H.
    apply read_colors_moved in H as [-> Hq]; [|lia].
    split; [reflexivity|lia].
  - injection H as <- <-. split; [reflexivity|lia].
Qed.

Lemma copy_bits_moved (opcode p : Z) (st' : pict_state) :
  len pre1 <= p -> copy_bits host buf1 opcode p = Ok st' ->
  copy_bits host buf2 opcode (p + delta) = Ok (moved_pict delta st')
  /\ p <= cursor st'.
Proof.
  intros Hp H. unfold copy_bits in *.
  apply bind_Ok in H as ([pm p1] & E & H). cbv beta iota in H.
  apply read_pixmap_moved in E as [-> Hp1]; [|exact Hp].
  cbn [mbind outcome_bind]. cbv beta iota.
  destruct (SDL_CreateRGBSurface _ _ _ _ _) as [s|].
  - apply bind_Ok in H as ([pal p2] & E & H). cbv beta iota in H.
    apply read_color_table_moved in E as [-> Hp2]; [|lia].
    cbn [mbind outcome_bind]. cbv beta iota.
    step_moved H.
    apply bind_Ok in H as (pix & E & H).
    apply uncompress_picture_moved in E; [|lia].
    rewrite E. cbn [mbind outcome_bind]. injection H as <-.
    split; [reflexivity|cbn [cursor]; lia].
  - injection H as <-. split; [reflexivity|cbn [cursor]; lia].
Qed.

Lemma opcode_step_moved (st st' : pict_state) :
  len pre1 <= cursor st -> opcode_step host buf1 st = Ok st' ->
  opcode_step host buf2 (moved_pict delta st) = Ok (moved_pict delta st')
  /\ cursor st <= cursor st'.
Proof.
  intros Hp H. unfold opcode_step in *. cbn [moved_pict cursor surface done].
  step_moved H.
  repeat match goal with
         | |- context [if ?c then _ else _] => destruct c
         end;
    repeat step_moved H;
    first [ injection H as <-; split; [reflexivity|cbn [cursor]; lia]
          | apply copy_bits_moved in H as [-> Hc];
            [split; [reflexivity|lia]|lia]
          | discriminate H ].
Qed.

Lemma opcode_loop_moved (fuel fuel' : nat) (st st' : pict_state) :
  (fuel <= fuel')%nat -> len pre1 <= cursor st ->
  opcode_loop host buf1 fuel st = Ok st' ->
  opcode_loop host buf2 fuel' (moved_pict delta st)
  = Ok (moved_pict delta st').
Proof.
  revert fuel' st. induction fuel as [|fuel IH]; intros fuel' st Hf Hp H.
  - cbn [opcode_loop] in H. destruct (done st) eqn:Hd; [|discriminate].
    injection H as <-. apply opcode_loop_done. exact Hd.
  - cbn [opcode_loop] in H. destruct (done st) eqn:Hd.
    + injection H as <-. apply opcode_loop_done. exact Hd.
    + destruct fuel' as [|fuel']; [lia|].
      cbn [opcode_loop moved_pict done]. rewrite Hd.
      apply bind_Ok in H as (st1 & E & H).
      apply opcode_step_moved in E as [E Hc]; [|exact Hp].
      fold (moved_pict delta st). rewrite E. cbn [mbind outcome_bind].
      apply (IH fuel'); [lia|lia|exact H].
Qed.

End Relocation.

Lemma marker_step_start (host : Host) (m more : list byte)
    (s : option SDL_Surface) (d : bool) :
  marker m ->
  opcode_step host (m ++ more) (Pict 0 s d) = Ok (Pict (len m) s d)
  /\ 2 <= len m.
Proof.
  intros Hm. unfold opcode_step. cbn [cursor surface done].
  assert (Hmore : 0 <= len more) by (unfold len; lia).
  destruct Hm as [opcode Hop|kind|kind size data Hsize Hdata|data Hdata
                 |size data Hsize Hdata].
  - rewrite (ReadBE16_at _ more 0 opcode) by (lia || reflexivity).
    cbn [mbind outcome_bind]. cbv beta iota.
    destruct Hop as [->|[->|[->| ->]]]; cbn [Z.eqb Pos.eqb orb];
      split; (reflexivity || (vm_compute; discriminate)).
  - rewrite (ReadBE16_at _ more 0 0xa0) by (lia || reflexivity).
    cbn [mbind outcome_bind]. cbv beta iota. cbn [Z.eqb Pos.eqb orb].
    rewrite RWseek_inside
      by (rewrite len_app; unfold len at 1; rewrite bytes_of_length;
          simpl; lia).
    cbn [mbind outcome_bind]. split; [reflexivity|].
    unfold len. rewrite bytes_of_length. simpl. lia.
  - rewrite <- app_assoc.
    assert (Hlen : len (bytes_of ([0; 161] ++ be_bytes U16 kind
                                  ++ be_bytes U16 size) ++ data ++ more)
                   = 6 + size + len more).
    { rewrite !len_app. unfold len at 1. rewrite bytes_of_length.
      simpl. lia. }
    rewrite (ReadBE16_at _ (data ++ more) 0 0xa1) by (lia || reflexivity).
    cbn [mbind outcome_bind]. cbv beta iota. cbn [Z.eqb Pos.eqb orb].
    rewrite RWseek_inside by (rewrite Hlen; lia).
    cbn [mbind outcome_bind].
    rewrite (ReadBE16_at _ (data ++ more) (0 + 2 + 2) size)
      by (lia || reflexivity).
    cbn [mbind outcome_bind]. cbv beta iota.
    rewrite RWseek_inside by (rewrite Hlen; lia).
    cbn [mbind outcome_bind].
    assert (Hm : len (bytes_of ([0; 161] ++ be_bytes U16 kind
                                ++ be_bytes U16 size) ++ data) = 6 + size).
    { rewrite len_app. unfold len at 1. rewrite bytes_of_length.
      simpl. lia. }
    rewrite Hm. split; [do 2 f_equal; lia|lia].
  - rewrite <- app_assoc.
    assert (Hlen : len (bytes_of [12; 0] ++ data ++ more)
                   = 26 + len more).
    { rewrite !len_app. unfold len at 1. rewrite bytes_of_length.
      simpl. lia. }
    rewrite (ReadBE16_at _ (data ++ more) 0 0x0c00) by (lia || reflexivity).
    cbn [mbind outcome_bind]. cbv beta iota. cbn [Z.eqb Pos.eqb orb].
    rewrite RWseek_inside by (rewrite Hlen; lia).
    cbn [mbind outcome_bind].
    assert (Hm : len (bytes_of [12; 0] ++ data) = 26).
    { rewrite len_app. unfold len at 1. rewrite bytes_of_length.
      simpl. lia. }
    rewrite Hm. split; [reflexivity|lia].
  - rewrite <- app_assoc.
    assert (Hlen : len (bytes_of ([0; 1] ++ be_bytes U16 size)
                        ++ data ++ more)
                   = 2 + size + len more).
    { rewrite !len_app. unfold len at 1. rewrite bytes_of_length.
      simpl. lia. }
    rewrite (ReadBE16_at _ (data ++ more) 0 1) by (lia || reflexivity).
    cbn [mbind outcome_bind]. cbv beta iota. cbn [Z.eqb Pos.eqb orb].
    rewrite (ReadBE16_at _ (data ++ more) (0 + 2) size)
      by (lia || reflexivity).
    cbn [mbind outcome_bind]. cbv beta iota.
    rewrite RWseek_inside by (rewrite Hlen; lia).
    cbn [mbind outcome_bind].
    assert (Hm : len (bytes_of ([0; 1] ++ be_bytes U16 size) ++ data)
                 = 2 + size).
    { rewrite len_app. unfold len at 1. rewrite bytes_of_length.
      simpl. lia. }
    rewrite Hm. split; [do 2 f_equal; lia|lia].
Qed.

Lemma marker_step (host : Host) (pre m more : list byte)
    (s : option SDL_Surface) (d : bool) :
  marker m ->
  opcode_step host (pre ++ m ++ more) (Pict (len pre) s d)
  = Ok (Pict (len (pre ++ m)) s d)
  /\ 2 <= len m.
Proof.
  intros Hm.
  destruct (marker_step_start host m more s d Hm) as [E Hlen].
  split; [|exact Hlen].
  destruct (opcode_step_moved host [] pre (m ++ more) (Pict 0 s d)
              (Pict (len m) s d) ltac:(cbn [cursor]; unfold len; simpl; lia)
              E) as [E' _].
  unfold moved_pict in E'. cbn [cursor surface done] in E'.
  replace (0 + (len pre - len [])) with (len pre) in E'
    by (unfold len; simpl; lia).
  rewrite E'. do 2 f_equal. rewrite len_app. unfold len. simpl. lia.
Qed.

Lemma opcode_loop_markers (host : Host) (hdr rest : list byte)
    (ms : list (list byte)) :
  Forall marker ms ->
  forall (pre : list byte) (fuel fuel' : nat) (s : option SDL_Surface)
         (st : pict_state),
    (length ms + fuel <= fuel')%nat ->
    opcode_loop host (hdr ++ rest) fuel (Pict (len hdr) s false) = Ok st ->
    opcode_loop host (pre ++ concat ms ++ rest) fuel' (Pict (len pre) s false)
    = Ok (moved_pict (len (pre ++ concat ms) - len hdr) st).
Proof.
  induction 1 as [|m ms Hm Hms IH]; intros pre fuel fuel' s st Hf H.
  - cbn [concat app]. rewrite app_nil_r.
    pose proof (opcode_loop_moved host hdr pre rest fuel fuel'
                  (Pict (len hdr) s false) st ltac:(simpl in Hf; lia)
                  ltac:(cbn [cursor]; lia) H) as H'.
    unfold moved_pict in H' at 1. cbn [cursor surface done] in H'.
    replace (len hdr + (len pre - len hdr)) with (len pre) in H' by lia.
    exact H'.
  - cbn [concat length] in *.
    destruct fuel' as [|fuel']; [lia|].
    cbn [opcode_loop done]. rewrite <- app_assoc.
    destruct (marker_step host pre m (concat ms ++ rest) s false Hm)
      as [-> _].
    cbn [mbind outcome_bind].
    rewrite (app_assoc pre m (concat ms ++ rest)).
    rewrite (IH (pre ++ m) fuel fuel' s st ltac:(lia) H).
    rewrite <- !app_assoc. reflexivity.
Qed.

Lemma markers_length (ms : list (list byte)) :
  Forall marker ms -> (length ms <= length (concat ms))%nat.
Proof.
  induction 1 as [|m ms Hm Hms IH]; [simpl; lia|].
  cbn [concat length]. rewrite length_app.
  destruct (marker_step_start host_le m [] None false Hm) as [_ Hlen].
  unfold len in Hlen. lia.
Qed.

(** X15: what comes before the image.  The ten bytes of size and frame
    and the records the opcode loop skips (plain opcodes, comments, the
    header opcode, clipping regions) have no effect on the result: with
    other ten bytes in front and any such records put between them and the
    opcodes, a resource decodes to the same result. *)
Theorem picture_to_surface_skips_markers (host : Host)
    (hdr hdr' rest : list byte) (ms : list (list byte))
    (r : option SDL_Surface) :
  len hdr = 10 -> len hdr' = 10 -> Forall marker ms ->
  SDL_RWFromMem host (hdr ++ rest) = true ->
  SDL_RWFromMem host (hdr' ++ concat ms ++ rest) = true ->
  picture_to_surface host (Some (hdr ++ rest)) = Ok r ->
  picture_to_surface host (Some (hdr' ++ concat ms ++ rest)) = Ok r.
Proof.
  intros Hh Hh' Hms HRW HRW' H. unfold picture_to_surface in *.
  rewrite HRW in H. rewrite HRW'.
  apply bind_Ok in H as (p & Ep & H). apply RWseek_Ok in Ep as (-> & _).
  apply bind_Ok in H as (st & El & H). injection H as <-.
  rewrite RWseek_inside
    by (rewrite len_app; unfold len in *; lia).
  cbn [mbind outcome_bind].
  replace (0 + 10) with (len hdr) in El by lia.
  replace (0 + 10) with (len hdr') by lia.
  rewrite (opcode_loop_markers host hdr rest ms Hms hdr'
             (S (length (hdr ++ rest))) _ None st); [reflexivity| |exact El].
  pose proof (markers_length ms Hms).
  rewrite !length_app. unfold len in *. lia.
Qed.

(** The planar picture behind another header, a version opcode, a long
    comment of three bytes and a clipping region of ten. *)
Lemma picture_to_surface_skips_markers_witness :
  exists r,
    picture_to_surface host_le
      (Some (replicate 10 xff
             ++ concat
                  [bytes_of (be_bytes U16 0x0011);
                   bytes_of ([0x00; 0xa1] ++ be_bytes U16 7
                             ++ be_bytes U16 3) ++ bytes_of [1; 2; 3];
                   bytes_of ([0x00; 0x01] ++ be_bytes U16 10)
                   ++ replicate 8 x00]
             ++ drop 10 pict_planar))
    = Ok r
    /\ picture_to_surface host_le (Some pict_planar) = Ok r.
Proof.
  assert (E : exists r,
             picture_to_surface host_le
               (Some (replicate 10 x00 ++ drop 10 pict_planar)) = Ok r)
    by (eexists; vm_compute; reflexivity).
  destruct E as [r E]. exists r. split; [|exact E].
  apply (picture_to_surface_skips_markers host_le (replicate 10 x00)
           (replicate 10 xff) (drop 10 pict_planar)); try reflexivity;
    [|exact E].
  constructor; [apply (marker_plain 0x0011); auto|].
  constructor;
    [apply (marker_long_comment 7 3 (bytes_of [1; 2; 3]));
       [lia|reflexivity]|].
  constructor; [|constructor].
  apply (marker_clip 10 (replicate 8 x00)); [lia|reflexivity].
Defined.

(** X16: pixel data wherever they lie.  [uncompress_picture] addresses the
    resource relative to [src] only: the same bytes from [src] on, found at
    another offset of another resource, decompress to the same pixels,
    whatever the depth and the pack type. *)
Theorem uncompress_picture_position_independent (host : Host)
    (pre1 pre2 rest : list byte) (s row_bytes : Z) (pix : list byte)
    (d dst_pitch depth height pack_type : Z) (pix' : list byte) :
  len pre1 <= s ->
  uncompress_picture host (pre1 ++ rest) s row_bytes pix d dst_pitch depth
    height pack_type = Ok pix' ->
  uncompress_picture host (pre2 ++ rest) (s + (len pre2 - len pre1))
    row_bytes pix d dst_pitch depth height pack_type = Ok pix'.
Proof. intros Hs H. apply uncompress_picture_moved; assumption. Qed.

(** A packed line of eight pixels at offset 0 and at offset 2. *)
Lemma uncompress_picture_position_independent_witness :
  uncompress_picture host_le
    (bytes_of [9; 9] ++ pack_line U8 8 [1; 2; 3; 4; 5; 6; 7; 8]) 2 8
    (replicate 8 x00) 0 8 8 1 0
  = Ok (bytes_of [1; 2; 3; 4; 5; 6; 7; 8]).
Proof.
  exact (uncompress_picture_position_independent host_le []
           (bytes_of [9; 9]) (pack_line U8 8 [1; 2; 3; 4; 5; 6; 7; 8])
           0 8 (replicate 8 x00) 0 8 8 1 0 (bytes_of [1; 2; 3; 4; 5; 6; 7; 8])
           ltac:(vm_compute; discriminate) eq_refl).
Defined.

(** X17: a picture too wide for the rectangle.  The horizontal offset of
    the scroll goes up to the width of the picture less 640 and is stored in
    the 16-bit signed [x] of the source rectangle: for a picture of 33408
    pixels or more across, the pass that reaches the end blits from a
    negative [x]. *)
Theorem scroll_offset_wraps (MACHINE_TICKS_PER_SECOND : Z)
    (scr : Screen) (host : Host) (pict_resource_number : Z)
    (text_block : bool) (start_tick now : Z) (ev : event_type)
    (s : SDL_Surface) :
  picture_to_surface host
    (get_picture_resource_from_scenario scr pict_resource_number)
  = Ok (Some s) ->
  33408 <= surf_w s < 65536 -> 0 <= surf_h s <= 480 ->
  uint32 (if text_block
          then 2 * SCROLLING_SPEED MACHINE_TICKS_PER_SECOND
          else SCROLLING_SPEED MACHINE_TICKS_PER_SECOND) <> 0 ->
  surf_w s - 640
  < uint32 (now - uint32 start_tick)
    / uint32 (if text_block
              then 2 * SCROLLING_SPEED MACHINE_TICKS_PER_SECOND
              else SCROLLING_SPEED MACHINE_TICKS_PER_SECOND) ->
  exists r d d',
    scroll_full_screen_pict_resource_from_scenario MACHINE_TICKS_PER_SECOND
      scr host pict_resource_number text_block start_tick [(now, ev)]
    = Ok ([BlitSurface s (Some r) d; UpdateRects d'; FreeSurface s],
          Returned)
    /\ rect_x r = surf_w s - 640 - 65536
    /\ rect_x r < 0.
Proof.
  intros E Hw Hh Hdiv Hraw.
  unfold scroll_full_screen_pict_resource_from_scenario.
  rewrite E. cbn [mbind outcome_bind].
  unfold screen_width, screen_height.
  replace (640 <? surf_w s) with true by (symmetry; apply Z.ltb_lt; lia).
  replace (480 <? surf_h s) with false by (symmetry; apply Z.ltb_ge; lia).
  cbn [orb scroll_loop].
  unfold scroll_delta, screen_width, screen_height.
  replace (640 <? surf_w s) with true by (symmetry; apply Z.ltb_lt; lia).
  replace (480 <? surf_h s) with false by (symmetry; apply Z.ltb_ge; lia).
  destruct (Z.eqb_spec
              (uint32 (if text_block
                       then 2 * SCROLLING_SPEED MACHINE_TICKS_PER_SECOND
                       else SCROLLING_SPEED MACHINE_TICKS_PER_SECOND)) 0)
    as [E0|_]; [contradiction|].
  rewrite (uint32_small (surf_w s - 640)) by lia.
  replace (surf_w s - 640 <? _) with true by (symmetry; apply Z.ltb_lt; lia).
  cbn [andb orb app].
  do 3 eexists. split; [reflexivity|]. cbn [rect_x].
  assert (Hx : sint16 (surf_w s - 640) = surf_w s - 640 - 65536).
  { unfold sint16.
    replace (surf_w s - 640 + 32768)
      with (surf_w s - 640 - 32768 + 1 * 65536) by lia.
    rewrite Z.mod_add by lia. rewrite Z.mod_small by lia. lia. }
  rewrite Hx. lia.
Qed.

(** The picture 40000 pixels wide, two million ticks after the start. *)
Lemma scroll_offset_wraps_witness :
  exists s r d d',
    scroll_full_screen_pict_resource_from_scenario 1000
      (screen_800 pict_very_wide) host_le 0 false 0
      [(2000000, SDL_NOEVENT)]
    = Ok ([BlitSurface s (Some r) d; UpdateRects d'; FreeSurface s],
          Returned)
    /\ rect_x r = -26176.
Proof.
  assert (E : exists s,
             picture_to_surface host_le
               (get_picture_resource_from_scenario
                  (screen_800 pict_very_wide) 0)
             = Ok (Some s)
             /\ surf_w s = 40000 /\ surf_h s = 0).
  { eexists. split; [vm_compute; reflexivity|]. split; reflexivity. }
  destruct E as (s & E & Hw & Hh).
  destruct (scroll_offset_wraps 1000 (screen_800 pict_very_wide) host_le 0
              false 0 2000000 SDL_NOEVENT s E
              ltac:(rewrite Hw; lia) ltac:(rewrite Hh; lia)
              ltac:(vm_compute; discriminate)
              ltac:(rewrite Hw; vm_compute; reflexivity))
    as (r & d & d' & Ec & Hx & _).
  exists s, r, d, d'. split; [exact Ec|]. rewrite Hx, Hw. reflexivity.
Defined.

(** ** The last element that satisfies a test *)

Lemma find_rev_last {A} (f : A -> bool) (l : list A) :
  match List.find f (rev l) with
  | Some p =>
      exists pre post,
        l = pre ++ p :: post /\ f p = true
        /\ Forall (fun q => f q = false) post
  | None => Forall (fun q => f q = false) l
  end.
Proof.
  induction l as [|x l IH] using rev_ind; [constructor|].
  rewrite rev_app_distr. cbn [rev app List.find].
  destruct (f x) eqn:Hx.
  - exists l, []. auto.
  - destruct (List.find f (rev l)) as [p|].
    + destruct IH as (pre & post & -> & Hp & Hpost).
      exists pre, (post ++ [x]). rewrite <- app_assoc. split; [reflexivity|].
      split; [exact Hp|]. apply Forall_app. auto.
    + apply Forall_app. auto.
Qed.

Lemma find_app_none {A} (f : A -> bool) (l1 l2 : list A) :
  Forall (fun q => f q = false) l1 ->
  List.find f (l1 ++ l2) = List.find f l2.
Proof.
  induction 1 as [|q l1 Hq Hl1 IH]; [reflexivity|].
  cbn [app List.find]. rewrite Hq. exact IH.
Qed.

Lemma find_rev_last_iff {A} (f : A -> bool) (l : list A) (p : A) :
  List.find f (rev l) = Some p
  <-> exists pre post,
        l = pre ++ p :: post /\ f p = true
        /\ Forall (fun q => f q = false) post.
Proof.
  split.
  - intros E. pose proof (find_rev_last f l) as H. rewrite E in H. exact H.
  - intros (pre & post & -> & Hp & Hpost).
    rewrite rev_app_distr. cbn [rev]. rewrite <- app_assoc. cbn [app].
    rewrite find_app_none.
    + cbn [List.find]. rewrite Hp. reflexivity.
    + apply Forall_rev, Hpost.
Qed.

Lemma find_rev_none_iff {A} (f : A -> bool) (l : list A) :
  List.find f (rev l) = None <-> Forall (fun q => f q = false) l.
Proof.
  split.
  - intros E. pose proof (find_rev_last f l) as H. rewrite E in H. exact H.
  - intros H. rewrite <- (app_nil_r (rev l)). rewrite find_app_none.
    + reflexivity.
    + apply Forall_rev, H.
Qed.

(** * Properties of the plugin manager *)

Section PluginFacts.

Variable A1_DATE_VERSION : string.

(** X18: which script plugin is used.  [find_hud_lua] returns the last
    plugin of the list that is enabled, names a HUD script and is
    compatible with this version, and the null pointer exactly when there
    is none; [find_solo_lua] does the same for solo scripts. *)
Theorem find_lua_last (m_plugins : list Plugin) :
  (forall p,
     find_hud_lua A1_DATE_VERSION m_plugins = Some p
     <-> exists pre post,
           m_plugins = pre ++ p :: post
           /\ enabled p && has_size (hud_lua p)
              && compatible A1_DATE_VERSION p = true
           /\ Forall (fun q => enabled q && has_size (hud_lua q)
                               && compatible A1_DATE_VERSION q = false) post)
  /\ (find_hud_lua A1_DATE_VERSION m_plugins = None
      <-> Forall (fun q => enabled q && has_size (hud_lua q)
                           && compatible A1_DATE_VERSION q = false)
            m_plugins)
  /\ (forall p,
        find_solo_lua A1_DATE_VERSION m_plugins = Some p
        <-> exists pre post,
              m_plugins = pre ++ p :: post
              /\ enabled p && has_size (solo_lua p)
                 && compatible A1_DATE_VERSION p = true
              /\ Forall (fun q => enabled q && has_size (solo_lua q)
                                  && compatible A1_DATE_VERSION q = false)
                   post)
  /\ (find_solo_lua A1_DATE_VERSION m_plugins = None
      <-> Forall (fun q => enabled q && has_size (solo_lua q)
                           && compatible A1_DATE_VERSION q = false)
            m_plugins).
Proof.
  unfold find_hud_lua, find_solo_lua.
  split;
    [intros p;
     apply (find_rev_last_iff
              (fun q => enabled q && has_size (hud_lua q)
                        && compatible A1_DATE_VERSION q))|].
  split;
    [apply (find_rev_none_iff
              (fun q => enabled q && has_size (hud_lua q)
                        && compatible A1_DATE_VERSION q))|].
  split;
    [intros p;
     apply (find_rev_last_iff
              (fun q => enabled q && has_size (solo_lua q)
                        && compatible A1_DATE_VERSION q))
    |apply (find_rev_none_iff
              (fun q => enabled q && has_size (solo_lua q)
                        && compatible A1_DATE_VERSION q))].
Qed.

Lemma disable_length (path : string) (ps : list Plugin) :
  length (disable path ps) = length ps.
Proof.
  induction ps as [|p ps IH]; [reflexivity|]. cbn [disable].
  destruct (String.eqb (directory p) path); cbn [length]; congruence.
Qed.

Lemma disable_absent (path : string) (ps : list Plugin) :
  Forall (fun p => directory p <> path) ps -> disable path ps = ps.
Proof.
  induction 1 as [|p ps Hp Hps IH]; [reflexivity|]. cbn [disable].
  apply String.eqb_neq in Hp. rewrite Hp, IH. reflexivity.
Qed.

Lemma disable_first (path : string) (pre : list Plugin) (p : Plugin)
    (post : list Plugin) :
  Forall (fun q => directory q <> path) pre -> directory p = path ->
  disable path (pre ++ p :: post) = pre ++ set_enabled false p :: post.
Proof.
  intros Hpre Hp. induction Hpre as [|q pre Hq Hpre IH]; cbn [app disable].
  - apply String.eqb_eq in Hp. rewrite Hp. reflexivity.
  - apply String.eqb_neq in Hq. rewrite Hq, IH. reflexivity.
Qed.

(** X19: what [disable] changes.  [Plugins::disable] keeps the number of
    plugins, changes nothing when no plugin lies in the directory, and
    otherwise clears [enabled] of the first plugin in that directory and
    of no other, not even of a later plugin in the same directory. *)
Theorem disable_first_match (path : string) (m_plugins : list Plugin) :
  length (disable path m_plugins) = length m_plugins
  /\ (Forall (fun p => directory p <> path) m_plugins ->
      disable path m_plugins = m_plugins)
  /\ (forall pre p post,
        m_plugins = pre ++ p :: post ->
        Forall (fun q => directory q <> path) pre -> directory p = path ->
        disable path m_plugins = pre ++ set_enabled false p :: post).
Proof.
  split; [apply disable_length|]. split; [apply disable_absent|].
  intros pre p post -> Hpre Hp. apply disable_first; assumption.
Qed.

Lemma load_mmls_In (p : Plugin) (d f : string) :
  In (d, f) (load_mmls p) -> directory p = d /\ In f (mmls p).
Proof.
  unfold load_mmls. intros H. apply in_map_iff in H as (f' & E & Hf).
  injection E as <- <-. auto.
Qed.

Lemma find_hud_lua_In (ps : list Plugin) (p : Plugin) :
  find_hud_lua A1_DATE_VERSION ps = Some p ->
  In p ps /\ enabled p = true /\ compatible A1_DATE_VERSION p = true.
Proof.
  intros E. apply find_rev_last_iff in E as (pre & post & -> & Hp & _).
  apply andb_true_iff in Hp as [Hp Hc]. apply andb_true_iff in Hp as [He _].
  split; [apply in_elt|auto].
Qed.

Lemma find_solo_lua_In (ps : list Plugin) (p : Plugin) :
  find_solo_lua A1_DATE_VERSION ps = Some p ->
  In p ps /\ enabled p = true /\ compatible A1_DATE_VERSION p = true.
Proof.
  intros E. apply find_rev_last_iff in E as (pre & post & -> & Hp & _).
  apply andb_true_iff in Hp as [Hp Hc]. apply andb_true_iff in Hp as [He _].
  split; [apply in_elt|auto].
Qed.

Lemma load_mml_In (use_hud_lua : bool) (ps : list Plugin) (d f : string) :
  In (d, f) (load_mml A1_DATE_VERSION use_hud_lua ps) ->
  exists p,
    In p ps /\ directory p = d /\ In f (mmls p)
    /\ enabled p = true /\ compatible A1_DATE_VERSION p = true.
Proof.
  unfold load_mml. intros H. apply in_app_iff in H as [H|H].
  - apply in_flat_map in H as (p & Hp & H).
    destruct (enabled p && negb (has_size (hud_lua p))
              && negb (has_size (solo_lua p))
              && compatible A1_DATE_VERSION p) eqn:E; [|destruct H].
    apply load_mmls_In in H as [Hd Hf].
    apply andb_true_iff in E as [E Hc]. apply andb_true_iff in E as [E _].
    apply andb_true_iff in E as [He _].
    exists p. auto.
  - destruct (negb use_hud_lua); [|destruct H].
    destruct (find_hud_lua A1_DATE_VERSION ps) as [p|] eqn:E; [|destruct H].
    apply find_hud_lua_In in E as (Hp & He & Hc).
    apply load_mmls_In in H as [Hd Hf]. exists p. auto.
Qed.

Lemma load_solo_mml_In (use_solo_lua : bool) (ps : list Plugin)
    (d f : string) :
  In (d, f) (load_solo_mml A1_DATE_VERSION use_solo_lua ps) ->
  exists p,
    In p ps /\ directory p = d /\ In f (mmls p)
    /\ enabled p = true /\ compatible A1_DATE_VERSION p = true.
Proof.
  unfold load_solo_mml. intros H.
  destruct (negb use_solo_lua); [|destruct H].
  destruct (find_solo_lua A1_DATE_VERSION ps) as [p|] eqn:E; [|destruct H].
  apply find_solo_lua_In in E as (Hp & He & Hc).
  apply load_mmls_In in H as [Hd Hf]. exists p. auto.
Qed.

(** X20: whose files are loaded.  Every file that [load_mml] and
    [load_solo_mml] give the loader belongs to a plugin of the list that is
    enabled and compatible with this version, and is parsed with the
    directory of that plugin as the search path. *)
Theorem only_enabled_plugins_load (use_hud_lua use_solo_lua : bool)
    (m_plugins : list Plugin) (d f : string) :
  In (d, f) (load_mml A1_DATE_VERSION use_hud_lua m_plugins
             ++ load_solo_mml A1_DATE_VERSION use_solo_lua m_plugins) ->
  exists p,
    In p m_plugins /\ directory p = d /\ In f (mmls p)
    /\ enabled p = true /\ compatible A1_DATE_VERSION p = true.
Proof.
  intros H. apply in_app_iff in H as [H|H].
  - eapply load_mml_In, H.
  - eapply load_solo_mml_In, H.
Qed.

Lemma disable_In (path : string) (ps : list Plugin) (p : Plugin) :
  NoDup (map directory ps) -> In p (disable path ps) ->
  directory p = path -> enabled p = false.
Proof.
  induction ps as [|q ps IH]; intros Hnd Hin Hp; [destruct Hin|].
  cbn [map] in Hnd. apply NoDup_cons in Hnd as [Hq Hnd].
  cbn [disable] in Hin.
  destruct (String.eqb_spec (directory q) path) as [Eq|Nq].
  - destruct Hin as [<-|Hin]; [reflexivity|].
    exfalso. apply Hq. rewrite Eq, <- Hp.
    apply list_elem_of_In, in_map, Hin.
  - destruct Hin as [<-|Hin]; [contradiction|]. apply IH; assumption.
Qed.

(** X21: a disabled plugin is not loaded.  When no two plugins share a
    directory, no file is loaded from the directory that was disabled,
    whatever the preferences. *)
Theorem disabled_plugin_not_loaded (path : string)
    (use_hud_lua use_solo_lua : bool) (m_plugins : list Plugin)
    (d f : string) :
  NoDup (map directory m_plugins) ->
  In (d, f) (load_mml A1_DATE_VERSION use_hud_lua (disable path m_plugins)
             ++ load_solo_mml A1_DATE_VERSION use_solo_lua
                  (disable path m_plugins)) ->
  d <> path.
Proof.
  intros Hnd H Hd.
  assert (Hp : exists p,
             In p (disable path m_plugins) /\ directory p = d
             /\ In f (mmls p) /\ enabled p = true
             /\ compatible A1_DATE_VERSION p = true).
  { apply in_app_iff in H as [H|H].
    - eapply load_mml_In, H.
    - eapply load_solo_mml_In, H. }
  destruct Hp as (p & Hin & Hdir & _ & He & _).
  rewrite (disable_In path m_plugins p Hnd Hin) in He by congruence.
  discriminate He.
Qed.

End PluginFacts.

(** The file of [plugin_b] comes from an enabled plugin. *)
Lemma only_enabled_plugins_load_witness :
  exists p,
    In p [plugin_a; plugin_b] /\ directory p = "Plugins/b"
    /\ In "b.mml" (mmls p) /\ enabled p = true.
Proof.
  destruct (only_enabled_plugins_load "20100118" false false [plugin_a; plugin_b]
              "Plugins/b" "b.mml" ltac:(vm_compute; auto))
    as (p & Hp & Hd & Hf & He & _).
  exists p. auto.
Defined.

(** With [plugin_a] disabled, what is loaded comes from [plugin_b]. *)
Lemma disabled_plugin_not_loaded_witness :
  "Plugins/b" <> "Plugins/a".
Proof.
  apply (disabled_plugin_not_loaded "20100118" "Plugins/a" false false
           [plugin_a; plugin_b] "Plugins/b" "b.mml").
  - apply NoDup_cons. split; [|apply NoDup_singleton].
    rewrite list_elem_of_In. simpl. intros [H|[]]. discriminate H.
  - vm_compute. auto.
Defined.


Lemma set_mmls_fields (v : list string) (p : Plugin) :
  (directory (set_mmls v p), name (set_mmls v p),
   description (set_mmls v p), version (set_mmls v p),
   hud_lua (set_mmls v p), solo_lua (set_mmls v p),
   required_version (set_mmls v p), enabled (set_mmls v p))
  = (directory p, name p, description p, version p, hud_lua p, solo_lua p,
     required_version p, enabled p).
Proof. reflexivity. Qed.

(** X22: the files of a plugin are sorted.  [XML_PluginParser::End] adds
    the plugin at the end of the list with its files in ascending order,
    the same files and all else as it was; so the order in which the files
    were given does not matter. *)
Theorem plugin_files_sorted (Data : Plugin) (m_plugins : list Plugin) :
  (exists Data',
     XML_PluginParser_End Data m_plugins = (Data', m_plugins ++ [Data'])
     /\ Sorted String.le (mmls Data')
     /\ mmls Data' ≡ₚ mmls Data
     /\ set_mmls (mmls Data) Data' = Data)
  /\ (forall files1 files2,
        files1 ≡ₚ files2 ->
        XML_PluginParser_End (set_mmls files1 Data) m_plugins
        = XML_PluginParser_End (set_mmls files2 Data) m_plugins).
Proof.
  split.
  - eexists. split; [reflexivity|]. cbn [mmls set_mmls].
    split; [apply (Sorted_merge_sort String.le)|].
    split; [apply (merge_sort_Permutation String.le)|].
    destruct Data; reflexivity.
  - intros files1 files2 Hperm. unfold XML_PluginParser_End.
    cbn [mmls set_mmls].
    assert (E : merge_sort String.le files1 = merge_sort String.le files2).
    { apply (Sorted_unique String.le).
      - apply (Sorted_merge_sort String.le).
      - apply (Sorted_merge_sort String.le).
      - rewrite !(merge_sort_Permutation String.le). exact Hperm. }
    rewrite E. reflexivity.
Qed.

(** ** Versions *)

Lemma ltb_false_le (a b : string) :
  String.ltb a b = false <-> String.leb b a = true.
Proof.
  unfold String.ltb, String.leb. rewrite (String.compare_antisym b a).
  destruct (String.compare a b); simpl; split; congruence.
Qed.

(** X23: later versions.  Versions compare as strings do; a plugin that is
    compatible with one version of the program is compatible with every
    version that is no less. *)
Theorem compatible_later_version (v v' : string) (p : Plugin) :
  String.le v v' -> compatible v p = true -> compatible v' p = true.
Proof.
  unfold compatible. intros Hv H.
  destruct (String.length (required_version p) =? 0)%nat; [reflexivity|].
  cbn [orb] in *. apply negb_true_iff in H. apply negb_true_iff.
  apply ltb_false_le in H. apply ltb_false_le.
  apply Is_true_true. apply Is_true_true in H.
  change (String.le (required_version p) v') .
  change (String.le (required_version p) v) in H.
  etrans; [exact H|exact Hv].
Qed.

(** A plugin for October 2009 with the versions of January 2010 and
    2011. *)
Lemma compatible_later_version_witness :
  compatible "20110101" plugin_b = true.
Proof.
  apply (compatible_later_version "20100118" "20110101" plugin_b).
  - vm_compute. exact I.
  - reflexivity.
Defined.

(** ** What the parser makes of a plugin *)

Lemma parsing_enabled (StringsEqual : string -> string -> bool)
    (dir : string) (Data : Plugin) :
  parsing StringsEqual dir Data ->
  enabled Data = true /\ directory Data = dir.
Proof.
  induction 1 as [|Tag Value Data Data' Hp IH E|Tag Value Data Data' Hp IH E].
  - split; reflexivity.
  - unfold XML_PluginParser_HandleAttribute in E.
    repeat match type of E with
           | (if ?c then _ else _) = _ => destruct c
           end;
      try discriminate E; injection E as <-; exact IH.
  - unfold XML_PluginMMLParser_HandleAttribute in E.
    destruct (StringsEqual Tag "file"); [|discriminate E].
    injection E as <-. exact IH.
Qed.

(** X24: a parsed plugin.  Whatever attributes the element of a plugin and
    its mml elements carry, the plugin that [End] adds to the list is
    enabled and lies in the directory that was being parsed: no attribute
    reaches these two members. *)
Theorem parsed_plugin_enabled (StringsEqual : string -> string -> bool)
    (dir : string) (Data : Plugin) (m_plugins : list Plugin) :
  parsing StringsEqual dir Data ->
  exists Data',
    XML_PluginParser_End Data m_plugins = (Data', m_plugins ++ [Data'])
    /\ enabled Data' = true /\ directory Data' = dir.
Proof.
  intros Hp. apply parsing_enabled in Hp as [He Hd].
  eexists. split; [reflexivity|]. cbn [set_mmls enabled directory]. auto.
Qed.

(** A plugin element with a name and one file, tags compared as they are
    written. *)
Lemma parsed_plugin_enabled_witness :
  exists Data',
    XML_PluginParser_End
      (set_mmls ["a.mml"] (set_name "a" (XML_PluginParser_Start "Plugins/a")))
      []
    = (Data', [Data'])
    /\ enabled Data' = true /\ directory Data' = "Plugins/a".
Proof.
  apply (parsed_plugin_enabled String.eqb "Plugins/a" _ []).
  apply (parsing_mml String.eqb "Plugins/a" "file" "a.mml"
           (set_name "a" (XML_PluginParser_Start "Plugins/a")));
    [|reflexivity].
  apply (parsing_attribute String.eqb "Plugins/a" "name" "a"
           (XML_PluginParser_Start "Plugins/a"));
    [|reflexivity].
  apply parsing_Start.
Defined.
